(** * LSODA: the integrator of [inst/include/lsoda.h], embedded in Rocq

    The class [LSODA::LSODA] is a variable-order, variable-step integrator
    for [dy/dt = f(t, y)] that switches between an Adams family
    ([meth_ = 1]) and a BDF family ([meth_ = 2]).  This file embeds the
    member functions of the class as functions over an explicit object
    state and proves properties of them.

    Conventions of the embedding.
    - [double] is the kernel's binary64 type; [+ - * /], [sqrt] and the
      comparisons are the IEEE operations the C++ code executes.  Only
      [pow] (libm) and the user's right-hand side [f] are parameters.
    - [size_t] and [int] values are integers in [Z]; conversions between
      the two and the arithmetic that can wrap are written with
      [to_size_t] and [to_int].
    - [std::vector] and [std::array] are lists, indexed from 0 as in the
      source (which leaves index 0 unused).  An access out of range is
      undefined in C++; here a read returns 0 and a write is dropped.
    - Output on [Rcpp::Rcerr] / [REprintf] is the list [rcerr] of the
      messages printed so far, newest first.
    - [Rcpp::stop] (a C++ exception) is the result [Stopped]. *)

From Stdlib Require Import ZArith List Bool Lia Floats FunctionalExtensionality.
Import ListNotations.
Set Warnings "-inexact-float".
Local Open Scope Z_scope.

(** ** Machine integers *)

(** Conversion to [size_t] (64-bit, unsigned). *)
Definition to_size_t (z : Z) : Z := z mod 2 ^ 64.

(** Conversion to [int] (32-bit, two's complement). *)
Definition to_int (z : Z) : Z := (z + 2 ^ 31) mod 2 ^ 32 - 2 ^ 31.

(** ** Doubles *)

Abbreviation double := float (only parsing).

(** [std::numeric_limits<double>::epsilon()]. *)
Definition ETA : double := 0x1p-52%float.

(** The C++ comparisons [a > b], [a >= b], [a != b]. *)
Definition fgt (a b : double) : bool := (b <? a)%float.
Definition fge (a b : double) : bool := (b <=? a)%float.
Definition fne (a b : double) : bool := negb (a =? b)%float.
Arguments fgt (a b)%_float_scope.
Arguments fge (a b)%_float_scope.
Arguments fne (a b)%_float_scope.

(** [std::max(a, b)] is [(a < b) ? b : a] and [std::min(a, b)] is
    [(b < a) ? b : a]. *)
Definition fmax (a b : double) : double := if (a <? b)%float then b else a.
Definition fmin (a b : double) : double := if (b <? a)%float then b else a.
Arguments fmax (a b)%_float_scope.
Arguments fmin (a b)%_float_scope.

(** [(double) z] for an integer [z]: rounding to nearest, ties to even. *)
Definition double_of_Z (z : Z) : double :=
  SF2Prim (binary_normalize 53 1024 z 0 false).

(** [(size_t) x] for a double [x]: the fraction is discarded.  The
    conversion is undefined in C++ unless the truncated value fits, so
    the function is the program's only for finite [x] with
    [0 <= x < 2 ^ 64]; elsewhere its value (the integer reduced modulo
    [2 ^ 64], 0 for infinities and NaN) stands for a conversion the
    language does not define. *)
Definition size_t_of_double (x : double) : Z :=
  match Prim2SF x with
  | S754_finite sg m e =>
      let q := Z.shiftl (Z.pos m) e in to_size_t (if sg then - q else q)
  | _ => 0
  end.

(** [sign(a, b)], the C implementation of Fortran's SIGN. *)
Definition sign (a b : double) : double :=
  if fge b 0 then abs a else (- abs a)%float.
Arguments sign (a b)%_float_scope.

(** ** Vectors *)

Section Vectors.
Context {A : Type} (d : A).

(** [v[i]] *)
Definition vget (v : list A) (i : Z) : A := nth (Z.to_nat i) v d.

Fixpoint upd (k : nat) (x : A) (v : list A) : list A :=
  match v, k with
  | [], _ => []
  | _ :: t, O => x :: t
  | h :: t, S k' => h :: upd k' x t
  end.

(** [v[i] = x] *)
Definition vset (v : list A) (i : Z) (x : A) : list A :=
  if i <? 0 then v else upd (Z.to_nat i) x v.

(** [v.resize(count, x)]: existing elements are kept. *)
Definition resize (count : Z) (x : A) (v : list A) : list A :=
  firstn (Z.to_nat count) v ++ repeat x (Z.to_nat count - length v).
End Vectors.

(** [a[j][i]] and [a[j][i] = x] for a vector of rows. *)
Definition mget {A} (d : A) (a : list (list A)) (j i : Z) : A :=
  vget d (vget [] a j) i.
Definition mset {A} (a : list (list A)) (j i : Z) (x : A) : list (list A) :=
  vset a j (vset (vget [] a j) i x).

Notation "v .[ i ]" := (vget 0%float v i) (at level 1, format "v .[ i ]").
Notation "a .[ j , i ]" := (mget 0%float a j i) (at level 1, format "a .[ j ,  i ]").

(** ** Counted loops *)

(** The indices [a, a+1, ..., b] (none when [b < a]). *)
Definition upto (a b : Z) : list Z :=
  map (fun k => a + Z.of_nat k) (seq 0 (Z.to_nat (b - a + 1))).

(** [for (i = a; i <= b; i++) body] *)
Definition for_up {S : Type} (a b : Z) (body : Z -> S -> S) (s : S) : S :=
  fold_left (fun s i => body i s) (upto a b) s.

(** [for (i = a; i >= b; i--) body] *)
Definition for_down {S : Type} (a b : Z) (body : Z -> S -> S) (s : S) : S :=
  fold_left (fun s i => body i s) (rev (upto b a)) s.

(** ** Messages printed by the integrator *)

Inductive message : Type :=
| illegal_istate | illegal_itask | not_initialized
| neq_less_than_1 | neq_increased | illegal_itol | illegal_iopt | illegal_jt
| illegal_ml | illegal_mu | illegal_ixpr | tout_behind_t
| hmax_negative | hmin_negative | rtol_negative | atol_negative
| tcrit_behind_tout | ewt_nonpositive (i : Z) | tout_too_close
| trouble_from_intdy | tout_behind_tcur_hu | tcrit_behind_tcur
| too_many_steps | too_much_accuracy_at_start | too_much_accuracy
| h_warning | h_warning_last | switch_to_stiff | switch_to_nonstiff
| error_test_failed | convergence_failed
| repeated_illegal_input
| intdy_illegal_k | intdy_illegal_t
| prja_miter | solsy_miter.

(** ** The object state

    The data members of [class LSODA], in the order of their declaration.
    The constant tables [mord] and [sm1], set by the constructor and never
    assigned again, are the definitions [mord] and [sm1] below. *)

Record LSODA : Type := mkLSODA {
  ml : Z;
  mu : Z;
  imxer : Z;
  sqrteta : double;
  el : list double;
  cm1 : list double;
  cm2 : list double;
  elco : list (list double);
  tesco : list (list double);
  illin : Z;
  init : Z;
  ierpj : Z;
  iersl : Z;
  jcur : Z;
  l : Z;
  miter : Z;
  maxord : Z;
  maxcor : Z;
  msbp : Z;
  mxncf : Z;
  kflag : Z;
  jstart : Z;
  iret : Z;
  ixpr : Z;
  jtyp : Z;
  mused : Z;
  mxordn : Z;
  mxords : Z;
  meth_ : Z;
  n : Z;
  nq : Z;
  nst : Z;
  nfe : Z;
  nje : Z;
  nqu : Z;
  mxstep : Z;
  mxhnil : Z;
  nslast : Z;
  nhnil : Z;
  ntrep : Z;
  nyh : Z;
  ccmax : double;
  el0 : double;
  h_ : double;
  hmin : double;
  hmxi : double;
  hu : double;
  rc : double;
  tn_ : double;
  tsw : double;
  pdnorm : double;
  conit : double;
  crate : double;
  hold : double;
  rmax : double;
  ialth : Z;
  ipup : Z;
  lmax : Z;
  nslp : Z;
  pdest : double;
  pdlast : double;
  ratio : double;
  icount : Z;
  irflag : Z;
  ewt : list double;
  savf : list double;
  acor : list double;
  yh_ : list (list double);
  wm_ : list (list double);
  ipvt : list Z;
  itol_ : Z;
  rtol_ : list double;
  atol_ : list double;
  rcerr : list message
}.

Definition LSODA_eta (s : LSODA) : LSODA :=
  mkLSODA (ml s) (mu s) (imxer s) (sqrteta s) (el s) (cm1 s) (cm2 s) (elco s)
    (tesco s) (illin s) (init s) (ierpj s) (iersl s) (jcur s) (l s) (miter s)
    (maxord s) (maxcor s) (msbp s) (mxncf s) (kflag s) (jstart s) (iret s)
    (ixpr s) (jtyp s) (mused s) (mxordn s) (mxords s) (meth_ s) (n s) (nq s)
    (nst s) (nfe s) (nje s) (nqu s) (mxstep s) (mxhnil s) (nslast s) (nhnil s)
    (ntrep s) (nyh s) (ccmax s) (el0 s) (h_ s) (hmin s) (hmxi s) (hu s) (rc s)
    (tn_ s) (tsw s) (pdnorm s) (conit s) (crate s) (hold s) (rmax s) (ialth s)
    (ipup s) (lmax s) (nslp s) (pdest s) (pdlast s) (ratio s) (icount s)
    (irflag s) (ewt s) (savf s) (acor s) (yh_ s) (wm_ s) (ipvt s) (itol_ s)
    (rtol_ s) (atol_ s) (rcerr s).

(** [setter p] builds the function that replaces the member [p]. *)
Ltac setter proj :=
  let t := eval cbv delta [LSODA_eta] in LSODA_eta in
  match eval pattern proj in t with
  | ?F _ => let r := eval cbv beta in (fun v => F (fun _ => v)) in exact r
  end.

Definition set_ml : Z -> LSODA -> LSODA := ltac:(setter ml).
Definition set_mu : Z -> LSODA -> LSODA := ltac:(setter mu).
Definition set_imxer : Z -> LSODA -> LSODA := ltac:(setter imxer).
Definition set_sqrteta : double -> LSODA -> LSODA := ltac:(setter sqrteta).
Definition set_el : list double -> LSODA -> LSODA := ltac:(setter el).
Definition set_cm1 : list double -> LSODA -> LSODA := ltac:(setter cm1).
Definition set_cm2 : list double -> LSODA -> LSODA := ltac:(setter cm2).
Definition set_elco : list (list double) -> LSODA -> LSODA := ltac:(setter elco).
Definition set_tesco : list (list double) -> LSODA -> LSODA := ltac:(setter tesco).
Definition set_illin : Z -> LSODA -> LSODA := ltac:(setter illin).
Definition set_init : Z -> LSODA -> LSODA := ltac:(setter init).
Definition set_ierpj : Z -> LSODA -> LSODA := ltac:(setter ierpj).
Definition set_iersl : Z -> LSODA -> LSODA := ltac:(setter iersl).
Definition set_jcur : Z -> LSODA -> LSODA := ltac:(setter jcur).
Definition set_l : Z -> LSODA -> LSODA := ltac:(setter l).
Definition set_miter : Z -> LSODA -> LSODA := ltac:(setter miter).
Definition set_maxord : Z -> LSODA -> LSODA := ltac:(setter maxord).
Definition set_maxcor : Z -> LSODA -> LSODA := ltac:(setter maxcor).
Definition set_msbp : Z -> LSODA -> LSODA := ltac:(setter msbp).
Definition set_mxncf : Z -> LSODA -> LSODA := ltac:(setter mxncf).
Definition set_kflag : Z -> LSODA -> LSODA := ltac:(setter kflag).
Definition set_jstart : Z -> LSODA -> LSODA := ltac:(setter jstart).
Definition set_iret : Z -> LSODA -> LSODA := ltac:(setter iret).
Definition set_ixpr : Z -> LSODA -> LSODA := ltac:(setter ixpr).
Definition set_jtyp : Z -> LSODA -> LSODA := ltac:(setter jtyp).
Definition set_mused : Z -> LSODA -> LSODA := ltac:(setter mused).
Definition set_mxordn : Z -> LSODA -> LSODA := ltac:(setter mxordn).
Definition set_mxords : Z -> LSODA -> LSODA := ltac:(setter mxords).
Definition set_meth_ : Z -> LSODA -> LSODA := ltac:(setter meth_).
Definition set_n : Z -> LSODA -> LSODA := ltac:(setter n).
Definition set_nq : Z -> LSODA -> LSODA := ltac:(setter nq).
Definition set_nst : Z -> LSODA -> LSODA := ltac:(setter nst).
Definition set_nfe : Z -> LSODA -> LSODA := ltac:(setter nfe).
Definition set_nje : Z -> LSODA -> LSODA := ltac:(setter nje).
Definition set_nqu : Z -> LSODA -> LSODA := ltac:(setter nqu).
Definition set_mxstep : Z -> LSODA -> LSODA := ltac:(setter mxstep).
Definition set_mxhnil : Z -> LSODA -> LSODA := ltac:(setter mxhnil).
Definition set_nslast : Z -> LSODA -> LSODA := ltac:(setter nslast).
Definition set_nhnil : Z -> LSODA -> LSODA := ltac:(setter nhnil).
Definition set_ntrep : Z -> LSODA -> LSODA := ltac:(setter ntrep).
Definition set_nyh : Z -> LSODA -> LSODA := ltac:(setter nyh).
Definition set_ccmax : double -> LSODA -> LSODA := ltac:(setter ccmax).
Definition set_el0 : double -> LSODA -> LSODA := ltac:(setter el0).
Definition set_h_ : double -> LSODA -> LSODA := ltac:(setter h_).
Definition set_hmin : double -> LSODA -> LSODA := ltac:(setter hmin).
Definition set_hmxi : double -> LSODA -> LSODA := ltac:(setter hmxi).
Definition set_hu : double -> LSODA -> LSODA := ltac:(setter hu).
Definition set_rc : double -> LSODA -> LSODA := ltac:(setter rc).
Definition set_tn_ : double -> LSODA -> LSODA := ltac:(setter tn_).
Definition set_tsw : double -> LSODA -> LSODA := ltac:(setter tsw).
Definition set_pdnorm : double -> LSODA -> LSODA := ltac:(setter pdnorm).
Definition set_conit : double -> LSODA -> LSODA := ltac:(setter conit).
Definition set_crate : double -> LSODA -> LSODA := ltac:(setter crate).
Definition set_hold : double -> LSODA -> LSODA := ltac:(setter hold).
Definition set_rmax : double -> LSODA -> LSODA := ltac:(setter rmax).
Definition set_ialth : Z -> LSODA -> LSODA := ltac:(setter ialth).
Definition set_ipup : Z -> LSODA -> LSODA := ltac:(setter ipup).
Definition set_lmax : Z -> LSODA -> LSODA := ltac:(setter lmax).
Definition set_nslp : Z -> LSODA -> LSODA := ltac:(setter nslp).
Definition set_pdest : double -> LSODA -> LSODA := ltac:(setter pdest).
Definition set_pdlast : double -> LSODA -> LSODA := ltac:(setter pdlast).
Definition set_ratio : double -> LSODA -> LSODA := ltac:(setter ratio).
Definition set_icount : Z -> LSODA -> LSODA := ltac:(setter icount).
Definition set_irflag : Z -> LSODA -> LSODA := ltac:(setter irflag).
Definition set_ewt : list double -> LSODA -> LSODA := ltac:(setter ewt).
Definition set_savf : list double -> LSODA -> LSODA := ltac:(setter savf).
Definition set_acor : list double -> LSODA -> LSODA := ltac:(setter acor).
Definition set_yh_ : list (list double) -> LSODA -> LSODA := ltac:(setter yh_).
Definition set_wm_ : list (list double) -> LSODA -> LSODA := ltac:(setter wm_).
Definition set_ipvt : list Z -> LSODA -> LSODA := ltac:(setter ipvt).
Definition set_itol_ : Z -> LSODA -> LSODA := ltac:(setter itol_).
Definition set_rtol_ : list double -> LSODA -> LSODA := ltac:(setter rtol_).
Definition set_atol_ : list double -> LSODA -> LSODA := ltac:(setter atol_).
Definition set_rcerr : list message -> LSODA -> LSODA := ltac:(setter rcerr).

(** [Rcpp::Rcerr << ...] and [REprintf(...)] *)
Definition print (m : message) (s : LSODA) : LSODA := set_rcerr (m :: rcerr s) s.

Definition mord : list Z := [12; 5; 0].
Definition sm1 : list double :=
  [0; 0.5; 0.575; 0.55; 0.45; 0.35; 0.25; 0.2; 0.15; 0.1; 0.075; 0.05; 0.025]%float.

(** ** Linear algebra kernel *)

(** [idamax1]: "Find largest component of double vector dx".  The locals
    [v] and [vmax] are declared [size_t], so each magnitude is converted
    to an unsigned integer before it is compared. *)
Definition idamax1 (dx : list double) (n offset : Z) : Z :=
  snd (for_up 1 n
         (fun i '(vmax, idmax) =>
            let v := size_t_of_double (abs dx.[i + offset]) in
            if v >? vmax then (v, i) else (vmax, idmax))
         (0, 1)).

(** [dscal1]: [dx = da * dx].  The source ignores [n] and scales every
    element from index [1 + offset] to the end of the vector. *)
Definition dscal1 (da : double) (dx : list double) (n offset : Z) : list double :=
  firstn (Z.to_nat (1 + offset)) dx
  ++ map (fun x => (da * x)%float) (skipn (Z.to_nat (1 + offset)) dx).

(** [ddot1]: inner product. *)
Definition ddot1 (a b : list double) (n offsetA offsetB : Z) : double :=
  for_up 1 n (fun i sum => (sum + a.[i + offsetA] * b.[i + offsetB])%float) 0%float.

(** [daxpy1]: [dy = da * dx + dy]. *)
Definition daxpy1 (da : double) (dx dy : list double) (n offsetX offsetY : Z)
  : list double :=
  for_up 1 n
    (fun i dy => vset dy (i + offsetY) (da * dx.[i + offsetX] + dy.[i + offsetY])%float)
    dy.

(** [dgesl]: solve [a * x = b] ([job = 0]) or [Transpose(a) * x = b] from
    the factors computed by [dgefa].  Returns the new [b]. *)
Definition dgesl (a : list (list double)) (n : Z) (ipvt : list Z)
    (b : list double) (job : Z) : list double :=
  if job =? 0 then
    let b :=
      for_up 1 n
        (fun k b =>
           let t := ddot1 (vget [] a k) b (k - 1) 0 0 in
           vset b k ((b.[k] - t) / a.[k, k])%float) b in
    for_down (to_size_t (n - 1)) 1
      (fun k b =>
         let b := vset b k (b.[k] + ddot1 (vget [] a k) b (to_size_t (n - k)) k k)%float in
         let j := to_size_t (vget 0 ipvt k) in
         if negb (j =? k) then
           let t := b.[j] in
           let b := vset b j b.[k] in
           vset b k t
         else b) b
  else
    let b :=
      for_up 1 (to_size_t (n - 1))
        (fun k b =>
           let j := to_size_t (vget 0 ipvt k) in
           let t := b.[j] in
           let b := if negb (j =? k) then vset (vset b j b.[k]) k t else b in
           daxpy1 t (vget [] a k) b (to_size_t (n - k)) k k) b in
    for_down n 1
      (fun k b =>
         let b := vset b k (b.[k] / a.[k, k])%float in
         let t := (- b.[k])%float in
         daxpy1 t (vget [] a k) b (k - 1) 0 0) b.

(** [dgefa]: Gaussian elimination with partial pivoting.  Returns the
    factored matrix, the pivot indices and [*info]. *)
Definition dgefa (a : list (list double)) (n : Z) (ipvt : list Z)
  : list (list double) * list Z * Z :=
  let '(a, ipvt, info) :=
    for_up 1 (to_size_t (n - 1))
      (fun k '(a, ipvt, info) =>
         let j := to_size_t (idamax1 (vget [] a k) (to_size_t (n - k + 1)) (k - 1) + k - 1) in
         let ipvt := vset ipvt k (to_int j) in
         if (a.[k, j] =? 0)%float then (a, ipvt, k)
         else
           let a :=
             if negb (j =? k) then
               let t := a.[k, j] in
               let a := mset a k j a.[k, k] in
               mset a k k t
             else a in
           let t := (-1 / a.[k, k])%float in
           let a := vset a k (dscal1 t (vget [] a k) (to_size_t (n - k)) k) in
           let a :=
             for_up (k + 1) n
               (fun i a =>
                  let t := a.[i, j] in
                  let a :=
                    if negb (j =? k) then
                      let a := mset a i j a.[i, k] in
                      mset a i k t
                    else a in
                  vset a i (daxpy1 t (vget [] a k) (vget [] a i) (to_size_t (n - k)) k k))
               a in
           (a, ipvt, info))
      (a, ipvt, 0) in
  let ipvt := vset ipvt n (to_int n) in
  let info := if (a.[n, n] =? 0)%float then n else info in
  (a, ipvt, info).

(** ** Generic Nordsieck loops

    The Pascal-triangle update of the history array and its inverse, over
    an arbitrary number type: [stoda] and [corfailure] run them on
    doubles, and the algebraic statements about them are made over any
    type whose subtraction undoes its addition. *)

Section Pascal.
Context {D : Type} (d0 : D) (add sub : D -> D -> D).

(** [for (i = 1; i <= n; i++) yh[i1][i] op= yh[i1 + 1][i];] *)
Definition row_update (op : D -> D -> D) (n i1 : Z) (yh : list (list D))
  : list (list D) :=
  for_up 1 n (fun i yh => mset yh i1 i (op (mget d0 yh i1 i) (mget d0 yh (i1 + 1) i))) yh.

(** [for (j = nq; j >= 1; j--) for (i1 = j; i1 <= nq; i1++) ...] *)
Definition pascal (op : D -> D -> D) (nq n : Z) (yh : list (list D))
  : list (list D) :=
  for_down nq 1 (fun j yh => for_up j nq (fun i1 yh => row_update op n i1 yh) yh) yh.

(** The prediction: every row accumulates the row above it. *)
Definition predict := pascal add.
(** The retraction run when a step is rejected. *)
Definition retract := pascal sub.
End Pascal.

(** ** Returns to the caller *)

(** [terminate]: "Terminate lsoda due to illegal input."  Returns the
    object and [*istate]. *)
Definition terminate (s : LSODA) (istate : Z) : LSODA * Z :=
  if illin s =? 5 then (print repeated_illegal_input s, istate)
  else (set_illin (to_size_t (illin s + 1)) s, -3).

(** [terminate2]: "Terminate lsoda due to various error conditions."
    Returns the object, [y] and [*t]. *)
Definition terminate2 (s : LSODA) (y : list double) : LSODA * list double * double :=
  let y := for_up 1 (n s) (fun i y => vset y i (yh_ s).[1, i]) y in
  (set_illin 0 s, y, tn_ s).

(** [successreturn]: returns the object, [y], [*t] and [*istate]. *)
Definition successreturn (s : LSODA) (y : list double) (itask ihit : Z)
    (tcrit : double) : LSODA * list double * double * Z :=
  let y := for_up 1 (n s) (fun i y => vset y i (yh_ s).[1, i]) y in
  let t := tn_ s in
  let t := if (itask =? 4) || (itask =? 5)
           then if negb (ihit =? 0) then tcrit else t
           else t in
  (set_illin 0 s, y, t, 2).

(** ** Norms and weights *)

Definition ewset (s : LSODA) (ycur : list double) : LSODA :=
  let fill (ri ai : Z -> Z) :=
    for_up 1 (n s)
      (fun i ewt => vset ewt i ((rtol_ s).[ri i] * abs ycur.[i] + (atol_ s).[ai i])%float)
      (ewt s) in
  match itol_ s with
  | 1 => set_ewt (fill (fun _ => 1) (fun _ => 1)) s
  | 2 => set_ewt (fill (fun _ => 1) (fun i => i)) s
  | 3 => set_ewt (fill (fun i => i) (fun _ => 1)) s
  | 4 => set_ewt (fill (fun i => i) (fun i => i)) s
  | _ => s
  end.

(** [vmnorm = max (i = 1..n) fabs(v[i]) * w[i]] *)
Definition vmnorm (n : Z) (v w : list double) : double :=
  for_up 1 n (fun i vm => fmax vm (abs v.[i] * w.[i])) 0%float.

(** [fnorm]: the matrix norm consistent with [vmnorm]; [n] is an [int]
    in the source and is cast back to [size_t] in the loop bounds. *)
Definition fnorm (n : Z) (a : list (list double)) (w : list double) : double :=
  for_up 1 (to_size_t n)
    (fun i an =>
       let sum :=
         for_up 1 (to_size_t n) (fun j sum => (sum + abs a.[i, j] / w.[j])%float) 0%float in
       fmax an (sum * w.[i]))
    0%float.

(** ** The integrator

    [pow] is libm's [pow]; [f t ys] is the user's right-hand side, called
    as [( *f)(t, &y[1], &out[1], _data)]: it receives the entries of [y]
    from index 1 on and returns the derivatives it stores from [out[1]]
    on. *)

Section Integrator.
Variable pow : double -> double -> double.
Variable f : double -> list double -> list double.

(** Store [src] over the first elements of [dst]. *)
Fixpoint overwrite (src dst : list double) : list double :=
  match src, dst with
  | x :: src', _ :: dst' => x :: overwrite src' dst'
  | _, _ => dst
  end.

(** [( *f)(t, &y[1], &out[1], _data)]: returns the new [out]. *)
Definition call_f (t : double) (y out : list double) : list double :=
  firstn 1 out ++ overwrite (f t (skipn 1 y)) (skipn 1 out).

(** *** Dense output *)

(** [intdy]: returns the object, [dky] and [*iflag]. *)
Definition intdy (s : LSODA) (t : double) (k : Z) (dky : list double)
  : LSODA * list double * Z :=
  if (k <? 0) || (k >? to_int (nq s)) then (print intdy_illegal_k s, dky, -1)
  else
    let tfuzz := (100 * ETA * sign (abs (tn_ s) + abs (hu s)) (hu s))%float in
    let tp := (tn_ s - hu s - tfuzz)%float in
    let tn1 := (tn_ s + tfuzz)%float in
    if fgt ((t - tp) * (t - tn1)) 0 then (print intdy_illegal_t s, dky, -2)
    else
      let sv := ((t - tn_ s) / h_ s)%float in
      let ic := for_up (to_size_t (l s - k)) (nq s) (fun jj ic => to_int (ic * jj)) 1 in
      let c := double_of_Z ic in
      let dky := for_up 1 (n s) (fun i dky => vset dky i (c * (yh_ s).[l s, i])%float) dky in
      let dky :=
        for_down (to_int (nq s - 1)) k
          (fun j dky =>
             let jp1 := j + 1 in
             let ic := for_up (jp1 - k) j (fun jj ic => to_int (ic * jj)) 1 in
             let c := double_of_Z ic in
             for_up 1 (n s)
               (fun i dky => vset dky i (c * (yh_ s).[jp1, i] + sv * dky.[i])%float) dky)
          dky in
      if k =? 0 then (s, dky, 0)
      else
        let r := pow (h_ s) (double_of_Z (- k)) in
        (s, for_up 1 (n s) (fun i dky => vset dky i (dky.[i] * r)%float) dky, 0).

(** *** Coefficient tables *)

(** [cfode]: the coefficients of all orders of the method [meth]. *)
Definition cfode (s : LSODA) (meth : Z) : LSODA :=
  let pc := repeat 0%float 13 in
  if meth =? 1 then
    let elco := mset (elco s) 1 1 1%float in
    let elco := mset elco 1 2 1%float in
    let tesco := mset (tesco s) 1 1 0%float in
    let tesco := mset tesco 1 2 2%float in
    let tesco := mset tesco 2 1 1%float in
    let tesco := mset tesco 12 3 0%float in
    let pc := vset pc 1 1%float in
    let rqfac := 1%float in
    let '(elco, tesco, _, _) :=
      for_up 2 12
        (fun nq '(elco, tesco, pc, rqfac) =>
           let rq1fac := rqfac in
           let rqfac := (rqfac / double_of_Z nq)%float in
           let nqm1 := nq - 1 in
           let fnqm1 := double_of_Z nqm1 in
           let nqp1 := nq + 1 in
           let pc := vset pc nq 0%float in
           let pc :=
             for_down nq 2 (fun i pc => vset pc i (pc.[i - 1] + fnqm1 * pc.[i])%float) pc in
           let pc := vset pc 1 (fnqm1 * pc.[1])%float in
           let '(_, pint, xpin) :=
             for_up 2 nq
               (fun i '(tsign, pint, xpin) =>
                  let tsign := (- tsign)%float in
                  (tsign,
                   (pint + tsign * pc.[i] / double_of_Z i)%float,
                   (xpin + tsign * pc.[i] / double_of_Z (i + 1))%float))
               (1%float, pc.[1], (pc.[1] / 2)%float) in
           let elco := mset elco nq 1 (pint * rq1fac)%float in
           let elco := mset elco nq 2 1%float in
           let elco :=
             for_up 2 nq
               (fun i elco => mset elco nq (i + 1) (rq1fac * pc.[i] / double_of_Z i)%float)
               elco in
           let agamq := (rqfac * xpin)%float in
           let ragq := (1 / agamq)%float in
           let tesco := mset tesco nq 2 ragq in
           let tesco :=
             if nq <? 12 then mset tesco nqp1 1 (ragq * rqfac / double_of_Z nqp1)%float
             else tesco in
           let tesco := mset tesco nqm1 3 ragq in
           (elco, tesco, pc, rqfac))
        (elco, tesco, pc, rqfac) in
    set_tesco tesco (set_elco elco s)
  else
    let pc := vset pc 1 1%float in
    let '(elco, tesco, _, _) :=
      for_up 1 5
        (fun nq '(elco, tesco, pc, rq1fac) =>
           let fnq := double_of_Z nq in
           let nqp1 := nq + 1 in
           let pc := vset pc nqp1 0%float in
           let pc :=
             for_down (nq + 1) 2 (fun i pc => vset pc i (pc.[i - 1] + fnq * pc.[i])%float) pc in
           let pc := vset pc 1 (pc.[1] * fnq)%float in
           let elco := for_up 1 nqp1 (fun i elco => mset elco nq i (pc.[i] / pc.[2])%float) elco in
           let elco := mset elco nq 2 1%float in
           let tesco := mset tesco nq 1 rq1fac in
           let tesco := mset tesco nq 2 (double_of_Z nqp1 / elco.[nq, 1])%float in
           let tesco := mset tesco nq 3 (double_of_Z (nq + 2) / elco.[nq, 1])%float in
           (elco, tesco, pc, (rq1fac / fnq)%float))
        (elco s, tesco s, pc, 1%float) in
    set_tesco tesco (set_elco elco s).

(** [resetcoeff]: "The el vector and related constants are reset whenever
    the order nq is changed, or at the start of the problem." *)
Definition resetcoeff (s : LSODA) : LSODA :=
  let ep1 := vget [] (elco s) (nq s) in
  let s := set_el (for_up 1 (l s) (fun i el => vset el i ep1.[i]) (el s)) s in
  let s := set_rc (rc s * (el s).[1] / el0 s)%float s in
  let s := set_el0 (el s).[1] s in
  set_conit (0.5 / double_of_Z (to_size_t (nq s + 2)))%float s.

(** [scaleh]: rescale the history for the step ratio [*rh].  Returns the
    object, [*rh] and [*pdh]. *)
Definition scaleh (s : LSODA) (rh pdh : double) : LSODA * double * double :=
  let rh := fmin rh (rmax s) in
  let rh := (rh / fmax 1 (abs (h_ s) * hmxi s * rh))%float in
  let '(s, rh, pdh) :=
    if meth_ s =? 1 then
      let s := set_irflag 0 s in
      let pdh := fmax (abs (h_ s) * pdlast s) 0.000001 in
      if fge (rh * pdh * 1.00001) sm1.[nq s]
      then (set_irflag 1 s, (sm1.[nq s] / pdh)%float, pdh)
      else (s, rh, pdh)
    else (s, rh, pdh) in
  let '(yh, _) :=
    for_up 2 (l s)
      (fun j '(yh, r) =>
         let r := (r * rh)%float in
         (for_up 1 (n s) (fun i yh => mset yh j i (yh.[j, i] * r)%float) yh, r))
      (yh_ s, 1%float) in
  let s := set_yh_ yh s in
  let s := set_h_ (h_ s * rh)%float s in
  let s := set_rc (rc s * rh)%float s in
  (set_ialth (l s) s, rh, pdh).

(** [endstoda]: the common exit of a completed step. *)
Definition endstoda (s : LSODA) : LSODA :=
  let r := (1 / (tesco s).[nqu s, 2])%float in
  let s :=
    set_acor (for_up 1 (n s) (fun i acor => vset acor i (acor.[i] * r)%float) (acor s)) s in
  let s := set_hold (h_ s) s in
  set_jstart 1 s.

(** *** Jacobian and linear solves *)

(** [prja]: the finite-difference Jacobian, [P = I - h_ * el[1] * J], and
    its LU factors.  Returns the object and [y]. *)
Definition prja (s : LSODA) (y : list double) : LSODA * list double :=
  let s := set_nje (to_size_t (nje s + 1)) s in
  let s := set_ierpj 0 s in
  let s := set_jcur 1 s in
  let hl0 := (h_ s * el0 s)%float in
  if negb (miter s =? 2) then (print prja_miter s, y)
  else
    let fac := vmnorm (n s) (savf s) (ewt s) in
    let r0 := (1000 * abs (h_ s) * ETA * double_of_Z (n s) * fac)%float in
    let r0 := if (r0 =? 0)%float then 1%float else r0 in
    let '(s, y) :=
      for_up 1 (n s)
        (fun j '(s, y) =>
           let yj := y.[j] in
           let r := fmax (sqrteta s * abs yj) (r0 / (ewt s).[j]) in
           let y := vset y j (y.[j] + r)%float in
           let fac := (- hl0 / r)%float in
           let s := set_acor (call_f (tn_ s) y (acor s)) s in
           let s :=
             set_wm_
               (for_up 1 (n s)
                  (fun i wm => mset wm i j (((acor s).[i] - (savf s).[i]) * fac)%float)
                  (wm_ s)) s in
           (s, vset y j yj))
        (s, y) in
    let s := set_nfe (to_size_t (nfe s + n s)) s in
    let s := set_pdnorm (fnorm (to_int (n s)) (wm_ s) (ewt s) / abs hl0)%float s in
    let s :=
      set_wm_ (for_up 1 (n s) (fun i wm => mset wm i i (wm.[i, i] + 1)%float) (wm_ s)) s in
    let '(a, pv, ier) := dgefa (wm_ s) (n s) (ipvt s) in
    let s := set_ipvt pv (set_wm_ a s) in
    let s := if negb (ier =? 0) then set_ierpj 1 s else s in
    (s, y).

(** [solsy]: solve the chord-iteration system in place. *)
Definition solsy (s : LSODA) (y : list double) : LSODA * list double :=
  let s := set_iersl 0 s in
  if negb (miter s =? 2) then (print solsy_miter s, y)
  else (s, dgesl (wm_ s) (n s) (ipvt s) y 0).

(** *** The corrector *)

(** [corfailure]: retract the prediction after a corrector failure.
    Returns the object, [*rh], [*ncf] and [*corflag]. *)
Definition corfailure (s : LSODA) (told rh : double) (ncf : Z)
  : LSODA * double * Z * Z :=
  let ncf := to_size_t (ncf + 1) in
  let s := set_rmax 2%float s in
  let s := set_tn_ told s in
  let s := set_yh_ (retract 0%float PrimFloat.sub (nq s) (n s) (yh_ s)) s in
  if (abs (h_ s) <=? hmin s * 1.00001)%float || (ncf =? mxncf s) then (s, rh, ncf, 2)
  else (set_ipup (miter s) s, 0.25%float, ncf, 1).

(** The variables of [correction] that live across iterations of its
    [while (1)]: the object, [y], [*m], [*del], [*delp] and [rate]. *)
Record corr_state : Type := mkCorr {
  c_obj : LSODA;
  c_y : list double;
  c_m : Z;
  c_del : double;
  c_delp : double;
  c_rate : double
}.

(** What [correction] leaves to [stoda]. *)
Record corr_result : Type := mkCorrResult {
  r_obj : LSODA;
  r_y : list double;
  r_corflag : Z;
  r_del : double;
  r_delp : double;
  r_ncf : Z;
  r_rh : double;
  r_m : Z
}.

(** The ways one pass through the loop body ends: [break] (converged),
    [return] after [corfailure], the restart with a fresh Jacobian, or
    the plain next iteration. *)
Inductive corr_step : Type :=
| Converged (r : corr_result)
| Failed (r : corr_result)
| Restart (c : corr_state)
| Iterate (c : corr_state).

(** The divergence test made after [( *m)++]. *)
Definition diverged (s : LSODA) (m : Z) (del delp : double) : bool :=
  (m =? maxcor s) || ((m >=? 2) && fgt del (2 * delp)).

Definition after_corfailure (s : LSODA) (y : list double) (told rh : double)
    (ncf m : Z) (del delp : double) : corr_result :=
  let '(s, rh, ncf, corflag) := corfailure s told rh ncf in
  mkCorrResult s y corflag del delp ncf rh m.

(** The iterate itself: functional iteration or chord method.  Returns
    the object, [y] and [*del]. *)
Definition corrector_update (s : LSODA) (y : list double) : LSODA * list double * double :=
  if miter s =? 0 then
    let '(savf', y) :=
      for_up 1 (n s)
        (fun i '(savf, y) =>
           let savf := vset savf i (h_ s * savf.[i] - (yh_ s).[2, i])%float in
           (savf, vset y i (savf.[i] - (acor s).[i])%float))
        (savf s, y) in
    let s := set_savf savf' s in
    let del := vmnorm (n s) y (ewt s) in
    let '(y, acor') :=
      for_up 1 (n s)
        (fun i '(y, acor) =>
           (vset y i ((yh_ s).[1, i] + (el s).[1] * (savf s).[i])%float,
            vset acor i (savf s).[i]))
        (y, acor s) in
    (set_acor acor' s, y, del)
  else
    let y :=
      for_up 1 (n s)
        (fun i y => vset y i (h_ s * (savf s).[i] - ((yh_ s).[2, i] + (acor s).[i]))%float)
        y in
    let '(s, y) := solsy s y in
    let del := vmnorm (n s) y (ewt s) in
    let '(acor', y) :=
      for_up 1 (n s)
        (fun i '(acor, y) =>
           let acor := vset acor i (acor.[i] + y.[i])%float in
           (acor, vset y i ((yh_ s).[1, i] + (el s).[1] * acor.[i])%float))
        (acor s, y) in
    (set_acor acor' s, y, del).

(** One pass through the body of the [while (1)] of [correction]. *)
Definition correction_body (pnorm told rh : double) (ncf : Z) (c : corr_state)
  : corr_step :=
  let s := c_obj c in
  let y := c_y c in
  let m := c_m c in
  let refreshed :=
    if (m =? 0) && (ipup s >? 0) then
      let '(s, y) := prja s y in
      let s := set_ipup 0 s in
      let s := set_rc 1%float s in
      let s := set_nslp (nst s) s in
      let s := set_crate 0.7%float s in
      (s, y, negb (ierpj s =? 0))
    else (s, y, false) in
  let '(s, y, singular) := refreshed in
  if singular then Failed (after_corfailure s y told rh ncf m (c_del c) (c_delp c))
  else
    let s :=
      if m =? 0
      then set_acor (for_up 1 (n s) (fun i acor => vset acor i 0%float) (acor s)) s
      else s in
    let '(s, y, del) := corrector_update s y in
    if (del <=? 100 * pnorm * ETA)%float
    then Converged (mkCorrResult s y 0 del (c_delp c) ncf rh m)
    else
      let rate_test :=
        if negb (m =? 0) || negb (meth_ s =? 1) then
          let '(s, rate) :=
            if negb (m =? 0) then
              let rm := if (del <=? 1024 * c_delp c)%float
                        then (del / c_delp c)%float else 1024%float in
              (set_crate (fmax (0.2 * crate s) rm) s, fmax (c_rate c) rm)
            else (s, c_rate c) in
          let dcon :=
            (del * fmin 1 (1.5 * crate s) / ((tesco s).[nq s, 2] * conit s))%float in
          (s, rate, (dcon <=? 1)%float)
        else (s, c_rate c, false) in
      let '(s, rate, accepted) := rate_test in
      if accepted then
        let s := set_pdest (fmax (pdest s) (rate / abs (h_ s * (el s).[1]))) s in
        let s := if fne (pdest s) 0 then set_pdlast (pdest s) s else s in
        Converged (mkCorrResult s y 0 del (c_delp c) ncf rh m)
      else
        let m := to_size_t (m + 1) in
        if diverged s m del (c_delp c) then
          if (miter s =? 0) || (jcur s =? 1)
          then Failed (after_corfailure s y told rh ncf m del (c_delp c))
          else
            let s := set_ipup (miter s) s in
            let y := for_up 1 (n s) (fun i y => vset y i (yh_ s).[1, i]) y in
            let s := set_savf (call_f (tn_ s) y (savf s)) s in
            let s := set_nfe (to_size_t (nfe s + 1)) s in
            Restart (mkCorr s y 0 0%float (c_delp c) 0%float)
        else
          let s := set_savf (call_f (tn_ s) y (savf s)) s in
          let s := set_nfe (to_size_t (nfe s + 1)) s in
          Iterate (mkCorr s y m del del rate).

(** The loop of [correction]; [None] when [fuel] passes are not enough. *)
Fixpoint correction_loop (fuel : nat) (pnorm told rh : double) (ncf : Z)
    (c : corr_state) : option corr_result :=
  match fuel with
  | O => None
  | S fuel' =>
      match correction_body pnorm told rh ncf c with
      | Converged r | Failed r => Some r
      | Restart c' | Iterate c' => correction_loop fuel' pnorm told rh ncf c'
      end
  end.

(** [correction]: "Up to maxcor corrector iterations are taken."
    [*corflag] is 0 when the corrector converged, 1 when the step size
    is to be reduced and the prediction redone, 2 when it cannot
    converge. *)
Definition correction_entry (s : LSODA) (y : list double) (delp : double) : corr_state :=
  let y := for_up 1 (n s) (fun i y => vset y i (yh_ s).[1, i]) y in
  let s := set_savf (call_f (tn_ s) y (savf s)) s in
  let s := set_nfe (to_size_t (nfe s + 1)) s in
  mkCorr s y 0 0%float delp 0%float.

Definition correction (fuel : nat) (s : LSODA) (y : list double)
    (pnorm delp told : double) (ncf : Z) (rh : double) : option corr_result :=
  correction_loop fuel pnorm told rh ncf (correction_entry s y delp).

(** *** Method and order selection *)

(** [1. / (c * pow(d, ex) + c / 1e6)], the step ratio estimate used by
    every selection below with [c] one of 1.2, 1.3 and 1.4. *)
Definition ratio_estimate (c c' d ex : double) : double :=
  (1 / (c * pow d ex + c'))%float.
Arguments ratio_estimate (c c' d ex)%_float_scope.

(** [methodswitch]: consider switching between the Adams and the BDF
    family.  Returns the object, [*pdh] and [*rh]. *)
Definition methodswitch (s : LSODA) (dsm pnorm pdh rh : double)
  : LSODA * double * double :=
  if meth_ s =? 1 then
    if nq s >? 5 then (s, pdh, rh)
    else
      (* [Some (rh2, nqm2)] when the switch test passed *)
      let '(pdh, test) :=
        if (dsm <=? 100 * pnorm * ETA)%float || (pdest s =? 0)%float then
          if irflag s =? 0 then (pdh, None)
          else (pdh, Some (2%float, to_int (Z.min (nq s) (mxords s))))
        else
          let exsm := (1 / double_of_Z (l s))%float in
          let rh1 := ratio_estimate 1.2 0.0000012 dsm exsm in
          let rh1it := (2 * rh1)%float in
          let pdh := (pdlast s * abs (h_ s))%float in
          let rh1it := if fgt (pdh * rh1) 0.00001 then (sm1.[nq s] / pdh)%float else rh1it in
          let rh1 := fmin rh1 rh1it in
          let '(rh2, nqm2) :=
            if nq s >? mxords s then
              let nqm2 := to_int (mxords s) in
              let lm2 := to_int (to_size_t (mxords s + 1)) in
              let exm2 := (1 / double_of_Z lm2)%float in
              let lm2p1 := to_int (lm2 + 1) in
              let dm2 :=
                (vmnorm (n s) (vget [] (yh_ s) (to_size_t lm2p1)) (ewt s)
                 / (cm2 s).[mxords s])%float in
              (ratio_estimate 1.2 0.0000012 dm2 exm2, nqm2)
            else
              let dm2 := (dsm * ((cm1 s).[nq s] / (cm2 s).[nq s]))%float in
              (ratio_estimate 1.2 0.0000012 dm2 exsm, to_int (nq s)) in
          if (rh2 <? ratio s * rh1)%float then (pdh, None) else (pdh, Some (rh2, nqm2)) in
      match test with
      | None => (s, pdh, rh)
      | Some (rh2, nqm2) =>
          let s := set_icount 20 s in
          let s := set_meth_ 2 s in
          let s := set_miter (jtyp s) s in
          let s := set_pdlast 0%float s in
          let s := set_nq (to_size_t nqm2) s in
          let s := set_l (to_size_t (nq s + 1)) s in
          (s, pdh, rh2)
      end
  else
    let exsm := (1 / double_of_Z (l s))%float in
    let '(dm1, rh1, nqm1, exm1) :=
      if mxordn s <? nq s then
        let nqm1 := to_int (mxordn s) in
        let lm1 := to_int (to_size_t (mxordn s + 1)) in
        let exm1 := (1 / double_of_Z lm1)%float in
        let lm1p1 := to_int (lm1 + 1) in
        let dm1 :=
          (vmnorm (n s) (vget [] (yh_ s) (to_size_t lm1p1)) (ewt s)
           / (cm1 s).[mxordn s])%float in
        (dm1, ratio_estimate 1.2 0.0000012 dm1 exm1, nqm1, exm1)
      else
        let dm1 := (dsm * ((cm2 s).[nq s] / (cm1 s).[nq s]))%float in
        (dm1, ratio_estimate 1.2 0.0000012 dm1 exsm, to_int (nq s), exsm) in
    let rh1it := (2 * rh1)%float in
    let pdh := (pdnorm s * abs (h_ s))%float in
    let rh1it :=
      if fgt (pdh * rh1) 0.00001 then (sm1.[to_size_t nqm1] / pdh)%float else rh1it in
    let rh1 := fmin rh1 rh1it in
    let rh2 := ratio_estimate 1.2 0.0000012 dsm exsm in
    if (rh1 * ratio s <? 5 * rh2)%float then (s, pdh, rh)
    else
      let alpha := fmax 0.001 rh1 in
      let dm1 := (dm1 * pow alpha exm1)%float in
      if (dm1 <=? 1000 * ETA * pnorm)%float then (s, pdh, rh)
      else
        let s := set_icount 20 s in
        let s := set_meth_ 1 s in
        let s := set_miter 0 s in
        let s := set_pdlast 0%float s in
        let s := set_nq (to_size_t nqm1) s in
        let s := set_l (to_size_t (nq s + 1)) s in
        (s, pdh, rh1).

(** [orderswitch]: choose among the orders [nq - 1], [nq] and [nq + 1].
    Returns the object, [*rhup], [*pdh], [*rh] and [*orderflag]
    (0: no change in [h_] or [nq]; 1: change in [h_] only; 2: change in
    both). *)
Definition orderswitch (s : LSODA) (rhup dsm pdh rh : double)
  : LSODA * double * double * double * Z :=
  let exsm := (1 / double_of_Z (l s))%float in
  let rhsm := ratio_estimate 1.2 0.0000012 dsm exsm in
  let rhdn :=
    if negb (nq s =? 1) then
      let ddn := (vmnorm (n s) (vget [] (yh_ s) (l s)) (ewt s) / (tesco s).[nq s, 1])%float in
      let exdn := (1 / double_of_Z (nq s))%float in
      ratio_estimate 1.3 0.0000013 ddn exdn
    else 0%float in
  let '(s, pdh, rhup, rhsm, rhdn) :=
    if meth_ s =? 1 then
      let pdh := fmax (abs (h_ s) * pdlast s) 0.000001 in
      let rhup := if l s <? lmax s then fmin rhup (sm1.[l s] / pdh) else rhup in
      let rhsm := fmin rhsm (sm1.[nq s] / pdh) in
      let rhdn := if nq s >? 1 then fmin rhdn (sm1.[to_size_t (nq s - 1)] / pdh) else rhdn in
      (set_pdest 0%float s, pdh, rhup, rhsm, rhdn)
    else (s, pdh, rhup, rhsm, rhdn) in
  let lower :=
    let rh := rhdn in
    (to_size_t (nq s - 1), if (kflag s <? 0) && fgt rh 1 then 1%float else rh) in
  (* [Some (newq, rh)] when control reaches the 10 percent test *)
  let choice :=
    if fge rhsm rhup then
      if fge rhsm rhdn then Some (nq s, rhsm) else Some lower
    else
      if (rhup <=? rhdn)%float then Some lower else None in
  match choice with
  | None =>
      let rh := rhup in
      if fge rh 1.1 then
        let r := ((el s).[l s] / double_of_Z (l s))%float in
        let s := set_nq (l s) s in
        let s := set_l (to_size_t (nq s + 1)) s in
        let s :=
          set_yh_ (for_up 1 (n s) (fun i yh => mset yh (l s) i ((acor s).[i] * r)%float) (yh_ s))
            s in
        (s, rhup, pdh, rh, 2)
      else (set_ialth 3 s, rhup, pdh, rh, 0)
  | Some (newq, rh) =>
      let small := (kflag s =? 0) && (rh <? 1.1)%float in
      let bypass :=
        if 1 =? meth_ s
        then (rh * pdh * 1.00001 <? sm1.[newq])%float && small
        else small in
      if bypass then (set_ialth 3 s, rhup, pdh, rh, 0)
      else
        let rh := if kflag s <=? -2 then fmin rh 0.2 else rh in
        if newq =? nq s then (s, rhup, pdh, rh, 1)
        else
          let s := set_nq newq s in
          let s := set_l (to_size_t (nq s + 1)) s in
          (s, rhup, pdh, rh, 2)
  end.

(** *** The one-step driver *)

(** A call that ends normally, is cut by [Rcpp::stop], or needs more
    passes through a [while (1)] than the fuel allows. *)
Inductive outcome (A : Type) : Type :=
| Done (a : A)
| Stopped (s : LSODA)
| OutOfFuel.
Arguments Done {A} a.
Arguments Stopped {A} s.
Arguments OutOfFuel {A}.

(** The locals of [stoda] that live across its loops: the object, [y],
    [ncf], [delp], [rh] and [pdh]. *)
Record stoda_vars : Type := mkStoda {
  st_obj : LSODA;
  st_y : list double;
  st_ncf : Z;
  st_delp : double;
  st_rh : double;
  st_pdh : double
}.

(** The blocks of [stoda] executed when [jstart] is 0, -1 and -2.  Each
    returns the object, [rh] and [pdh]. *)
Definition stoda_first_call (s : LSODA) : LSODA :=
  let s := set_lmax (to_size_t (maxord s + 1)) s in
  let s := set_nq 1 s in
  let s := set_l 2 s in
  let s := set_ialth 2 s in
  let s := set_rmax 10000%float s in
  let s := set_rc 0%float s in
  let s := set_el0 1%float s in
  let s := set_crate 0.7%float s in
  let s := set_hold (h_ s) s in
  let s := set_nslp 0 s in
  let s := set_ipup (miter s) s in
  let s := set_iret 3 s in
  let s := set_icount 20 s in
  let s := set_irflag 0 s in
  let s := set_pdest 0%float s in
  let s := set_pdlast 0%float s in
  let s := set_ratio 5%float s in
  let s := cfode s 2 in
  let s :=
    set_cm2
      (for_up 1 5
         (fun i cm2 => vset cm2 i ((tesco s).[i, 2] * (elco s).[i, i + 1])%float) (cm2 s))
      s in
  let s := cfode s 1 in
  let s :=
    set_cm1
      (for_up 1 12
         (fun i cm1 => vset cm1 i ((tesco s).[i, 2] * (elco s).[i, i + 1])%float) (cm1 s))
      s in
  resetcoeff s.

Definition stoda_new_h (s : LSODA) (rh pdh : double) : LSODA * double * double :=
  if fne (h_ s) (hold s) then
    let rh := (h_ s / hold s)%float in
    let s := set_h_ (hold s) s in
    scaleh s rh pdh
  else (s, rh, pdh).

Definition stoda_new_parameters (s : LSODA) (rh pdh : double)
  : LSODA * double * double :=
  let s := set_ipup (miter s) s in
  let s := set_lmax (to_size_t (maxord s + 1)) s in
  let s := if ialth s =? 1 then set_ialth 2 s else s in
  let s :=
    if negb (meth_ s =? mused s) then
      let s := cfode s (to_int (meth_ s)) in
      let s := set_ialth (l s) s in
      let s := set_iret 1 s in
      resetcoeff s
    else s in
  stoda_new_h s rh pdh.

Definition stoda_setup (s : LSODA) (rh pdh : double) : LSODA * double * double :=
  let s := if jstart s =? 0 then stoda_first_call s else s in
  let '(s, rh, pdh) :=
    if jstart s =? -1 then stoda_new_parameters s rh pdh else (s, rh, pdh) in
  if jstart s =? -2 then stoda_new_h s rh pdh else (s, rh, pdh).

(** [rh = std::max(rh, hmin / std::abs(h_)); scaleh(&rh, &pdh);] *)
Definition rescale (s : LSODA) (rh pdh : double) : LSODA * double * double :=
  scaleh s (fmax rh (hmin s / abs (h_ s))) pdh.

(** How a pass through the loops of [stoda] ends: the step is over
    ([break] out of the outer loop, or [return]), or the prediction is
    redone ([continue]). *)
Inductive stoda_step : Type :=
| StepOver (s : LSODA) (y : list double)
| StepAgain (v : stoda_vars).

(** The branch [dsm <= 1.]: "After a successful step, update the yh_
    array", then consider a method switch and a change of [h_] or [nq]. *)
Definition stoda_accept (s : LSODA) (y : list double) (dsm pnorm pdh rh : double)
  : LSODA * list double :=
  let s := set_kflag 0 s in
  let s := set_nst (to_size_t (nst s + 1)) s in
  let s := set_hu (h_ s) s in
  let s := set_nqu (nq s) s in
  let s := set_mused (meth_ s) s in
  let s :=
    set_yh_
      (for_up 1 (l s)
         (fun j yh =>
            let r := (el s).[j] in
            for_up 1 (n s) (fun i yh => mset yh j i (yh.[j, i] + r * (acor s).[i])%float) yh)
         (yh_ s)) s in
  let s := set_icount (to_int (icount s - 1)) s in
  let expired := icount s <? 0 in
  let '(s, pdh, rh) := if expired then methodswitch s dsm pnorm pdh rh else (s, pdh, rh) in
  if expired && negb (meth_ s =? mused s) then
    let '(s, rh, pdh) := rescale s rh pdh in
    let s := set_rmax 10%float s in
    (endstoda s, y)
  else
    let s := set_ialth (to_size_t (ialth s - 1)) s in
    (* the code after the block [if (ialth == 0)] *)
    let no_change (s : LSODA) :=
      if (ialth s >? 1) || (l s =? lmax s) then (endstoda s, y)
      else
        let s :=
          set_yh_ (for_up 1 (n s) (fun i yh => mset yh (lmax s) i (acor s).[i]) (yh_ s)) s in
        (endstoda s, y) in
    if ialth s =? 0 then
      let '(s, rhup) :=
        if negb (l s =? lmax s) then
          let s :=
            set_savf
              (for_up 1 (n s)
                 (fun i savf => vset savf i ((acor s).[i] - (yh_ s).[lmax s, i])%float)
                 (savf s)) s in
          let dup := (vmnorm (n s) (savf s) (ewt s) / (tesco s).[nq s, 3])%float in
          let exup := (1 / double_of_Z (to_size_t (l s + 1)))%float in
          (s, ratio_estimate 1.4 0.0000014 dup exup)
        else (s, 0%float) in
      let '(s, rhup, pdh, rh, orderflag) := orderswitch s rhup dsm pdh rh in
      if orderflag =? 0 then (endstoda s, y)
      else if orderflag =? 1 then
        let '(s, rh, pdh) := rescale s rh pdh in
        let s := set_rmax 10%float s in
        (endstoda s, y)
      else if orderflag =? 2 then
        let s := resetcoeff s in
        let '(s, rh, pdh) := rescale s rh pdh in
        let s := set_rmax 10%float s in
        (endstoda s, y)
      else no_change s
    else no_change s.

(** The branch [dsm > 1.]: "The error test failed ... Restore tn_ and
    the yh_ array to their previous values, and prepare to try the step
    again."  [stoda_restore] is the restoring part. *)
Definition stoda_restore (s : LSODA) (told : double) : LSODA :=
  let s := set_kflag (to_int (kflag s - 1)) s in
  let s := set_tn_ told s in
  let s := set_yh_ (retract 0%float PrimFloat.sub (nq s) (n s) (yh_ s)) s in
  set_rmax 2%float s.

(** What follows the restoring: give up, change the order or the step
    size, or after three failures restart at order one. *)
Definition stoda_retry (s : LSODA) (y : list double) (dsm pdh rh : double)
    (ncf : Z) (delp : double) : stoda_step :=
  if (abs (h_ s) <=? hmin s * 1.00001)%float then
    StepOver (set_jstart 1 (set_hold (h_ s) (set_kflag (-1) s))) y
  else if kflag s >? -3 then
    let '(s, rhup, pdh, rh, orderflag) := orderswitch s 0%float dsm pdh rh in
    let '(s, rh, pdh) :=
      if (orderflag =? 1) || (orderflag =? 0) then
        let rh := if orderflag =? 0 then fmin rh 0.2 else rh in
        rescale s rh pdh
      else (s, rh, pdh) in
    let '(s, rh, pdh) :=
      if orderflag =? 2 then rescale (resetcoeff s) rh pdh else (s, rh, pdh) in
    StepAgain (mkStoda s y ncf delp rh pdh)
  else if kflag s =? -10 then
    StepOver (set_jstart 1 (set_hold (h_ s) (set_kflag (-1) s))) y
  else
    let rh := fmax (hmin s / abs (h_ s)) 0.1 in
    let s := set_h_ (h_ s * rh)%float s in
    let y := for_up 1 (n s) (fun i y => vset y i (yh_ s).[1, i]) y in
    let s := set_savf (call_f (tn_ s) y (savf s)) s in
    let s := set_nfe (to_size_t (nfe s + 1)) s in
    let s :=
      set_yh_ (for_up 1 (n s) (fun i yh => mset yh 2 i (h_ s * (savf s).[i])%float) (yh_ s))
        s in
    let s := set_ipup (miter s) s in
    let s := set_ialth 5 s in
    if nq s =? 1 then StepAgain (mkStoda s y ncf delp rh pdh)
    else
      let s := set_nq 1 s in
      let s := set_l 2 s in
      StepAgain (mkStoda (resetcoeff s) y ncf delp rh pdh).

Definition stoda_reject (s : LSODA) (y : list double) (told dsm pdh rh : double)
    (ncf : Z) (delp : double) : stoda_step :=
  stoda_retry (stoda_restore s told) y dsm pdh rh ncf delp.

(** The prediction: "computes the predicted values by effectively
    multiplying the yh_ array by the pascal triangle matrix". *)
Definition stoda_predict (s : LSODA) : LSODA :=
  let s := set_tn_ (tn_ s + h_ s)%float s in
  set_yh_ (predict 0%float PrimFloat.add (nq s) (n s) (yh_ s)) s.

(** One pass: prediction, correction and, if the corrector converged,
    the local error test.  [None] when [correction] runs out of fuel. *)
Definition stoda_body (fuel : nat) (told : double) (v : stoda_vars)
  : option stoda_step :=
  let s := st_obj v in
  let s := if fgt (abs (rc s - 1)) (ccmax s) then set_ipup (miter s) s else s in
  let s := if nst s >=? to_size_t (nslp s + msbp s) then set_ipup (miter s) s else s in
  let s := stoda_predict s in
  let pnorm := vmnorm (n s) (vget [] (yh_ s) 1) (ewt s) in
  match correction fuel s (st_y v) pnorm (st_delp v) told (st_ncf v) (st_rh v) with
  | None => None
  | Some r =>
      let s := r_obj r in
      if r_corflag r =? 0 then
        let s := set_jcur 0 s in
        let dsm :=
          if r_m r =? 0 then (r_del r / (tesco s).[nq s, 2])%float
          else (vmnorm (n s) (acor s) (ewt s) / (tesco s).[nq s, 2])%float in
        if (dsm <=? 1)%float then
          let '(s, y) := stoda_accept s (r_y r) dsm pnorm (st_pdh v) (r_rh r) in
          Some (StepOver s y)
        else Some (stoda_reject s (r_y r) told dsm (st_pdh v) (r_rh r) (r_ncf r) (r_delp r))
      else if r_corflag r =? 1 then
        let '(s, rh, pdh) := rescale s (r_rh r) (st_pdh v) in
        Some (StepAgain (mkStoda s (r_y r) (r_ncf r) (r_delp r) rh pdh))
      else if r_corflag r =? 2 then
        Some (StepOver (set_jstart 1 (set_hold (h_ s) (set_kflag (-2) s))) (r_y r))
      else Some (StepAgain (mkStoda s (r_y r) (r_ncf r) (r_delp r) (r_rh r) (st_pdh v)))
  end.

Fixpoint stoda_loop (fuel passes : nat) (told : double) (v : stoda_vars)
  : outcome (LSODA * list double) :=
  match passes with
  | O => OutOfFuel
  | S passes' =>
      match stoda_body fuel told v with
      | None => OutOfFuel
      | Some (StepOver s y) => Done (s, y)
      | Some (StepAgain v') => stoda_loop fuel passes' told v'
      end
  end.

(** [stoda]: "performs one step of the integration".  [kflag] is 0 after
    a successful step, -1 when the requested error could not be
    achieved, -2 when the corrector could not converge. *)
Definition stoda (fuel : nat) (s : LSODA) (neq : Z) (y : list double)
  : outcome (LSODA * list double) :=
  if negb (to_size_t (neq + 1) =? Z.of_nat (length y)) then Stopped s
  else
    let s := set_kflag 0 s in
    let told := tn_ s in
    let s := set_ierpj 0 s in
    let s := set_iersl 0 s in
    let s := set_jcur 0 s in
    let '(s, rh, pdh) := stoda_setup s 0%float 0%float in
    stoda_loop fuel fuel told (mkStoda s y 0 0%float rh pdh).

(** *** The outer driver *)

(** The [return] statements of [lsoda], by the call that precedes them
    and, for the error returns, the message printed just before. *)
Inductive return_site : Type :=
| via_terminate (m : message)
| via_terminate2 (m : message)
| via_successreturn
| via_intdy.

(** What a call of [lsoda] leaves: the [return] taken, the object, [y],
    [*t] and [*istate]. *)
Definition lsoda_result : Type :=
  outcome (return_site * LSODA * list double * double * Z).

(** Either the rest of [lsoda] goes on with [a], or [lsoda] has returned. *)
Inductive flow (A : Type) : Type :=
| Go (a : A)
| Return (r : lsoda_result).
Arguments Go {A} a.
Arguments Return {A} r.

Definition bind {A B : Type} (x : flow A) (k : A -> flow B) : flow B :=
  match x with
  | Go a => k a
  | Return r => Return r
  end.

Notation "'do' x <- c ; k" := (bind c (fun x => k))
  (at level 10, x pattern, c at level 100, k at level 200).

(** [Rcerr << ...; terminate(istate); return;] *)
Definition illegal_input {A : Type} (m : message) (s : LSODA) (y : list double)
    (t : double) (istate : Z) : flow A :=
  let '(s, istate) := terminate (print m s) istate in
  Return (Done (via_terminate m, s, y, t, istate)).

(** [Rcerr << ...; terminate2(y, t); return;] with [*istate] as given. *)
Definition error_return {A : Type} (m : message) (s : LSODA) (y : list double)
    (istate : Z) : flow A :=
  let '(s, y, t) := terminate2 (print m s) y in
  Return (Done (via_terminate2 m, s, y, t, istate)).

(** [intdy(tout, 0, y, &iflag); *t = tout; *istate = 2; illin = 0; return;] *)
Definition interpolated_return {A : Type} (s : LSODA) (y : list double)
    (tout : double) : flow A :=
  let '(s, y, _) := intdy s tout 0 y in
  Return (Done (via_intdy, set_illin 0 s, y, tout, 2)).

Definition success {A : Type} (s : LSODA) (y : list double) (itask ihit : Z)
    (tcrit : double) : flow A :=
  let '(s, y, t, istate) := successreturn s y itask ihit tcrit in
  Return (Done (via_successreturn, s, y, t, istate)).

(** Block a: legality of [*istate] and [itask]. *)
Definition block_a (s : LSODA) (y : list double) (t : double) (itask istate : Z)
  : flow LSODA :=
  if (istate <? 1) || (istate >? 3) then illegal_input illegal_istate s y t istate
  else if (itask <? 1) || (itask >? 5) then illegal_input illegal_itask s y t istate
  else if (init s =? 0) && ((istate =? 2) || (istate =? 3))
  then illegal_input not_initialized s y t istate
  else Go s.

(** Block b: the inputs [neq], [itol], [iopt], [jt], [ml], [mu] and the
    optional inputs.  Goes on with the object and [h0]. *)
Definition block_b (s : LSODA) (neq : Z) (y : list double) (t tout : double)
    (istate iopt jt : Z) (iworks : list Z) (rworks : list double)
  : flow (LSODA * double) :=
  let h0 := 0%float in
  if negb ((istate =? 1) || (istate =? 3)) then Go (s, h0)
  else
    let s := set_ntrep 0 s in
    if neq <=? 0 then illegal_input neq_less_than_1 s y t istate
    else if (istate =? 3) && (neq >? n s) then illegal_input neq_increased s y t istate
    else
      let s := set_n neq s in
      if (itol_ s <? 1) || (itol_ s >? 4) then illegal_input illegal_itol s y t istate
      else if (iopt <? 0) || (iopt >? 1) then illegal_input illegal_iopt s y t istate
      else if (jt =? 3) || (jt <? 1) || (jt >? 5) then illegal_input illegal_jt s y t istate
      else
        let s := set_jtyp (to_size_t jt) s in
        do s <-
          (if jt >? 2 then
             let s := set_ml (to_size_t (vget 0 iworks 0)) s in
             let s := set_mu (to_size_t (vget 0 iworks 1)) s in
             if ml s >=? n s then illegal_input illegal_ml s y t istate
             else if mu s >=? n s then illegal_input illegal_mu s y t istate
             else Go s
           else Go s);
        if iopt =? 0 then
          let s := set_ixpr 0 s in
          let s := set_mxstep 5000 s in
          let s := set_mxhnil 10 s in
          let s := set_hmxi 0%float s in
          let s := set_hmin 0%float s in
          if istate =? 1
          then Go (set_mxords (vget 0 mord 1) (set_mxordn (vget 0 mord 0) s), 0%float)
          else Go (s, h0)
        else
          let s := set_ixpr (to_size_t (vget 0 iworks 2)) s in
          if ixpr s >? 1 then illegal_input illegal_ixpr s y t istate
          else
            let s := set_mxstep (to_size_t (vget 0 iworks 3)) s in
            let s := if mxstep s =? 0 then set_mxstep 5000 s else s in
            let s := set_mxhnil (to_size_t (vget 0 iworks 4)) s in
            do (s, h0) <-
              (if istate =? 1 then
                 let h0 := rworks.[1] in
                 let s := set_mxordn (to_size_t (vget 0 iworks 5)) s in
                 let s := if mxordn s =? 0 then set_mxordn 100 s else s in
                 let s := set_mxordn (Z.min (mxordn s) (vget 0 mord 0)) s in
                 let s := set_mxords (to_size_t (vget 0 iworks 6)) s in
                 let s := if mxords s =? 0 then set_mxords 100 s else s in
                 let s := set_mxords (Z.min (mxords s) (vget 0 mord 1)) s in
                 if ((tout - t) * h0 <? 0)%float
                 then illegal_input tout_behind_t s y t istate
                 else Go (s, h0)
               else Go (s, h0));
            let hmax := rworks.[2] in
            if (hmax <? 0)%float then illegal_input hmax_negative s y t istate
            else
              let s := set_hmxi 0%float s in
              let s := if fgt hmax 0 then set_hmxi (1 / hmax)%float s else s in
              let s := set_hmin rworks.[3] s in
              if (hmin s <? 0)%float then illegal_input hmin_negative s y t istate
              else Go (s, h0).

(** "If *istate = 1, meth_ is initialized to 1.  Also allocate memory for
    yh_, wm_, ewt, savf, acor, ipvt."  Returns the object and [lenyh]. *)
Definition allocate (s : LSODA) : LSODA * Z :=
  let s := set_sqrteta (sqrt ETA) s in
  let s := set_meth_ 1 s in
  let s := set_nyh (n s) s in
  let lenyh := to_int (to_size_t (1 + Z.max (mxordn s) (mxords s))) in
  let row := repeat 0%float (Z.to_nat (to_size_t (nyh s + 1))) in
  let s := set_yh_ (resize (to_size_t (lenyh + 1)) row (yh_ s)) s in
  let s := set_wm_ (resize (to_size_t (nyh s + 1)) row (wm_ s)) s in
  let s := set_ewt (resize (to_size_t (1 + nyh s)) 0%float (ewt s)) s in
  let s := set_savf (resize (to_size_t (1 + nyh s)) 0%float (savf s)) s in
  let s := set_acor (resize (to_size_t (nyh s + 1)) 0%float (acor s)) s in
  let s := set_ipvt (resize (to_size_t (nyh s + 1)) 0 (ipvt s)) s in
  (s, lenyh).

(** "Check rtol and atol for legality": the first offending tolerance
    met by the loop over [i], if any. *)
Fixpoint check_tolerances (s : LSODA) (ix : list Z) (rtoli atoli : double)
  : option message :=
  match ix with
  | [] => None
  | i :: ix' =>
      let rtoli := if itol_ s >=? 3 then (rtol_ s).[i] else rtoli in
      let atoli := if (itol_ s =? 2) || (itol_ s =? 4) then (atol_ s).[i] else atoli in
      if (rtoli <? 0)%float then Some rtol_negative
      else if (atoli <? 0)%float then Some atol_negative
      else check_tolerances s ix' rtoli atoli
  end.

(** [for (i = 1; i <= n; i++) { if (ewt[i] <= 0.) ...return; ewt[i] = 1. / ewt[i]; }]:
    the weights inverted so far and the index that stopped the loop. *)
Fixpoint invert_ewt (ix : list Z) (ewt : list double) : list double * option Z :=
  match ix with
  | [] => (ewt, None)
  | i :: ix' =>
      if (ewt.[i] <=? 0)%float then (ewt, Some i)
      else invert_ewt ix' (vset ewt i (1 / ewt.[i])%float)
  end.

(** The initial step size when the caller gave none ([h0 == 0.]);
    [None] when [tout] is too close to [t] to start. *)
Definition initial_step (s : LSODA) (y : list double) (t tout : double)
  : option double :=
  let tdist := abs (tout - t) in
  let w0 := fmax (abs t) (abs tout) in
  if (tdist <? 2 * ETA * w0)%float then None
  else
    let tol := (rtol_ s).[1] in
    let tol :=
      if itol_ s >? 2
      then for_up 2 (n s) (fun i tol => fmax tol (rtol_ s).[i]) tol
      else tol in
    let tol :=
      if (tol <=? 0)%float then
        snd (for_up 1 (n s)
               (fun i '(atoli, tol) =>
                  let atoli :=
                    if (itol_ s =? 2) || (itol_ s =? 4) then (atol_ s).[i] else atoli in
                  let ayi := abs y.[i] in
                  (atoli, if fne ayi 0 then fmax tol (atoli / ayi) else tol))
               ((atol_ s).[1], tol))
      else tol in
    let tol := fmax tol (100 * ETA) in
    let tol := fmin tol 0.001 in
    let sum := vmnorm (n s) (vget [] (yh_ s) 2) (ewt s) in
    let sum := (1 / (tol * w0 * w0) + tol * sum * sum)%float in
    let h0 := (1 / sqrt sum)%float in
    let h0 := fmin h0 tdist in
    Some (sign h0 (tout - t)).

(** Block c: the remaining initializations of an initial call, the
    first call of [f] and the initial step size.  Goes on with the
    object and [tcrit]. *)
Definition block_c (s : LSODA) (y : list double) (t tout : double)
    (itask istate : Z) (rworks : list double) (h0 : double) (lenyh : Z)
  : flow (LSODA * double) :=
  let s := set_tn_ t s in
  let s := set_tsw t s in
  let s := set_maxord (mxordn s) s in
  do (tcrit, h0) <-
    (if (itask =? 4) || (itask =? 5) then
       let tcrit := rworks.[0] in
       if ((tcrit - tout) * (tout - t) <? 0)%float
       then illegal_input tcrit_behind_tout s y t istate
       else
         Go (tcrit,
             if fne h0 0 && fgt ((t + h0 - tcrit) * h0) 0 then (tcrit - t)%float else h0)
     else Go (0%float, h0));
  let s := set_jstart 0 s in
  let s := set_nhnil 0 s in
  let s := set_nst 0 s in
  let s := set_nje 0 s in
  let s := set_nslast 0 s in
  let s := set_hu 0%float s in
  let s := set_nqu 0 s in
  let s := set_mused 0 s in
  let s := set_miter 0 s in
  let s := set_ccmax 0.3%float s in
  let s := set_maxcor 3 s in
  let s := set_msbp 20 s in
  let s := set_mxncf 10 s in
  if negb (to_int (Z.of_nat (length (yh_ s))) =? to_int (lenyh + 1)) then Return (Stopped s)
  else if negb (Z.of_nat (length (vget [] (yh_ s) 0)) =? to_size_t (nyh s + 1))
  then Return (Stopped s)
  else
    let s := set_yh_ (vset (yh_ s) 2 (call_f t y (vget [] (yh_ s) 2))) s in
    let s := set_nfe 1 s in
    let s := set_yh_ (for_up 1 (n s) (fun i yh => mset yh 1 i y.[i]) (yh_ s)) s in
    let s := set_nq 1 s in
    let s := set_h_ 1%float s in
    let s := ewset s y in
    match invert_ewt (upto 1 (n s)) (ewt s) with
    | (ewt', Some i) => error_return (ewt_nonpositive i) (set_ewt ewt' s) y istate
    | (ewt', None) =>
        let s := set_ewt ewt' s in
        do h0 <-
          (if (h0 =? 0)%float then
             match initial_step s y t tout with
             | None => illegal_input tout_too_close s y t istate
             | Some h0 => Go h0
             end
           else Go h0);
        let rh := (abs h0 * hmxi s)%float in
        let h0 := if fgt rh 1 then (h0 / rh)%float else h0 in
        let s := set_h_ h0 s in
        let s :=
          set_yh_ (for_up 1 (n s) (fun i yh => mset yh 2 i (yh.[2, i] * h0)%float) (yh_ s)) s in
        Go (s, tcrit)
    end.

(** [intdy(tout, 0, y, &iflag); if (iflag != 0) {...terminate...} *t = tout; ...] *)
Definition checked_interpolation {A : Type} (s : LSODA) (y : list double)
    (t tout : double) (istate : Z) : flow A :=
  let '(s, y, iflag) := intdy s tout 0 y in
  if negb (iflag =? 0) then illegal_input trouble_from_intdy s y t istate
  else Return (Done (via_intdy, set_illin 0 s, y, tout, 2)).

(** [ihit = fabs(tn_ - tcrit) <= 100. * ETA * (fabs(tn_) + fabs(h_))] *)
Definition hit (s : LSODA) (tcrit : double) : Z :=
  let hmx := (abs (tn_ s) + abs (h_ s))%float in
  if (abs (tn_ s - tcrit) <=? 100 * ETA * hmx)%float then 1 else 0.

(** Block d: stop conditions of a continuation call, checked before a
    step is taken.  Goes on with the object, [ihit] and [tcrit]. *)
Definition block_d (s : LSODA) (y : list double) (t tout : double)
    (itask istate : Z) (rworks : list double)
  : flow (LSODA * Z * double) :=
  let s := set_nslast (nst s) s in
  match itask with
  | 1 =>
      if fge ((tn_ s - tout) * h_ s) 0 then checked_interpolation s y t tout istate
      else Go (s, 0, 0%float)
  | 3 =>
      let tp := (tn_ s - hu s * (1 + 100 * ETA))%float in
      if fgt ((tp - tout) * h_ s) 0 then illegal_input tout_behind_tcur_hu s y t istate
      else if ((tn_ s - tout) * h_ s <? 0)%float then Go (s, 0, 0%float)
      else success s y itask 0 0%float
  | 4 =>
      let tcrit := rworks.[0] in
      if fgt ((tn_ s - tcrit) * h_ s) 0 then illegal_input tcrit_behind_tcur s y t istate
      else if ((tcrit - tout) * h_ s <? 0)%float
      then illegal_input tcrit_behind_tout s y t istate
      else if fge ((tn_ s - tout) * h_ s) 0 then checked_interpolation s y t tout istate
      else Go (s, 0, tcrit)
  | 5 =>
      let tcrit := rworks.[0] in
      if fgt ((tn_ s - tcrit) * h_ s) 0 then illegal_input tcrit_behind_tcur s y t istate
      else
        let ihit := hit s tcrit in
        if negb (ihit =? 0) then success s y itask ihit tcrit
        else
          let tnext := (tn_ s + h_ s * (1 + 4 * ETA))%float in
          if ((tnext - tcrit) * h_ s <=? 0)%float then Go (s, ihit, tcrit)
          else
            let s := set_h_ ((tcrit - tn_ s) * (1 - 4 * ETA))%float s in
            let s := if istate =? 2 then set_jstart (-2) s else s in
            Go (s, ihit, tcrit)
  | _ => Go (s, 0, 0%float)
  end.

(** The preamble of every pass of block e: the step budget, the error
    weights, the accuracy request and the warning about [t + h_ == t]. *)
Definition step_preamble (s : LSODA) (y : list double) (t : double) (istate : Z)
  : flow LSODA :=
  do s <-
    (if negb (istate =? 1) || negb (nst s =? 0) then
       if to_size_t (nst s - nslast s) >=? mxstep s then error_return too_many_steps s y (-1)
       else
         let s := ewset s (vget [] (yh_ s) 1) in
         match invert_ewt (upto 1 (n s)) (ewt s) with
         | (ewt', Some i) => error_return (ewt_nonpositive i) (set_ewt ewt' s) y (-6)
         | (ewt', None) => Go (set_ewt ewt' s)
         end
     else Go s);
  let tolsf := (ETA * vmnorm (n s) (vget [] (yh_ s) 1) (ewt s))%float in
  if fgt tolsf 1 then
    if nst s =? 0 then illegal_input too_much_accuracy_at_start s y t istate
    else error_return too_much_accuracy s y (-2)
  else if (tn_ s + h_ s =? tn_ s)%float then
    let s := set_nhnil (to_size_t (nhnil s + 1)) s in
    if nhnil s <=? mxhnil s then
      let s := print h_warning s in
      Go (if nhnil s =? mxhnil s then print h_warning_last s else s)
    else Go s
  else Go s.

(** Block f: "the case of a successful return from the core integrator
    ( kflag = 0 )".  Goes on ([continue]) with the object and [ihit]. *)
Definition block_f (s : LSODA) (y : list double) (tout : double) (itask ihit : Z)
    (tcrit : double) : flow (LSODA * Z) :=
  let s := set_init 1 s in
  let s :=
    if negb (meth_ s =? mused s) then
      let s := set_tsw (tn_ s) s in
      let s := set_maxord (mxordn s) s in
      let s := if meth_ s =? 2 then set_maxord (mxords s) s else s in
      let s := set_jstart (-1) s in
      if negb (ixpr s =? 0) then
        let s := if meth_ s =? 2 then print switch_to_stiff s else s in
        if meth_ s =? 1 then print switch_to_nonstiff s else s
      else s
    else s in
  if 1 =? itask then
    if ((tn_ s - tout) * h_ s <? 0)%float then Go (s, ihit)
    else interpolated_return s y tout
  else if itask =? 2 then success s y itask ihit tcrit
  else if itask =? 3 then
    if fge ((tn_ s - tout) * h_ s) 0 then success s y itask ihit tcrit
    else Go (s, ihit)
  else if itask =? 4 then
    if fge ((tn_ s - tout) * h_ s) 0 then interpolated_return s y tout
    else
      let ihit := hit s tcrit in
      if negb (ihit =? 0) then success s y itask ihit tcrit
      else
        let tnext := (tn_ s + h_ s * (1 + 4 * ETA))%float in
        if ((tnext - tcrit) * h_ s <=? 0)%float then Go (s, ihit)
        else
          let s := set_h_ ((tcrit - tn_ s) * (1 - 4 * ETA))%float s in
          Go (set_jstart (-2) s, ihit)
  else if itask =? 5 then success s y itask (hit s tcrit) tcrit
  else Go (s, ihit).

(** "kflag = -1, error test failed repeatedly or with fabs(h_) = hmin.
    kflag = -2, convergence failed repeatedly or with fabs(h_) = hmin." *)
Definition step_failure (s : LSODA) (y : list double) : lsoda_result :=
  let s := if kflag s =? -1 then print error_test_failed s else s in
  let s := if kflag s =? -2 then print convergence_failed s else s in
  let istate := if kflag s =? -2 then -5 else -4 in
  let m := if kflag s =? -2 then convergence_failed else error_test_failed in
  let '(_, imxer') :=
    for_up 1 (n s)
      (fun i '(big, imxer) =>
         let size := (abs (acor s).[i] * (ewt s).[i])%float in
         if (big <? size)%float then (size, i) else (big, imxer))
      (0%float, 1) in
  let s := set_imxer imxer' s in
  let '(s, y, t) := terminate2 s y in
  Done (via_terminate2 m, s, y, t, istate).

(** One pass through the [while (1)] of block e. *)
Definition lsoda_pass (fuel : nat) (s : LSODA) (neq : Z) (y : list double)
    (t tout : double) (itask istate ihit : Z) (tcrit : double)
  : flow (LSODA * list double * Z) :=
  do s <- step_preamble s y t istate;
  match stoda fuel s neq y with
  | OutOfFuel => Return OutOfFuel
  | Stopped s => Return (Stopped s)
  | Done (s, y) =>
      do (s, ihit) <-
        (if kflag s =? 0 then block_f s y tout itask ihit tcrit else Go (s, ihit));
      if (kflag s =? -1) || (kflag s =? -2) then Return (step_failure s y)
      else Go (s, y, ihit)
  end.

Fixpoint lsoda_loop (fuel passes : nat) (s : LSODA) (neq : Z) (y : list double)
    (t tout : double) (itask istate ihit : Z) (tcrit : double) : lsoda_result :=
  match passes with
  | O => OutOfFuel
  | S passes' =>
      match lsoda_pass fuel s neq y t tout itask istate ihit tcrit with
      | Return r => r
      | Go (s, y, ihit) => lsoda_loop fuel passes' s neq y t tout itask istate ihit tcrit
      end
  end.

(** Blocks a to d: everything before the integration loop. *)
Definition lsoda_prologue (s : LSODA) (neq : Z) (y : list double) (t tout : double)
    (itask istate iopt jt : Z) (iworks : list Z) (rworks : list double)
  : flow (LSODA * Z * double) :=
  do s <- block_a s y t itask istate;
  do (s, h0) <- block_b s neq y t tout istate iopt jt iworks rworks;
  let '(s, lenyh) := if istate =? 1 then allocate s else (s, 0) in
  do s <-
    (if (istate =? 1) || (istate =? 3) then
       match check_tolerances s (upto 1 (n s)) (rtol_ s).[1] (atol_ s).[1] with
       | Some m => illegal_input m s y t istate
       | None => Go s
       end
     else Go s);
  let s := if istate =? 3 then set_jstart (-1) s else s in
  do (s, tcrit) <-
    (if istate =? 1 then block_c s y t tout itask istate rworks h0 lenyh
     else Go (s, 0%float));
  if (istate =? 2) || (istate =? 3) then block_d s y t tout itask istate rworks
  else Go (s, 0, tcrit).

(** [lsoda]: advance the solution from [*t] towards [tout]. *)
Definition lsoda (fuel : nat) (s : LSODA) (neq : Z) (y : list double) (t tout : double)
    (itask istate iopt jt : Z) (iworks : list Z) (rworks : list double)
  : lsoda_result :=
  if negb (fgt tout t) then Stopped s
  else
    match lsoda_prologue s neq y t tout itask istate iopt jt iworks rworks with
    | Return r => r
    | Go (s, ihit, tcrit) => lsoda_loop fuel fuel s neq y t tout itask istate ihit tcrit
    end.

(** "Set the tolerance": [rtol_] and [atol_] resized to [neq + 1]
    elements, element 0 zeroed. *)
Definition set_tolerances (s : LSODA) (neq : Z) (rtol atol : double) : LSODA :=
  let s := set_rtol_ (resize (to_size_t (neq + 1)) rtol (rtol_ s)) s in
  let s := set_atol_ (resize (to_size_t (neq + 1)) atol (atol_ s)) s in
  let s := set_rtol_ (vset (rtol_ s) 0 0%float) s in
  set_atol_ (vset (atol_ s) 0 0%float) s.

(** [lsoda_function]: the simpler interface ([itask = 1], [iopt = 0],
    [jt = 2]).  Returns the object, [yout], [*t] and [*istate]. *)
Definition lsoda_function (fuel : nat) (s : LSODA) (neq : Z) (y : list double)
    (t tout : double) (istate : Z) (rtol atol : double) : lsoda_result :=
  let iworks := repeat 0 7 in
  let rworks := repeat 0%float 4 in
  let yout := 0%float :: y in
  let s := set_tolerances s neq rtol atol in
  match lsoda fuel s neq yout t tout 1 istate 0 2 iworks rworks with
  | Done (site, s, yout, t, istate) => Done (site, s, skipn 1 yout, t, istate)
  | r => r
  end.

End Integrator.

Arguments Done {A} a.
Arguments Stopped {A} s.
Arguments OutOfFuel {A}.
Arguments Go {A} a.
Arguments Return {A} r.

(** A freshly constructed object: [LSODA()] zeroes [el], [cm1] and [cm2];
    the default member initializers give [init = 0], [ixpr = 0],
    [mxords = 12], [h_ = tn_ = 0] and [itol_ = 2]; the vectors are empty.
    The other members are indeterminate in C++ and are 0 here. *)
Definition LSODA_new : LSODA :=
  {| ml := 0; mu := 0; imxer := 0; sqrteta := 0%float;
     el := repeat 0%float 14; cm1 := repeat 0%float 13; cm2 := repeat 0%float 6;
     elco := repeat (repeat 0%float 14) 13; tesco := repeat (repeat 0%float 4) 13;
     illin := 0; init := 0; ierpj := 0; iersl := 0; jcur := 0; l := 0; miter := 0;
     maxord := 0; maxcor := 0; msbp := 0; mxncf := 0;
     kflag := 0; jstart := 0; iret := 0;
     ixpr := 0; jtyp := 0; mused := 0; mxordn := 0; mxords := 12;
     meth_ := 0;
     n := 0; nq := 0; nst := 0; nfe := 0; nje := 0; nqu := 0;
     mxstep := 0; mxhnil := 0;
     nslast := 0; nhnil := 0; ntrep := 0; nyh := 0;
     ccmax := 0%float; el0 := 0%float; h_ := 0%float;
     hmin := 0%float; hmxi := 0%float; hu := 0%float; rc := 0%float; tn_ := 0%float;
     tsw := 0%float; pdnorm := 0%float;
     conit := 0%float; crate := 0%float; hold := 0%float; rmax := 0%float;
     ialth := 0; ipup := 0; lmax := 0;
     nslp := 0;
     pdest := 0%float; pdlast := 0%float; ratio := 0%float;
     icount := 0; irflag := 0;
     ewt := []; savf := []; acor := [];
     yh_ := []; wm_ := [];
     ipvt := [];
     itol_ := 2; rtol_ := []; atol_ := [];
     rcerr := [] |}.

(** * Definitions used by the statements *)

(** ** Loops that assign element by element *)

(** [v[i] = g(i, v[i])], the body of a loop that acts on each element
    separately. *)
Definition assign {A : Type} (d : A) (g : Z -> A -> A) (v : list A) (i : Z) : list A :=
  vset v i (g i (vget d v i)).


(** ** Words of row operations

    [run F w x] applies [F i] for the letters [i] of [w], first letter
    first.  The loops of [pascal] run the word [pascal_word nq]. *)

Definition run {S : Type} (F : Z -> S -> S) (w : list Z) (x : S) : S :=
  fold_left (fun x i => F i x) w x.

Definition pascal_word (nq : Z) : list Z :=
  flat_map (fun j => upto j nq) (rev (upto 1 nq)).

(** The same letters, each block read downwards and the blocks in the
    opposite order: the reversed word. *)
Definition descending_from (a nq : Z) : list Z :=
  flat_map (fun j => rev (upto j nq)) (upto a nq).

(** Two words are equivalent when they act alike. *)
Definition equiv {S : Type} (F : Z -> S -> S) (u v : list Z) : Prop :=
  forall x, run F u x = run F v x.

(** [r[i] = op r[i] r'[i]] for [i = 1 .. n]. *)
Definition rowop {D : Type} (d0 : D) (op : D -> D -> D) (n : Z) (r r' : list D) : list D :=
  for_up 1 n (fun i r => assign d0 (fun i x => op x (vget d0 r' i)) r i) r.

(** ** Members that a step never assigns *)

(** The members set by [lsoda] before the integration loop and left
    alone by [stoda] and everything it calls. *)
Definition static (s : LSODA) :=
  (illin s, init s, n s, nyh s, mxordn s, mxords s, maxord s, jtyp s,
   (maxcor s, msbp s, mxncf s, ccmax s, sqrteta s, hmin s, hmxi s, ixpr s),
   (mxstep s, mxhnil s, nslast s, nhnil s, ntrep s, itol_ s, rtol_ s, atol_ s),
   (ml s, mu s, imxer s, tsw s, ewt s)).

(** The object a pass of the corrector loop leaves. *)
Definition corr_step_obj (r : corr_step) : LSODA :=
  match r with
  | Converged r | Failed r => r_obj r
  | Restart c | Iterate c => c_obj c
  end.

(** The object a pass of the loops of [stoda] leaves. *)
Definition stoda_step_obj (r : stoda_step) : LSODA :=
  match r with
  | StepOver s _ => s
  | StepAgain v => st_obj v
  end.

(** ** The corrector *)

(** The members the corrector reads to decide between a restart and a
    failure, other than [jcur]. *)
Definition corr_frame (s : LSODA) := (miter s, maxcor s).

(** The restarts with a fresh Jacobian among the first [fuel] passes
    through the loop of [correction]. *)
Fixpoint restarts (f : double -> list double -> list double) (fuel : nat)
    (pnorm told rh : double) (ncf : Z) (c : corr_state) : nat :=
  match fuel with
  | O => O
  | S fuel' =>
      match correction_body f pnorm told rh ncf c with
      | Converged _ | Failed _ => O
      | Restart c' => S (restarts f fuel' pnorm told rh ncf c')
      | Iterate c' => restarts f fuel' pnorm told rh ncf c'
      end
  end.

(** What each way out of a pass through the loop of [correction] tells. *)
Definition correction_body_post (c : corr_state) (r : corr_step) : Prop :=
  match r with
  | Converged r => r_corflag r = 0
  | Failed r => r_corflag r = 1 \/ r_corflag r = 2
  | Restart c' =>
      c_m c' = 0 /\ ipup (c_obj c') = miter (c_obj c') /\
      corr_frame (c_obj c') = corr_frame (c_obj c) /\
      miter (c_obj c) <> 0 /\ jcur (c_obj c) <> 1 /\
      (c_m c =? 0) && (ipup (c_obj c) >? 0) = false /\
      exists del, diverged (c_obj c) (to_size_t (c_m c + 1)) del (c_delp c) = true
  | Iterate c' =>
      c_m c' = to_size_t (c_m c + 1) /\ c_delp c' = c_del c' /\
      corr_frame (c_obj c') = corr_frame (c_obj c) /\
      (jcur (c_obj c) = 1 \/ (c_m c =? 0) && (ipup (c_obj c) >? 0) = true ->
       jcur (c_obj c') = 1) /\
      diverged (c_obj c) (c_m c') (c_del c') (c_delp c) = false
  end.

(** Once the Jacobian is current, or is about to be evaluated, the
    corrector does not restart. *)
Definition settled (c : corr_state) : Prop :=
  jcur (c_obj c) = 1 \/ (c_m c =? 0) && (ipup (c_obj c) >? 0) = true.

(** The part of a pass through the loop of [correction] that comes
    before its tests: when [m = 0] and [ipup > 0] the matrix is
    evaluated by [prja]; when [m = 0], [acor] is zeroed; then the
    iterate is updated.  [None] when [prja] left [ierpj != 0]; otherwise
    the object, [y] and [*del] with which the tests are made. *)
Definition pass_iterate (f : double -> list double -> list double) (c : corr_state)
  : option (LSODA * list double * double) :=
  let s := c_obj c in
  let y := c_y c in
  let m := c_m c in
  let '(s, y, singular) :=
    if (m =? 0) && (ipup s >? 0) then
      let '(s, y) := prja f s y in
      let s := set_ipup 0 s in
      let s := set_rc 1%float s in
      let s := set_nslp (nst s) s in
      let s := set_crate 0.7%float s in
      (s, y, negb (ierpj s =? 0))
    else (s, y, false) in
  if singular then None
  else
    let s :=
      if m =? 0
      then set_acor (for_up 1 (n s) (fun i acor => vset acor i 0%float) (acor s)) s
      else s in
    Some (corrector_update s y).

(** The two convergence tests, made on the object [s] with [*del = del]
    in the pass that began with [*m = m] and [*delp = delp]:
    [*del <= 100. * pnorm * ETA], or, when [*m != 0 || meth_ != 1],
    [dcon <= 1.] with [crate] brought up to date when [*m != 0]. *)
Definition converged (pnorm : double) (m : Z) (delp : double) (s : LSODA) (del : double)
  : bool :=
  (del <=? 100 * pnorm * ETA)%float ||
  ((negb (m =? 0) || negb (meth_ s =? 1)) &&
   (let crate' :=
      if negb (m =? 0)
      then fmax (0.2 * crate s)
                (if (del <=? 1024 * delp)%float then (del / delp)%float else 1024%float)
      else crate s in
    (del * fmin 1 (1.5 * crate') / ((tesco s).[nq s, 2] * conit s) <=? 1)%float)).

(** What a pass through the loop of [correction] does, from the iterate
    [(s, y, del)] it has computed: it converges, or it has diverged and
    calls [corfailure] or restarts with a fresh matrix, or it goes on to
    the next iteration. *)
Definition pass_outcome (pnorm told rh : double) (ncf : Z) (c : corr_state)
    (s : LSODA) (del : double) (r : corr_step) : Prop :=
  let m' := to_size_t (c_m c + 1) in
  if converged pnorm (c_m c) (c_delp c) s del then
    exists x, r = Converged x /\ r_corflag x = 0 /\ r_del x = del /\ r_m x = c_m c /\
              r_ncf x = ncf /\ r_rh x = rh
  else if diverged s m' del (c_delp c) then
    if (miter s =? 0) || (jcur s =? 1) then
      exists x, r = Failed x /\ (r_corflag x = 1 \/ r_corflag x = 2) /\
                r_ncf x = to_size_t (ncf + 1) /\ tn_ (r_obj x) = told /\
                r_del x = del /\ r_m x = m'
    else
      exists c', r = Restart c' /\ c_m c' = 0 /\ c_del c' = 0%float /\
                 c_delp c' = c_delp c /\ c_rate c' = 0%float /\
                 ipup (c_obj c') = miter s /\ jcur (c_obj c') = jcur s /\
                 nfe (c_obj c') = to_size_t (nfe s + 1)
  else
    exists c', r = Iterate c' /\ c_m c' = m' /\ c_del c' = del /\ c_delp c' = del /\
               ipup (c_obj c') = ipup s /\ nfe (c_obj c') = to_size_t (nfe s + 1).

(** ** Returns after illegal input *)

(** The messages of block a. *)
Definition block_a_message (m : message) : bool :=
  match m with
  | illegal_istate | illegal_itask | not_initialized => true
  | _ => false
  end.

(** What a return through [terminate] after block a leaves, for a call
    entered with [illin = k] and [*t = t]. *)
Definition rejected_ok (k : Z) (t : double) (r : lsoda_result) : Prop :=
  match r with
  | Done (via_terminate m, s', _, t', istate') =>
      block_a_message m = false /\
      (k <> 5 -> illin s' = to_size_t (k + 1) /\ istate' = -3 /\ t' = t)
  | _ => True
  end.

(** A block either goes on with [illin] still [k] or has returned as
    [rejected_ok] says. *)
Definition flow_ok {A : Type} (obj : A -> LSODA) (k : Z) (t : double) (x : flow A) : Prop :=
  match x with
  | Go a => illin (obj a) = k
  | Return r => rejected_ok k t r
  end.

(** What holds of the value a block goes on with. *)
Definition go_post {A : Type} (P : A -> Prop) (x : flow A) : Prop :=
  match x with
  | Go a => P a
  | Return _ => True
  end.

(** ** Sample inputs *)

(** The system [y' = 0]. *)
Definition zero_rhs (t : double) (y : list double) : list double :=
  map (fun _ => 0%float) y.

(** A stand-in for [pow] where its value does not matter. *)
Definition no_pow (x y : double) : double := nan.

(** A stand-in for [pow] that is right at the bases 0 and 1 for a
    positive exponent. *)
Definition unit_pow (x y : double) : double :=
  if PrimFloat.Leibniz.eqb x 0 then 0%float
  else if PrimFloat.Leibniz.eqb x 1 then 1%float else nan.

(** [base] with the values of [pow] fixed at the four points the run
    below evaluates it at. *)
Definition pow_at_units (base : double -> double -> double) (x y : double) : double :=
  if PrimFloat.Leibniz.eqb x 0 && PrimFloat.Leibniz.eqb y (1 / 2)%float then 0%float
  else if PrimFloat.Leibniz.eqb x 0 && PrimFloat.Leibniz.eqb y (1 / 3)%float then 0%float
  else if PrimFloat.Leibniz.eqb x 0 && PrimFloat.Leibniz.eqb y (1 / 4)%float then 0%float
  else if PrimFloat.Leibniz.eqb x 1 && PrimFloat.Leibniz.eqb y (1 / 2)%float then 1%float
  else base x y.

(** An object one step after a step of size 1 ended at [tn_ = 1], and
    the same object with another step count. *)
Definition sample_object : LSODA :=
  set_yh_ [[0; 0]; [0; 1]; [0; 0.5]]%float
    (set_hu 1%float (set_h_ 1%float (set_tn_ 1%float
       (set_n 1 (set_l 2 (set_nq 1 LSODA_new)))))).


(** An object that has taken no step: [tn_ = 0] and [hu = 0]. *)
Definition unstepped_object : LSODA :=
  set_hu 0%float (set_tn_ 0%float sample_object).

(** *** A corrector pass that diverges

    The system [y' = 4 y], and an object on the stiff family with a
    full matrix ([miter = 2]) that is the identity and is not current
    ([jcur = 0], [ipup = 0]): with [y = 1] predicted and [h_ = 1] the
    chord iteration grows, [*del] is 3.5 in the first pass and 14 in
    the second. *)
Definition stiff_rhs (t : double) (y : list double) : list double :=
  map (fun x => (4 * x)%float) y.

Definition stale_matrix_object : LSODA :=
  let s := cfode (set_meth_ 2 sample_object) 2 in
  let s := set_mxncf 10 (set_maxcor 3 (set_miter 2 (set_jcur 0 (set_ipup 0 s)))) in
  let s := set_el0 1%float (set_el (vset (repeat 0%float 14) 1 1%float) s) in
  let s := set_crate 0.7%float (set_conit (0.5 / 3)%float (set_sqrteta (sqrt ETA) s)) in
  let s := set_ewt [0; 1]%float (set_savf [0; 0]%float (set_acor [0; 0]%float s)) in
  set_wm_ [[0; 0]; [0; 1]]%float (set_ipvt [0; 1] s).

(** The loop variables of [correction] on that object at its first
    pass and at its second. *)
Definition first_iteration : corr_state :=
  correction_entry stiff_rhs stale_matrix_object [0; 0]%float 0.

Definition second_iteration : corr_state :=
  match correction_body stiff_rhs 0 0 1 0 first_iteration with
  | Restart c | Iterate c => c
  | _ => first_iteration
  end.

(** *** A run that switches to the stiff family

    One equation that is [y' = 0] but at three times: at [t = 3] the
    corrector needs a second iteration, which gives the estimate
    [pdlast] of the Lipschitz constant; at the two times after the
    switch the error test is met with [dsm = 1]. *)
Definition switch_rhs (t : double) (y : list double) : list double :=
  match y with
  | [y1] =>
      [ if (t =? 3)%float && (y1 =? 0)%float then 0.25%float
        else if (t =? 9.75)%float then 13.33333333333284%float
        else if (t =? 9.9000000000000057)%float then 26.66666666666568%float
        else 0%float ]
  | _ => map (fun _ => 0%float) y
  end.

(** The object, [y], [*t] and [*istate] between two calls. *)
Definition between_calls : Type := (LSODA * list double * double * Z)%type.

(** [lsoda_function] from [t = -1] to [tout = 0] with [rtol = 0] and
    [atol = 1], which sets the tolerances; then [*istate] is set back
    to 1 for a new problem on the same object. *)
Definition switch_start (pow : double -> double -> double) : option between_calls :=
  match lsoda_function pow switch_rhs 100 LSODA_new 1 [0%float] (-1)%float 0%float 1
          0%float 1%float with
  | Done (_, s, y, t, _) => Some (s, 0%float :: y, t, 1)
  | _ => None
  end.

(** One call of [lsoda] with [itask = 5] (one step, not past [tcrit]),
    [tout = 1000], [iopt = 1] with [mxords = 1], [h0 = 1], [hmax = 1],
    and [jt = 2]. *)
Definition switch_call (pow : double -> double -> double) (x : option between_calls)
    (tcrit : double) : option between_calls :=
  match x with
  | None => None
  | Some (s, y, t, istate) =>
      match lsoda pow switch_rhs 100 s 1 y t 1000%float 5 istate 1 2
              [0; 0; 0; 0; 0; 0; 1] [tcrit; 1%float; 1%float; 0%float] with
      | Done (_, s', y', t', istate') => Some (s', y', t', istate')
      | _ => None
      end
  end.

(** Twenty-one calls with [tcrit = 1000], the last of which switches
    to the stiff family; one call with [tcrit = 9.75], less than a step
    ahead; one more call with [tcrit = 1000]. *)
Definition switch_run (pow : double -> double -> double) : option between_calls :=
  fold_left (switch_call pow) (repeat 1000%float 21 ++ [9.75%float; 1000%float])
    (switch_start pow).

(** ** Protocols, outcomes and further sample objects *)

(** The value of [*istate] after a return through [terminate2], by the
    message printed before it; [istate] is the value at entry. *)
Definition terminate2_code (istate : Z) (m : message) (istate' : Z) : Prop :=
  match m with
  | too_many_steps => istate' = -1
  | too_much_accuracy => istate' = -2
  | error_test_failed => istate' = -4
  | convergence_failed => istate' = -5
  | ewt_nonpositive _ => istate' = -6 \/ (istate = 1 /\ istate' = 1)
  | _ => False
  end.

(** What every return of [lsoda] satisfies, by the [return] taken. *)
Definition return_protocol (itask istate : Z) (tout : double) (r : lsoda_result) : Prop :=
  match r with
  | Done (via_terminate _, s', _, _, istate') =>
      istate' = -3 \/ (illin s' = 5 /\ istate' = istate)
  | Done (via_terminate2 m, s', _, t', istate') =>
      illin s' = 0 /\ t' = tn_ s' /\ terminate2_code istate m istate'
  | Done (via_successreturn, s', _, _, istate') =>
      illin s' = 0 /\ istate' = 2 /\ 2 <= itask <= 5
  | Done (via_intdy, s', _, t', istate') =>
      illin s' = 0 /\ istate' = 2 /\ t' = tout /\ (itask = 1 \/ itask = 4)
  | _ => True
  end.

(** A block that returns does so as [Q] says. *)
Definition return_post {A : Type} (Q : lsoda_result -> Prop) (x : flow A) : Prop :=
  match x with
  | Go _ => True
  | Return r => Q r
  end.

(** The step counter and the completion code of [stoda]. *)
Definition steps (s : LSODA) := (nst s, kflag s).

(** What a pass through the loops of [stoda] entered with the object
    [s] leaves. *)
Definition pass_post (s : LSODA) (r : stoda_step) : Prop :=
  match r with
  | StepOver s' _ =>
      jstart s' = 1 /\ hold s' = h_ s' /\
      ((kflag s' = 0 /\ nst s' = to_size_t (nst s + 1)) \/
       ((kflag s' = -1 \/ kflag s' = -2) /\ nst s' = nst s))
  | StepAgain v => nst (st_obj v) = nst s
  end.

(** An object on the Adams family whose step was limited by stability
    ([irflag = 1]), and an object on the BDF family at order 1 with
    room for higher orders. *)
Definition nonstiff_object : LSODA :=
  set_meth_ 1 (set_irflag 1 (set_mxords 5 sample_object)).

Definition stiff_object : LSODA := set_lmax 13 (set_meth_ 2 sample_object).

(** An object whose tolerance vectors are set for one equation. *)
Definition toleranced_object : LSODA :=
  set_atol_ [0; 1]%float (set_rtol_ [0; 0]%float LSODA_new).

(** An initial call of [lsoda] on that object, for [y' = 0] from
    [t = 0] to [tout = 1] with the optional input [mxstep = 50], and the
    object it leaves for the continuation calls. *)
Definition first_call : lsoda_result :=
  lsoda unit_pow zero_rhs 60 toleranced_object 1 [0; 0]%float 0 1 1 1 1 2
    [0; 0; 0; 50; 0; 0; 0] (repeat 0%float 4).

Definition after_first_call : LSODA :=
  match first_call with
  | Done (_, s, _, _, _) => s
  | _ => LSODA_new
  end.

(** The members that decide how long the loops of a step run: the
    iteration type and the completion code. *)
Definition drive (s : LSODA) := (miter s, kflag s).

(** A bound on the passes that the loop of [correction] still makes from
    the state [c]: the iterations left before [maxcor] is reached, and
    as many again while a restart with a fresh Jacobian is possible. *)
Definition corr_budget (c : corr_state) : Z :=
  maxcor (c_obj c) - c_m c
  + (if (jcur (c_obj c) =? 1) || (miter (c_obj c) =? 0)
        || ((c_m c =? 0) && (ipup (c_obj c) >? 0))
     then 0 else maxcor (c_obj c)).

(** What [correction] leaves in [*corflag] and [*ncf] when entered with
    [*ncf = ncf]. *)
Definition corr_exit (ncf : Z) (r : corr_result) : Prop :=
  (r_corflag r = 0 /\ r_ncf r = ncf) \/
  (r_ncf r = to_size_t (ncf + 1) /\
   (r_corflag r = 2 \/ (r_corflag r = 1 /\ r_ncf r <> mxncf (r_obj r)))).

(** A bound on the passes that the loops of [stoda] still make: the
    corrector failures left before [mxncf] and the error test failures
    left before [kflag = -10]. *)
Definition stoda_budget (v : stoda_vars) : Z :=
  (mxncf (st_obj v) - st_ncf v) + (kflag (st_obj v) + 10).

(** The state in which the loops of [stoda] are entered and re-entered:
    fewer than [mxncf] corrector failures and fewer than ten error test
    failures so far. *)
Definition stoda_ready (v : stoda_vars) : Prop :=
  1 <= maxcor (st_obj v) < 2 ^ 64 /\ 0 <= miter (st_obj v) /\
  mxncf (st_obj v) < 2 ^ 64 /\ 0 <= st_ncf v < mxncf (st_obj v) /\
  -10 < kflag (st_obj v) <= 0.

(** [sample_object] with the iteration limits that block c of [lsoda]
    gives an object: [maxcor = 3] and [mxncf = 10]. *)
Definition paced_object : LSODA := set_mxncf 10 (set_maxcor 3 sample_object).

(** What a result of [lsoda] must satisfy: a return through
    [terminate2], [successreturn] or the interpolation leaves an object
    that satisfies [Q]; [F] says whether the call may ask for more
    passes than it was allowed. *)
Definition result_keeps (Q : LSODA -> Prop) (F : Prop) (r : lsoda_result) : Prop :=
  match r with
  | Done (via_terminate _, _, _, _, _) => True
  | Done (_, s', _, _, _) => Q s'
  | Stopped _ => True
  | OutOfFuel => F
  end.

(** A block of [lsoda] goes on with a value that satisfies [P], or has
    returned with a result as above. *)
Definition flow_keeps {A : Type} (Q : LSODA -> Prop) (F : Prop) (P : A -> Prop)
    (x : flow A) : Prop :=
  match x with
  | Go a => P a
  | Return r => result_keeps Q F r
  end.

(** A call that returns or is cut by [Rcpp::stop]. *)
Definition finished (r : lsoda_result) : Prop := result_keeps (fun _ => True) False r.

(** The members that bound the work of a call. *)
Definition pace (s : LSODA) :=
  (maxcor s, mxncf s, jtyp s, mxstep s, nslast s, miter s, nst s, kflag s).

(** The state in which the integration loop of [lsoda] is entered and
    re-entered. *)
Definition loop_ready (istate : Z) (s : LSODA) : Prop :=
  1 <= maxcor s < 2 ^ 64 /\ 1 <= mxncf s < 2 ^ 64 /\ 0 <= jtyp s /\ 0 <= miter s /\
  0 <= mxstep s < 2 ^ 64 /\ (istate = 1 -> nslast s = 0 /\ 0 <= nst s < 2 ^ 64).

(** A bound on the passes that the integration loop still makes: the
    steps left before [mxstep] is reached, and one more for the first
    pass of an initial call, which is not counted. *)
Definition steps_left (istate : Z) (s : LSODA) : Z :=
  Z.max 0 (mxstep s - to_size_t (nst s - nslast s)) + 1
  + (if (istate =? 1) && (nst s =? 0) then 1 else 0).

(** The steps taken since the call began, [nst - nslast], do not exceed
    the limit [mxstep]; [base] and [lim] are the values of [nslast] and
    [mxstep] during the call. *)
Definition within_limit (base lim : Z) (s : LSODA) : Prop :=
  nslast s = base /\ mxstep s = lim /\ to_size_t (nst s - nslast s) <= mxstep s.

(** The state of the loop of [dgefa] after the columns up to [k]: the
    pivot indices recorded so far lie between their column and [n];
    while [*info] is 0 the diagonal entries left behind are not zero;
    and a [*info] that is not 0 names a column whose pivot is zero. *)
Definition dgefa_inv (n : Z) (ipvt0 : list Z) (k : Z)
    (st : list (list double) * list Z * Z) : Prop :=
  let '(a, ipvt, info) := st in
  length ipvt = length ipvt0 /\
  (forall j, 1 <= j <= k -> j <= vget 0 ipvt j <= n) /\
  (info = 0 -> forall j, 1 <= j <= k -> (a.[j, j] =? 0)%float = false) /\
  (info <> 0 -> 1 <= info <= k /\ (a.[info, vget 0%Z ipvt info] =? 0)%float = true).

(** A singular matrix: its second row is twice the first. *)
Definition sample_matrix : list (list double) :=
  [[0; 0; 0]; [0; 2; 1]; [0; 4; 2]]%float.

(** ** The wrapper [ode]

    [func t ys] is the user's system as [ode] calls it,
    [( *func)(t, &y[0], &ydot[0], data)]: it receives the values from
    [y[0]] on and returns the values it stores from [ydot[0]] on.  The
    matrix [res] is the list of its rows. *)

(** [func_trunc]: [func] on [nout] values, the first [neq] of which are
    those at [y]; the first [neq] derivatives are kept. *)
Definition func_trunc (func : double -> list double -> list double) (neq nout : Z)
    (t : double) (y : list double) : list double :=
  let yv := resize nout 0%float (firstn (Z.to_nat neq) y) in
  let ydotv := overwrite (func t yv) (repeat 0%float (Z.to_nat nout)) in
  firstn (Z.to_nat neq) ydotv.

(** [yin.resize(nout); ( *func)(t, &yin[0], &ydot[0], data); yin.resize(neq);]
    when [nout > neq]: returns the new [ydot]. *)
Definition ode_outputs (func : double -> list double -> list double) (neq nout : Z)
    (t : double) (yin ydot : list double) : list double :=
  if nout >? neq then overwrite (func t (resize nout 0%float yin)) ydot else ydot.

(** Row [i] of [res]: [res(i,0) = t], [res(i,j+1) = yout[j]] for
    [j < neq], and [res(i,j+1) = ydot[j]] for [neq <= j < nout] when
    [nout > neq]. *)
Definition ode_row (neq nout : Z) (t : double) (yout ydot : list double) : list double :=
  t :: map (fun j => yout.[j]) (upto 0 (neq - 1))
    ++ (if nout >? neq then map (fun j => ydot.[j]) (upto neq (nout - 1)) else []).

(** The loop [for (i = 1; i < times.size(); i++)] of [ode], over the
    output times left; the state is the object [lsoda], [yin], [ydot],
    [t] and [istate], and [rows] are the rows of [res] filled so far. *)
Fixpoint ode_loop (pow : double -> double -> double)
    (func : double -> list double -> list double) (fuel : nat) (neq nout : Z)
    (rtol atol : double) (touts : list double)
    (st : LSODA * list double * list double * double * Z) (rows : list (list double))
  : outcome (list (list double)) :=
  match touts with
  | [] => Done rows
  | tout :: touts' =>
      let '(s, yin, ydot, t, istate) := st in
      let f := if nout >? neq then func_trunc func neq nout else func in
      match lsoda_function pow f fuel s neq yin t tout istate rtol atol with
      | Done (_, s, yout, t, istate) =>
          let yin := yout in
          let ydot := ode_outputs func neq nout t yin ydot in
          ode_loop pow func fuel neq nout rtol atol touts'
            (s, yin, ydot, t, istate) (rows ++ [ode_row neq nout t yout ydot])
      | Stopped s => Stopped s
      | OutOfFuel => OutOfFuel
      end
  end.

(** [ode]: the solution at the times [times], one row for each.  The
    argument [nout] is 0 for "as many as [y]"; [Rcpp::stop("nout < neq")]
    happens before the object is constructed, and [LSODA_new] stands for
    it there. *)
Definition ode (pow : double -> double -> double) (fuel : nat) (y times : list double)
    (func : double -> list double -> list double) (nout : Z) (rtol atol : double)
  : outcome (list (list double)) :=
  let neq := Z.of_nat (length y) in
  let nout := if nout =? 0 then neq else nout in
  if nout <? neq then Stopped LSODA_new
  else
    let t := times.[0] in
    let yin := y in
    let ydot := repeat 0%float (Z.to_nat nout) in
    let ydot := ode_outputs func neq nout t yin ydot in
    ode_loop pow func fuel neq nout rtol atol (skipn 1 times)
      (LSODA_new, yin, ydot, t, 1) [ode_row neq nout t yin ydot].

(** * Facts about vectors and counted loops *)

Section VectorFacts.
Context {A : Type} (d : A).

Lemma length_upd (k : nat) (x : A) (v : list A) : length (upd k x v) = length v.
Proof.
  revert k; induction v as [|h t IH]; intros [|k]; simpl; auto.
Qed.

Lemma nth_upd_eq (k : nat) (x : A) (v : list A) :
  (k < length v)%nat -> nth k (upd k x v) d = x.
Proof.
  revert k; induction v as [|h t IH]; intros [|k] H; simpl in *; try lia; auto.
  apply IH; lia.
Qed.

Lemma nth_upd_ne (k j : nat) (x : A) (v : list A) :
  k <> j -> nth j (upd k x v) d = nth j v d.
Proof.
  revert k j; induction v as [|h t IH]; intros [|k] [|j] H; simpl; auto; try lia.
Qed.

Lemma upd_beyond (k : nat) (x : A) (v : list A) :
  (length v <= k)%nat -> upd k x v = v.
Proof.
  revert k; induction v as [|h t IH]; intros [|k] H; simpl in *; auto; try lia.
  f_equal; apply IH; lia.
Qed.

Lemma length_vset (v : list A) (i : Z) (x : A) : length (vset v i x) = length v.
Proof.
  unfold vset; destruct (i <? 0); auto using length_upd.
Qed.

Lemma vget_vset_eq (v : list A) (i : Z) (x : A) :
  0 <= i < Z.of_nat (length v) -> vget d (vset v i x) i = x.
Proof.
  intros H; unfold vget, vset.
  destruct (Z.ltb_spec i 0); [lia|].
  apply nth_upd_eq; lia.
Qed.

Lemma vget_vset_ne (v : list A) (i j : Z) (x : A) :
  0 <= j -> i <> j -> vget d (vset v i x) j = vget d v j.
Proof.
  intros Hj H; unfold vget, vset.
  destruct (Z.ltb_spec i 0); auto.
  apply nth_upd_ne; lia.
Qed.

Lemma vset_beyond (v : list A) (i : Z) (x : A) :
  Z.of_nat (length v) <= i -> vset v i x = v.
Proof.
  intros H; unfold vset.
  destruct (Z.ltb_spec i 0); auto.
  apply upd_beyond; lia.
Qed.

Lemma vget_beyond (v : list A) (i : Z) :
  Z.of_nat (length v) <= i -> vget d v i = d.
Proof.
  intros H; unfold vget; apply nth_overflow; lia.
Qed.
End VectorFacts.

Lemma upto_nil (a b : Z) : b < a -> upto a b = [].
Proof.
  intros H; unfold upto.
  replace (Z.to_nat (b - a + 1)) with 0%nat by lia; reflexivity.
Qed.

Lemma upto_cons (a b : Z) : a <= b -> upto a b = a :: upto (a + 1) b.
Proof.
  intros H; unfold upto.
  replace (Z.to_nat (b - a + 1)) with (S (Z.to_nat (b - (a + 1) + 1))) by lia.
  simpl; f_equal; [lia|].
  rewrite <- seq_shift, map_map.
  apply map_ext; intros k; lia.
Qed.

Lemma upto_snoc (a b : Z) : a <= b -> upto a b = upto a (b - 1) ++ [b].
Proof.
  intros H; unfold upto.
  replace (Z.to_nat (b - a + 1)) with (Z.to_nat (b - 1 - a + 1) + 1)%nat by lia.
  rewrite seq_app, map_app; simpl; repeat f_equal; lia.
Qed.

Lemma in_upto (i a b : Z) : In i (upto a b) <-> a <= i <= b.
Proof.
  unfold upto; rewrite in_map_iff; split.
  - intros (k & <- & Hk); apply in_seq in Hk; lia.
  - intros H; exists (Z.to_nat (i - a)); split; [lia|]; apply in_seq; lia.
Qed.

Lemma NoDup_upto (a b : Z) : NoDup (upto a b).
Proof.
  unfold upto; apply NoDup_map_NoDup_ForallPairs; [|apply seq_NoDup].
  intros x y _ _; lia.
Qed.

Lemma for_up_nil {S : Type} (a b : Z) (body : Z -> S -> S) (s : S) :
  b < a -> for_up a b body s = s.
Proof. intros H; unfold for_up; rewrite upto_nil by auto; reflexivity. Qed.

Lemma for_up_cons {S : Type} (a b : Z) (body : Z -> S -> S) (s : S) :
  a <= b -> for_up a b body s = for_up (a + 1) b body (body a s).
Proof. intros H; unfold for_up; rewrite upto_cons by auto; reflexivity. Qed.

Lemma for_up_snoc {S : Type} (a b : Z) (body : Z -> S -> S) (s : S) :
  a <= b -> for_up a b body s = body b (for_up a (b - 1) body s).
Proof.
  intros H; unfold for_up; rewrite upto_snoc by auto.
  rewrite fold_left_app; reflexivity.
Qed.

(** An invariant of the loop body is an invariant of the loop. *)
Lemma fold_left_inv {S I : Type} (P : S -> Prop) (body : S -> I -> S) (ix : list I) (s : S) :
  P s -> (forall i s, In i ix -> P s -> P (body s i)) -> P (fold_left body ix s).
Proof.
  revert s; induction ix as [|i ix IH]; simpl; intros s H0 Hstep; [assumption|].
  apply IH; auto.
Qed.

Lemma for_up_inv {S : Type} (P : S -> Prop) (a b : Z) (body : Z -> S -> S) (s : S) :
  P s -> (forall i s, a <= i <= b -> P s -> P (body i s)) -> P (for_up a b body s).
Proof.
  intros H0 Hstep; unfold for_up; apply fold_left_inv; auto.
  intros i s' Hi; apply Hstep, in_upto, Hi.
Qed.

Lemma for_down_inv {S : Type} (P : S -> Prop) (a b : Z) (body : Z -> S -> S) (s : S) :
  P s -> (forall i s, b <= i <= a -> P s -> P (body i s)) -> P (for_down a b body s).
Proof.
  intros H0 Hstep; unfold for_down; apply fold_left_inv; auto.
  intros i s' Hi; apply Hstep, in_upto, in_rev, Hi.
Qed.

(** A loop that assigns [v[i]] from [i] and the old [v[i]] acts on each
    element separately. *)
Section Pointwise.
Context {A : Type} (d : A) (g : Z -> A -> A).

Lemma length_fold_assign (ix : list Z) (v : list A) :
  length (fold_left (assign d g) ix v) = length v.
Proof.
  apply (fold_left_inv (fun w => length w = length v)); auto.
  intros i w _ Hw; unfold assign; rewrite length_vset; auto.
Qed.

Lemma fold_assign_other (ix : list Z) (v : list A) (j : Z) :
  0 <= j -> ~ In j ix -> vget d (fold_left (assign d g) ix v) j = vget d v j.
Proof.
  intros Hj; revert v; induction ix as [|i ix IH]; simpl; intros v Hn; auto.
  rewrite IH by tauto.
  unfold assign; apply vget_vset_ne; auto; intros ->; tauto.
Qed.

Lemma fold_assign_at (ix : list Z) (v : list A) (j : Z) :
  NoDup ix -> In j ix -> 0 <= j < Z.of_nat (length v) ->
  vget d (fold_left (assign d g) ix v) j = g j (vget d v j).
Proof.
  intros Hnd; revert v; induction Hnd as [|i ix Hni Hnd IH]; simpl; intros v Hin Hj.
  - tauto.
  - destruct Hin as [->|Hin].
    + rewrite fold_assign_other by (auto; lia).
      unfold assign; apply vget_vset_eq; auto.
    + rewrite IH by (auto; unfold assign; rewrite length_vset; auto).
      assert (i <> j) by (intros ->; tauto).
      unfold assign; rewrite vget_vset_ne by (auto; lia); auto.
Qed.

Lemma for_up_assign_at (a b : Z) (v : list A) (j : Z) :
  a <= j <= b -> 0 <= j < Z.of_nat (length v) ->
  vget d (for_up a b (fun i v => assign d g v i) v) j = g j (vget d v j).
Proof.
  intros Hr Hj; unfold for_up; apply fold_assign_at; auto using NoDup_upto.
  apply in_upto; auto.
Qed.

Lemma for_up_assign_other (a b : Z) (v : list A) (j : Z) :
  0 <= j -> ~ (a <= j <= b) ->
  vget d (for_up a b (fun i v => assign d g v i) v) j = vget d v j.
Proof.
  intros Hj Hr; unfold for_up; apply fold_assign_other; auto.
  rewrite in_upto; auto.
Qed.

Lemma length_for_up_assign (a b : Z) (v : list A) :
  length (for_up a b (fun i v => assign d g v i) v) = length v.
Proof. apply length_fold_assign. Qed.
End Pointwise.

(** * Facts about the order of doubles *)

Lemma SFcompare_antisym (x y : spec_float) :
  SFcompare y x = option_map CompOpp (SFcompare x y).
Proof.
  destruct x as [sx|sx| |sx mx ex], y as [sy|sy| |sy my ey]; simpl; auto;
    try (destruct sx; reflexivity); try (destruct sy; reflexivity);
    try (destruct sx, sy; reflexivity).
  change (PosDef.Pos.compare_cont Eq my mx) with (Pos.compare my mx).
  change (PosDef.Pos.compare_cont Eq mx my) with (Pos.compare mx my).
  rewrite (Z.compare_antisym ex ey), (Pos.compare_antisym mx my).
  destruct sx, sy; simpl; auto;
    destruct (ex ?= ey); simpl; auto; destruct (mx ?= my)%positive; reflexivity.
Qed.

(** [a <= b] excludes [a > b]. *)
Lemma leb_not_fgt (a b : double) : (a <=? b)%float = true -> fgt a b = false.
Proof.
  unfold fgt; rewrite leb_spec, ltb_spec; unfold SFleb, SFltb.
  rewrite (SFcompare_antisym (Prim2SF a) (Prim2SF b)).
  destruct (SFcompare (Prim2SF a) (Prim2SF b)) as [[| |]|]; simpl; congruence.
Qed.

(** ** The Pascal-triangle update and its inverse *)

Lemma run_app {S : Type} (F : Z -> S -> S) (u v : list Z) (x : S) :
  run F (u ++ v) x = run F v (run F u x).
Proof. apply fold_left_app. Qed.

Lemma fold_left_flat_map {S I J : Type} (body : S -> J -> S) (g : I -> list J)
    (ix : list I) (s : S) :
  fold_left (fun s i => fold_left body (g i) s) ix s = fold_left body (flat_map g ix) s.
Proof.
  revert s; induction ix as [|i ix IH]; simpl; intros s; auto.
  rewrite fold_left_app; apply IH.
Qed.

Lemma rev_flat_map {I J : Type} (g : I -> list J) (ix : list I) :
  rev (flat_map g ix) = flat_map (fun i => rev (g i)) (rev ix).
Proof.
  induction ix as [|i ix IH]; simpl; auto.
  rewrite rev_app_distr, IH, flat_map_app; simpl; rewrite app_nil_r; auto.
Qed.

Lemma rev_pascal_word (nq : Z) : rev (pascal_word nq) = descending_from 1 nq.
Proof.
  unfold pascal_word, descending_from; rewrite rev_flat_map, rev_involutive; auto.
Qed.

Lemma descending_from_cons (a nq : Z) :
  a <= nq -> descending_from a nq = rev (upto a nq) ++ descending_from (a + 1) nq.
Proof.
  intros H; unfold descending_from; rewrite (upto_cons a nq) at 1 by auto; reflexivity.
Qed.

Lemma descending_from_nil (a nq : Z) : nq < a -> descending_from a nq = [].
Proof. intros H; unfold descending_from; rewrite upto_nil by auto; reflexivity. Qed.

Lemma in_descending_from (i a nq : Z) : In i (descending_from a nq) -> a <= i.
Proof.
  unfold descending_from; rewrite in_flat_map; intros (j & Hj & Hi).
  apply in_upto in Hj; apply in_rev, in_upto in Hi; lia.
Qed.

Section Words.
Context {S : Type} (E E' : Z -> S -> S).
Hypothesis cancel : forall i x, E' i (E i x) = x.
Hypothesis commute : forall i j x, i + 2 <= j -> E' i (E' j x) = E' j (E' i x).

Lemma run_cancel (w : list Z) (x : S) : run E' (rev w) (run E w x) = x.
Proof.
  revert x; induction w as [|i w IH]; simpl; intros x; auto.
  rewrite run_app, IH; simpl; apply cancel.
Qed.

Lemma equiv_refl (u : list Z) : equiv E' u u.
Proof. intros x; reflexivity. Qed.

Lemma equiv_trans (u v w : list Z) : equiv E' u v -> equiv E' v w -> equiv E' u w.
Proof. intros H1 H2 x; rewrite H1; apply H2. Qed.

Lemma equiv_app (u u' v v' : list Z) : equiv E' u u' -> equiv E' v v' -> equiv E' (u ++ v) (u' ++ v').
Proof. intros H1 H2 x; rewrite !run_app, H1; apply H2. Qed.

(** A letter moves before any word of letters at least two above it. *)
Lemma letter_first (a : Z) (u : list Z) :
  (forall j, In j u -> a + 2 <= j) -> equiv E' (u ++ [a]) (a :: u).
Proof.
  induction u as [|j u IH]; intros Hu x; simpl; auto.
  rewrite IH by (intros k Hk; apply Hu; simpl; auto).
  simpl; rewrite commute by (apply Hu; simpl; auto); reflexivity.
Qed.

(** The ascending block of [a] moves before the descending blocks
    above it and turns into the descending block of [a]. *)
Lemma block_first (nq : Z) (k : nat) (a : Z) :
  a = nq + 1 - Z.of_nat k ->
  equiv E' (descending_from (a + 1) nq ++ upto a nq)
        (rev (upto a nq) ++ descending_from (a + 1) nq).
Proof.
  revert a; induction k as [|k IH]; intros a Ha.
  - rewrite descending_from_nil, upto_nil by lia; apply equiv_refl.
  - rewrite (upto_cons a nq) by lia.
    destruct (Z.eq_dec a nq) as [->|Hne].
    + rewrite descending_from_nil, upto_nil by lia; apply equiv_refl.
    + rewrite (descending_from_cons (a + 1) nq) by lia.
      simpl rev.
      (* desc (a+1) ++ Y (a+2) ++ a :: asc (a+1) *)
      apply equiv_trans with
        (rev (upto (a + 1) nq) ++ (a :: descending_from (a + 1 + 1) nq) ++ upto (a + 1) nq).
      * rewrite <- app_assoc.
        apply equiv_app; [apply equiv_refl|].
        change (a :: upto (a + 1) nq) with ([a] ++ upto (a + 1) nq).
        rewrite app_assoc.
        apply equiv_app; [|apply equiv_refl].
        apply letter_first; intros j Hj; apply in_descending_from in Hj; lia.
      * apply equiv_trans with
          ((rev (upto (a + 1) nq) ++ [a])
           ++ (descending_from (a + 1 + 1) nq ++ upto (a + 1) nq)).
        { rewrite <- !app_assoc; simpl; apply equiv_refl. }
        apply equiv_app; [apply equiv_refl|].
        apply IH; lia.
Qed.

Lemma ascending_descending (nq : Z) (k : nat) (a : Z) :
  a = nq + 1 - Z.of_nat k ->
  equiv E' (flat_map (fun j => upto j nq) (rev (upto a nq))) (descending_from a nq).
Proof.
  revert a; induction k as [|k IH]; intros a Ha.
  - rewrite descending_from_nil, upto_nil by lia; apply equiv_refl.
  - rewrite (upto_cons a nq) by lia; simpl rev.
    rewrite flat_map_app; simpl; rewrite app_nil_r.
    rewrite descending_from_cons by lia.
    apply equiv_trans with (descending_from (a + 1) nq ++ upto a nq).
    + apply equiv_app; [apply IH; lia|apply equiv_refl].
    + rewrite (upto_cons a nq) at 1 by lia.
      rewrite <- (upto_cons a nq) by lia.
      apply (block_first nq (Datatypes.S k)); lia.
Qed.

(** Running the inverse operations in the order of [pascal_word] undoes
    the word, although that is not the reversed order. *)
Lemma run_pascal_word_cancel (nq : Z) (x : S) :
  run E' (pascal_word nq) (run E (pascal_word nq) x) = x.
Proof.
  destruct (Z.le_gt_cases 1 (nq + 1)) as [H|H].
  - rewrite (ascending_descending nq (Z.to_nat nq) 1) by lia.
    rewrite <- rev_pascal_word; apply run_cancel.
  - unfold pascal_word; rewrite upto_nil by lia; reflexivity.
Qed.
End Words.

Section VectorFacts2.
Context {A : Type} (d : A).

Lemma vset_vset (v : list A) (i : Z) (x x' : A) : vset (vset v i x) i x' = vset v i x'.
Proof.
  unfold vset; destruct (i <? 0); auto.
  generalize (Z.to_nat i) as k; clear i.
  induction v as [|h t IH]; intros [|k]; simpl; auto; f_equal; auto.
Qed.

Lemma vset_comm (v : list A) (i j : Z) (x x' : A) :
  i <> j -> vset (vset v i x) j x' = vset (vset v j x') i x.
Proof.
  intros H; unfold vset.
  destruct (Z.ltb_spec i 0), (Z.ltb_spec j 0); auto.
  assert (Hk : Z.to_nat i <> Z.to_nat j) by lia.
  revert Hk; generalize (Z.to_nat i) as k, (Z.to_nat j) as m.
  induction v as [|h t IH]; intros [|k] [|m] Hk; simpl; auto; try lia.
  f_equal; apply IH; lia.
Qed.

Lemma vset_vget (v : list A) (i : Z) : 0 <= i -> vset v i (vget d v i) = v.
Proof.
  intros H; unfold vset, vget; destruct (Z.ltb_spec i 0); auto.
  generalize (Z.to_nat i) as k.
  induction v as [|h t IH]; intros [|k]; simpl; auto; f_equal; auto.
Qed.

Lemma vget_ext (v w : list A) :
  length v = length w -> (forall j, 0 <= j -> vget d v j = vget d w j) -> v = w.
Proof.
  intros Hl H; apply (nth_ext v w d d Hl).
  intros k _; specialize (H (Z.of_nat k)); unfold vget in H.
  rewrite Nat2Z.id in H; apply H; lia.
Qed.
End VectorFacts2.

(** ** The loops of [pascal] as a word of row operations *)

Section PascalFacts.
Context {D : Type} (d0 : D).

Lemma length_rowop op n r r' : length (rowop d0 op n r r') = length r.
Proof. apply length_for_up_assign. Qed.

Lemma row_update_eq (op : D -> D -> D) (n i1 : Z) (yh : list (list D)) :
  row_update d0 op n i1 yh
  = vset yh i1 (rowop d0 op n (vget [] yh i1) (vget [] yh (i1 + 1))).
Proof.
  destruct (Z.ltb_spec i1 0) as [Hneg|Hpos].
  { unfold row_update.
    replace (vset yh i1 _) with yh by (unfold vset; destruct (Z.ltb_spec i1 0); auto; lia).
    apply for_up_inv; auto.
    intros i s _ ->; unfold mset, vset; destruct (Z.ltb_spec i1 0); auto; lia. }
  destruct (Z.le_gt_cases (Z.of_nat (length yh)) i1) as [Hout|Hin].
  { rewrite (vset_beyond yh i1) by auto.
    unfold row_update; apply for_up_inv; auto.
    intros i s _ ->; unfold mset; apply vset_beyond; auto. }
  unfold row_update, rowop, for_up.
  set (r' := vget [] yh (i1 + 1)).
  rewrite <- (vset_vget [] yh i1) at 1 by auto.
  generalize (vget [] yh i1) as r.
  induction (upto 1 n) as [|i ix IH]; intros r; simpl; auto.
  rewrite <- IH; f_equal.
  unfold mset, mget, assign.
  rewrite vget_vset_eq by (rewrite ?length_vset; lia).
  rewrite vget_vset_ne by lia.
  fold r'; apply vset_vset.
Qed.

Lemma row_update_negative (op : D -> D -> D) (n i1 : Z) (yh : list (list D)) :
  i1 < 0 -> row_update d0 op n i1 yh = yh.
Proof.
  intros H; rewrite row_update_eq; unfold vset.
  destruct (Z.ltb_spec i1 0); auto; lia.
Qed.

Lemma pascal_eq (op : D -> D -> D) (nq n : Z) (yh : list (list D)) :
  pascal d0 op nq n yh = run (row_update d0 op n) (pascal_word nq) yh.
Proof.
  unfold pascal, for_down, for_up, run, pascal_word.
  apply (fold_left_flat_map (fun yh i1 => row_update d0 op n i1 yh) (fun j => upto j nq)).
Qed.

Context (add sub : D -> D -> D).
Hypothesis sub_add : forall a b, sub (add a b) b = a.

Lemma rowop_cancel (n : Z) (r r' : list D) :
  rowop d0 sub n (rowop d0 add n r r') r' = r.
Proof.
  apply (vget_ext d0).
  - rewrite !length_rowop; auto.
  - intros j Hj; unfold rowop.
    destruct (Z.le_gt_cases (Z.of_nat (length r)) j) as [Hout|Hin].
    { rewrite !vget_beyond by (rewrite ?length_for_up_assign; lia); auto. }
    destruct (Z.le_gt_cases 1 j), (Z.le_gt_cases j n);
      try (rewrite !for_up_assign_other by lia; reflexivity).
    rewrite for_up_assign_at by (rewrite ?length_for_up_assign; lia).
    rewrite for_up_assign_at by lia.
    apply sub_add.
Qed.

Lemma row_update_cancel (n i1 : Z) (yh : list (list D)) :
  row_update d0 sub n i1 (row_update d0 add n i1 yh) = yh.
Proof.
  rewrite !row_update_eq.
  destruct (Z.ltb_spec i1 0) as [Hneg|Hpos].
  { unfold vset; destruct (Z.ltb_spec i1 0); auto; lia. }
  destruct (Z.le_gt_cases (Z.of_nat (length yh)) i1) as [Hout|Hin].
  { rewrite !vset_beyond by (rewrite ?vset_beyond; auto); auto. }
  rewrite vset_vset, vget_vset_eq, vget_vset_ne by lia.
  rewrite rowop_cancel; apply vset_vget; auto.
Qed.

Lemma row_update_commute (op : D -> D -> D) (n i j : Z) (yh : list (list D)) :
  i + 2 <= j ->
  row_update d0 op n i (row_update d0 op n j yh)
  = row_update d0 op n j (row_update d0 op n i yh).
Proof.
  intros H.
  destruct (Z.ltb_spec i 0) as [Hneg|Hpos].
  { rewrite !(row_update_negative op n i) by auto; reflexivity. }
  rewrite !row_update_eq.
  rewrite !(vget_vset_ne [] _ j) by lia.
  rewrite !(vget_vset_ne [] _ i) by lia.
  apply vset_comm; lia.
Qed.

(** With subtraction undoing addition, the retraction undoes the
    prediction on the whole array. *)
Lemma retract_predict (nq n : Z) (yh : list (list D)) :
  retract d0 sub nq n (predict d0 add nq n yh) = yh.
Proof.
  unfold retract, predict; rewrite !pascal_eq.
  apply run_pascal_word_cancel.
  - intros i x; apply row_update_cancel.
  - intros i j x Hij; apply row_update_commute; auto.
Qed.
End PascalFacts.

(** [members] reduces the members of an object built by assignments. *)
Ltac members :=
  cbn [
    ml mu imxer sqrteta el cm1 cm2 elco tesco illin init ierpj iersl jcur l
    miter maxord maxcor msbp mxncf kflag jstart iret ixpr jtyp mused mxordn
    mxords meth_ n nq nst nfe nje nqu mxstep mxhnil nslast nhnil ntrep nyh ccmax
    el0 h_ hmin hmxi hu rc tn_ tsw pdnorm conit crate hold rmax ialth ipup lmax
    nslp pdest pdlast ratio icount irflag ewt savf acor yh_ wm_ ipvt itol_ rtol_
    atol_ rcerr set_ml set_mu set_imxer set_sqrteta set_el set_cm1 set_cm2
    set_elco set_tesco set_illin set_init set_ierpj set_iersl set_jcur set_l
    set_miter set_maxord set_maxcor set_msbp set_mxncf set_kflag set_jstart
    set_iret set_ixpr set_jtyp set_mused set_mxordn set_mxords set_meth_ set_n
    set_nq set_nst set_nfe set_nje set_nqu set_mxstep set_mxhnil set_nslast
    set_nhnil set_ntrep set_nyh set_ccmax set_el0 set_h_ set_hmin set_hmxi
    set_hu set_rc set_tn_ set_tsw set_pdnorm set_conit set_crate set_hold
    set_rmax set_ialth set_ipup set_lmax set_nslp set_pdest set_pdlast set_ratio
    set_icount set_irflag set_ewt set_savf set_acor set_yh_ set_wm_ set_ipvt
    set_itol_ set_rtol_ set_atol_ set_rcerr print fst snd
  ] in *.

(** ** Members that a step never assigns *)

Ltac break_if :=
  match goal with
  | |- context [if ?b then _ else _] => destruct b
  end.

Ltac break_let :=
  match goal with
  | |- context [let '(_, _) := ?x in _] => destruct x
  end.

Section Frames.
Variable pow : double -> double -> double.
Variable f : double -> list double -> list double.

Lemma cfode_static s meth : static (cfode s meth) = static s.
Proof. unfold cfode; repeat break_if; repeat break_let; reflexivity. Qed.

Lemma resetcoeff_static s : static (resetcoeff s) = static s.
Proof. reflexivity. Qed.

Lemma scaleh_static s rh pdh : static (fst (fst (scaleh s rh pdh))) = static s.
Proof. unfold scaleh; repeat break_if; repeat break_let; reflexivity. Qed.

Lemma endstoda_static s : static (endstoda s) = static s.
Proof. reflexivity. Qed.

Lemma prja_static s y : static (fst (prja f s y)) = static s.
Proof.
  unfold prja.
  match goal with |- context [for_up 1 ?b ?body ?init] =>
    assert (H : static (fst (for_up 1 b body init)) = static s)
  end.
  { apply for_up_inv; [reflexivity|].
    intros j [s' y'] _ Hs; exact Hs. }
  break_if; [reflexivity|].
  match type of H with static (fst ?x) = _ => destruct x as [s1 y1] end.
  destruct (dgefa _ _ _) as [[a pv] ier].
  break_if; exact H.
Qed.

Lemma solsy_static s y : static (fst (solsy s y)) = static s.
Proof. unfold solsy; break_if; reflexivity. Qed.

Lemma corfailure_static s told rh ncf :
  static (fst (fst (fst (corfailure s told rh ncf)))) = static s.
Proof. unfold corfailure; break_if; reflexivity. Qed.

Lemma corrector_update_static s y :
  static (fst (fst (corrector_update s y))) = static s.
Proof.
  unfold corrector_update; break_if.
  - repeat break_let; reflexivity.
  - generalize (solsy_static s
      (for_up 1 (n s)
         (fun i y => vset y i (h_ s * (savf s).[i] - ((yh_ s).[2, i] + (acor s).[i]))%float) y)).
    destruct (solsy _ _) as [s1 y1]; simpl; intros H.
    break_let; exact H.
Qed.

Lemma after_corfailure_static s y told rh ncf m del delp :
  static (r_obj (after_corfailure s y told rh ncf m del delp)) = static s.
Proof.
  unfold after_corfailure.
  generalize (corfailure_static s told rh ncf).
  destruct (corfailure s told rh ncf) as [[[s1 rh1] ncf1] cf]; auto.
Qed.

Lemma correction_body_static pnorm told rh ncf c :
  static (corr_step_obj (correction_body f pnorm told rh ncf c)) = static (c_obj c).
Proof.
  unfold correction_body.
  set (refreshed := if (c_m c =? 0) && (ipup (c_obj c) >? 0) then _ else _).
  assert (Hr : static (fst (fst refreshed)) = static (c_obj c)).
  { subst refreshed; break_if; [|reflexivity].
    generalize (prja_static (c_obj c) (c_y c)).
    destruct (prja f (c_obj c) (c_y c)) as [s1 y1]; auto. }
  destruct refreshed as [[s1 y1] singular]; simpl in Hr.
  destruct singular.
  { simpl; rewrite after_corfailure_static; auto. }
  match goal with |- context [corrector_update ?s ?y] =>
    generalize (corrector_update_static s y); destruct (corrector_update s y) as [[s2 y2] del]
  end.
  simpl; intros H2.
  assert (H2' : static s2 = static (c_obj c)).
  { rewrite H2; break_if; auto. }
  clear H2.
  break_if; [exact H2'|].
  set (rate_test := if negb (c_m c =? 0) || negb (meth_ s2 =? 1) then _ else _).
  assert (Ht : static (fst (fst rate_test)) = static s2)
    by (subst rate_test; repeat break_if; reflexivity).
  destruct rate_test as [[s3 rate] accepted]; simpl in Ht.
  assert (H3 : static s3 = static (c_obj c)) by congruence.
  clear Ht H2'.
  destruct accepted.
  { cbn [corr_step_obj r_obj]; break_if; exact H3. }
  break_if.
  - break_if; cbn [corr_step_obj r_obj c_obj].
    + rewrite after_corfailure_static; exact H3.
    + exact H3.
  - exact H3.
Qed.

Lemma correction_loop_static fuel pnorm told rh ncf c r :
  correction_loop f fuel pnorm told rh ncf c = Some r ->
  static (r_obj r) = static (c_obj c).
Proof.
  revert c; induction fuel as [|fuel IH]; simpl; intros c H; [discriminate|].
  generalize (correction_body_static pnorm told rh ncf c).
  destruct (correction_body f pnorm told rh ncf c) as [r'|r'|c'|c']; simpl; intros Hb.
  - congruence.
  - congruence.
  - rewrite (IH _ H); auto.
  - rewrite (IH _ H); auto.
Qed.

Lemma correction_static fuel s y pnorm delp told ncf rh r :
  correction f fuel s y pnorm delp told ncf rh = Some r ->
  static (r_obj r) = static s.
Proof.
  unfold correction; intros H; apply correction_loop_static in H; exact H.
Qed.

Lemma methodswitch_static s dsm pnorm pdh rh :
  static (fst (fst (methodswitch pow s dsm pnorm pdh rh))) = static s.
Proof.
  unfold methodswitch.
  repeat first [break_if | break_let
               | match goal with |- context [match ?x with Some _ => _ | None => _ end] =>
                   destruct x end];
    reflexivity.
Qed.

Lemma orderswitch_static s rhup dsm pdh rh :
  static (fst (fst (fst (fst (orderswitch pow s rhup dsm pdh rh))))) = static s.
Proof.
  unfold orderswitch.
  break_if.
  all: repeat first [break_if | break_let
               | match goal with |- context [match ?x with Some _ => _ | None => _ end] =>
                   destruct x end];
    reflexivity.
Qed.

Lemma static_set_cm1 v s : static (set_cm1 v s) = static s.
Proof. reflexivity. Qed.

Lemma static_set_cm2 v s : static (set_cm2 v s) = static s.
Proof. reflexivity. Qed.

Lemma stoda_first_call_static s : static (stoda_first_call s) = static s.
Proof.
  unfold stoda_first_call.
  rewrite resetcoeff_static, static_set_cm1, cfode_static, static_set_cm2, cfode_static.
  reflexivity.
Qed.

Lemma stoda_new_h_static s rh pdh : static (fst (fst (stoda_new_h s rh pdh))) = static s.
Proof.
  unfold stoda_new_h; break_if; [|reflexivity].
  rewrite scaleh_static; reflexivity.
Qed.

Lemma stoda_new_parameters_static s rh pdh :
  static (fst (fst (stoda_new_parameters s rh pdh))) = static s.
Proof.
  unfold stoda_new_parameters; rewrite stoda_new_h_static.
  repeat break_if; rewrite ?resetcoeff_static; try reflexivity.
  all: match goal with |- static (set_iret ?a (set_ialth ?b ?x)) = _ =>
         change (static x = static s) end; rewrite cfode_static; reflexivity.
Qed.

Lemma stoda_setup_static s rh pdh : static (fst (fst (stoda_setup s rh pdh))) = static s.
Proof.
  unfold stoda_setup.
  assert (H1 : static (if jstart s =? 0 then stoda_first_call s else s) = static s)
    by (break_if; auto using stoda_first_call_static).
  revert H1; generalize (if jstart s =? 0 then stoda_first_call s else s); intros s1 H1.
  assert (H2 : static (fst (fst (if jstart s1 =? -1 then stoda_new_parameters s1 rh pdh
                                 else (s1, rh, pdh)))) = static s)
    by (break_if; rewrite ?stoda_new_parameters_static; auto).
  revert H2; generalize (if jstart s1 =? -1 then stoda_new_parameters s1 rh pdh
                         else (s1, rh, pdh)); intros [[s2 rh2] pdh2] H2; simpl in H2.
  break_if; rewrite ?stoda_new_h_static; auto.
Qed.

Lemma rescale_static s rh pdh : static (fst (fst (rescale s rh pdh))) = static s.
Proof. unfold rescale; apply scaleh_static. Qed.

(** [frame_call] names the object returned by the next call and records
    that its static members are those of the object passed. *)
Ltac frame_call :=
  let H := fresh "Hs" in
  let s' := fresh "s" in
  let a' := fresh "rh" in
  let b' := fresh "pdh" in
  let c' := fresh "rhup" in
  let d' := fresh "flag" in
  match goal with
  | |- context [rescale ?s ?rh ?pdh] =>
      pose proof (rescale_static s rh pdh) as H;
      destruct (rescale s rh pdh) as [[s' a'] b']
  | |- context [orderswitch pow ?s ?a ?b ?c ?d] =>
      pose proof (orderswitch_static s a b c d) as H;
      destruct (orderswitch pow s a b c d) as [[[[s' c'] b'] a'] d']
  | |- context [methodswitch pow ?s ?a ?b ?c ?d] =>
      pose proof (methodswitch_static s a b c d) as H;
      destruct (methodswitch pow s a b c d) as [[s' b'] a']
  end;
  cbn [fst] in H.

Ltac frame_done :=
  rewrite ?endstoda_static, ?resetcoeff_static in *;
  unfold static in *; members; congruence.

Lemma stoda_accept_static s y dsm pnorm pdh rh :
  static (fst (stoda_accept pow s y dsm pnorm pdh rh)) = static s.
Proof.
  unfold stoda_accept.
  set (s0 := set_icount _ _).
  assert (H0 : static s0 = static s) by reflexivity.
  clearbody s0.
  assert (Hm : static (fst (fst (if icount s0 <? 0 then methodswitch pow s0 dsm pnorm pdh rh
                                 else (s0, pdh, rh)))) = static s)
    by (break_if; rewrite ?methodswitch_static; auto).
  destruct (if icount s0 <? 0 then methodswitch pow s0 dsm pnorm pdh rh else (s0, pdh, rh))
    as [[s1 pdh1] rh1]; cbn [fst] in Hm.
  break_if.
  { frame_call; cbn [fst]; frame_done. }
  set (s2 := set_ialth _ s1).
  assert (H2 : static s2 = static s) by (rewrite <- Hm; reflexivity).
  clearbody s2; clear Hm H0 s0 s1.
  assert (Hn : forall s', static s' = static s ->
            static (fst (if (ialth s' >? 1) || (l s' =? lmax s') then (endstoda s', y)
                         else (endstoda (set_yh_ (for_up 1 (n s')
                                 (fun i yh => mset yh (lmax s') i (acor s').[i]) (yh_ s')) s'), y)))
            = static s).
  { intros s' Hs'; break_if; cbn [fst]; rewrite endstoda_static; auto. }
  break_if; [|apply Hn; auto].
  set (up := if negb (l s2 =? lmax s2) then _ else _).
  assert (Hu : static (fst up) = static s) by (subst up; break_if; auto).
  destruct up as [s3 rhup]; cbn [fst] in Hu.
  frame_call.
  repeat break_if; try (apply Hn; congruence); try frame_call; cbn [fst]; frame_done.
Qed.

Lemma stoda_restore_static s told : static (stoda_restore s told) = static s.
Proof. reflexivity. Qed.

Lemma stoda_retry_static s y dsm pdh rh ncf delp :
  static (stoda_step_obj (stoda_retry pow f s y dsm pdh rh ncf delp)) = static s.
Proof.
  unfold stoda_retry.
  break_if; [reflexivity|].
  break_if.
  { frame_call.
    set (r1 := if (flag =? 1) || (flag =? 0) then _ else _).
    assert (H1 : static (fst (fst r1)) = static s).
    { subst r1. break_if. all: cbn [fst]. rewrite ?rescale_static. all: congruence. }
    destruct r1 as [[s2 rh2] pdh2]; cbn [fst] in H1.
    set (r2 := if flag =? 2 then _ else _).
    assert (H2 : static (fst (fst r2)) = static s).
    { subst r2; break_if; cbn [fst]; [rewrite rescale_static, resetcoeff_static|]; congruence. }
    destruct r2 as [[s3 rh3] pdh3]; cbn [fst] in H2.
    exact H2. }
  break_if; [reflexivity|].
  break_if; reflexivity.
Qed.

Lemma stoda_reject_static s y told dsm pdh rh ncf delp :
  static (stoda_step_obj (stoda_reject pow f s y told dsm pdh rh ncf delp)) = static s.
Proof.
  unfold stoda_reject; rewrite stoda_retry_static; apply stoda_restore_static.
Qed.

Lemma stoda_body_static fuel told v r :
  stoda_body pow f fuel told v = Some r ->
  static (stoda_step_obj r) = static (st_obj v).
Proof.
  unfold stoda_body.
  set (s0 := stoda_predict _).
  assert (H0 : static s0 = static (st_obj v))
    by (subst s0; unfold stoda_predict; repeat break_if; reflexivity).
  clearbody s0.
  match goal with |- context [correction f fuel ?s ?y ?a ?b ?c ?d ?e] =>
    pose proof (correction_static fuel s y a b c d e) as Hc;
    destruct (correction f fuel s y a b c d e) as [r0|]; [|discriminate]
  end.
  specialize (Hc r0 eq_refl).
  rewrite <- H0, <- Hc; clear H0 Hc.
  generalize (r_obj r0); intros s1.
  break_if.
  { break_if.
    - match goal with |- context [stoda_accept pow ?s ?y ?a ?b ?c ?d] =>
        pose proof (stoda_accept_static s y a b c d) as Ha;
        destruct (stoda_accept pow s y a b c d) as [s2 y2]
      end.
      intros H; injection H as <-; exact Ha.
    - intros H; injection H as <-. rewrite stoda_reject_static; reflexivity. }
  break_if.
  { frame_call; intros H; injection H as <-; exact Hs. }
  break_if; intros H; injection H as <-; reflexivity.
Qed.

Lemma stoda_loop_static fuel passes told v s' y' :
  stoda_loop pow f fuel passes told v = Done (s', y') -> static s' = static (st_obj v).
Proof.
  revert v; induction passes as [|passes IH]; simpl; intros v H; [discriminate|].
  pose proof (stoda_body_static fuel told v) as Hb.
  destruct (stoda_body pow f fuel told v) as [[s1 y1|v1]|]; try discriminate.
  - injection H as <- <-; apply (Hb _ eq_refl).
  - rewrite (IH _ H); apply (Hb _ eq_refl).
Qed.

Lemma stoda_static fuel s neq y s' y' :
  stoda pow f fuel s neq y = Done (s', y') -> static s' = static s.
Proof.
  unfold stoda; break_if; [discriminate|].
  match goal with |- context [stoda_setup ?s ?a ?b] =>
    pose proof (stoda_setup_static s a b) as Hs;
    destruct (stoda_setup s a b) as [[s1 rh1] pdh1]
  end.
  cbn [fst] in Hs; intros H; apply stoda_loop_static in H.
  rewrite H; exact Hs.
Qed.

Lemma stoda_loop_not_stopped fuel passes told v s' :
  stoda_loop pow f fuel passes told v <> Stopped s'.
Proof.
  revert v; induction passes as [|passes IH]; simpl; intros v; [discriminate|].
  destruct (stoda_body pow f fuel told v) as [[s2 y2|v2]|]; try discriminate; auto.
Qed.

Lemma stoda_stopped fuel s neq y s' :
  stoda pow f fuel s neq y = Stopped s' -> s' = s.
Proof.
  unfold stoda; break_if; [congruence|].
  destruct (stoda_setup _ _ _) as [[s1 rh1] pdh1].
  intros H; apply stoda_loop_not_stopped in H; destruct H.
Qed.
End Frames.



Section Interpolation.
Variable pow : double -> double -> double.

Lemma LSODA_rcerr_eta (s : LSODA) : s = set_rcerr (rcerr s) s.
Proof. destruct s; reflexivity. Qed.

(** What decides [*iflag]: it is negative exactly when [k] is out of
    range or the product [(t - tp) * (t - tn1)], computed in double
    precision, is greater than 0; then [dky] is returned unwritten; and
    the object is changed in nothing but the messages printed. *)
Theorem intdy_flag (s : LSODA) (t : double) (k : Z) (dky : list double) :
  let tfuzz := (100 * ETA * sign (abs (tn_ s) + abs (hu s)) (hu s))%float in
  let tp := (tn_ s - hu s - tfuzz)%float in
  let tn1 := (tn_ s + tfuzz)%float in
  let '(s', dky', iflag) := intdy pow s t k dky in
  (iflag < 0 <-> k < 0 \/ k > to_int (nq s) \/ fgt ((t - tp) * (t - tn1)) 0 = true) /\
  (iflag < 0 -> dky' = dky) /\
  (exists log, s' = set_rcerr log s).
Proof.
  intros tfuzz tp tn1; unfold intdy.
  destruct ((k <? 0) || (k >? to_int (nq s))) eqn:Hk.
  { split; [|split; [reflexivity|eexists; reflexivity]].
    split; [intros _|lia].
    apply orb_true_iff in Hk; destruct Hk as [Hk|Hk]; lia. }
  apply orb_false_iff in Hk; destruct Hk as [Hk1 Hk2].
  fold tfuzz; fold tp; fold tn1.
  destruct (fgt ((t - tp) * (t - tn1)) 0) eqn:Ht.
  { split; [|split; [reflexivity|eexists; reflexivity]].
    split; [auto|lia]. }
  assert (Hno : ~ (k < 0 \/ k > to_int (nq s) \/ false = true))
    by (intros [H|[H|H]]; [lia|lia|discriminate]).
  destruct (k =? 0); (split; [split; [lia|tauto]|split; [lia|exists (rcerr s); apply LSODA_rcerr_eta]]).
Qed.




End Interpolation.

Section Corrector.
Variable f : double -> list double -> list double.

Lemma prja_frame s y :
  corr_frame (fst (prja f s y)) = corr_frame s /\ jcur (fst (prja f s y)) = 1.
Proof.
  unfold prja.
  match goal with |- context [for_up 1 ?b ?body ?init] =>
    assert (H : corr_frame (fst (for_up 1 b body init)) = corr_frame s /\
                jcur (fst (for_up 1 b body init)) = 1)
  end.
  { apply for_up_inv; [split; reflexivity|].
    intros j [s' y'] _ Hs; exact Hs. }
  break_if; [split; reflexivity|].
  match type of H with corr_frame (fst ?x) = _ /\ _ => destruct x as [s1 y1] end.
  destruct (dgefa _ _ _) as [[a pv] ier].
  break_if; exact H.
Qed.

Lemma solsy_frame s y :
  corr_frame (fst (solsy s y)) = corr_frame s /\ jcur (fst (solsy s y)) = jcur s.
Proof. unfold solsy; break_if; split; reflexivity. Qed.

Lemma corrector_update_frame s y :
  corr_frame (fst (fst (corrector_update s y))) = corr_frame s /\
  jcur (fst (fst (corrector_update s y))) = jcur s.
Proof.
  unfold corrector_update; break_if.
  - repeat break_let; split; reflexivity.
  - generalize (solsy_frame s
      (for_up 1 (n s)
         (fun i y => vset y i (h_ s * (savf s).[i] - ((yh_ s).[2, i] + (acor s).[i]))%float) y)).
    destruct (solsy _ _) as [s1 y1]; simpl; intros H.
    break_let; exact H.
Qed.

Lemma after_corfailure_corflag s y told rh ncf m del delp :
  r_corflag (after_corfailure s y told rh ncf m del delp) = 1 \/
  r_corflag (after_corfailure s y told rh ncf m del delp) = 2.
Proof.
  unfold after_corfailure, corfailure; break_if; cbn; auto.
Qed.

Lemma diverged_frame s s' m del delp :
  corr_frame s' = corr_frame s -> diverged s' m del delp = diverged s m del delp.
Proof. unfold corr_frame, diverged; intros H; injection H as _ ->; reflexivity. Qed.

Lemma correction_body_spec pnorm told rh ncf c :
  correction_body_post c (correction_body f pnorm told rh ncf c).
Proof.
  unfold correction_body.
  set (due := (c_m c =? 0) && (ipup (c_obj c) >? 0)).
  set (refreshed := if due then _ else _).
  assert (Hr : corr_frame (fst (fst refreshed)) = corr_frame (c_obj c) /\
               jcur (fst (fst refreshed)) = (if due then 1 else jcur (c_obj c))).
  { subst refreshed; destruct due; [|split; reflexivity].
    generalize (prja_frame (c_obj c) (c_y c)).
    destruct (prja f (c_obj c) (c_y c)) as [s1 y1]; auto. }
  destruct refreshed as [[s1 y1] singular]; simpl in Hr.
  destruct singular.
  { simpl; apply after_corfailure_corflag. }
  match goal with |- context [corrector_update ?s ?y] =>
    generalize (corrector_update_frame s y); destruct (corrector_update s y) as [[s2 y2] del]
  end.
  simpl; intros H2.
  assert (H2' : corr_frame s2 = corr_frame (c_obj c) /\
                jcur s2 = (if due then 1 else jcur (c_obj c))).
  { destruct H2 as [-> ->]; break_if; auto. }
  clear H2 Hr.
  break_if; [reflexivity|].
  set (rate_test := if negb (c_m c =? 0) || negb (meth_ s2 =? 1) then _ else _).
  assert (Ht : corr_frame (fst (fst rate_test)) = corr_frame s2 /\
               jcur (fst (fst rate_test)) = jcur s2)
    by (subst rate_test; repeat break_if; split; reflexivity).
  destruct rate_test as [[s3 rate] accepted]; simpl in Ht.
  assert (H3 : corr_frame s3 = corr_frame (c_obj c) /\
               jcur s3 = (if due then 1 else jcur (c_obj c)))
    by (destruct Ht as [-> ->]; exact H2').
  clear Ht H2'.
  destruct H3 as [H3 Hj].
  destruct accepted; [reflexivity|].
  destruct (diverged s3 (to_size_t (c_m c + 1)) del (c_delp c)) eqn:Hd.
  - destruct ((miter s3 =? 0) || (jcur s3 =? 1)) eqn:Hm.
    + apply after_corfailure_corflag.
    + apply orb_false_iff in Hm; destruct Hm as [Hm1 Hm2].
      cbn [correction_body_post c_m c_obj].
      assert (Hmi : miter s3 = miter (c_obj c))
        by (unfold corr_frame in H3; congruence).
      split; [reflexivity|]. split; [reflexivity|].
      split; [exact H3|].
      split; [rewrite <- Hmi; lia|].
      subst due; destruct ((c_m c =? 0) && (ipup (c_obj c) >? 0)).
      * rewrite Hj in Hm2; discriminate.
      * split; [rewrite <- Hj; lia|].
        split; [reflexivity|].
        exists del; rewrite <- (diverged_frame _ _ _ _ _ H3); exact Hd.
  - cbn [correction_body_post c_m c_obj c_del c_delp].
    split; [reflexivity|]. split; [reflexivity|]. split; [exact H3|].
    split.
    + subst due; intros [H|H]; [|rewrite H in Hj; exact Hj].
      revert Hj; destruct ((c_m c =? 0) && (ipup (c_obj c) >? 0)); intros Hj; members; congruence.
    + rewrite <- (diverged_frame _ _ _ _ _ H3); exact Hd.
Qed.

Lemma after_corfailure_fields s y told rh ncf m del delp :
  let x := after_corfailure s y told rh ncf m del delp in
  (r_corflag x = 1 \/ r_corflag x = 2) /\ r_ncf x = to_size_t (ncf + 1) /\
  tn_ (r_obj x) = told /\ r_del x = del /\ r_m x = m.
Proof.
  unfold after_corfailure, corfailure; cbv zeta; break_if; cbn; auto 10.
Qed.

Lemma correction_body_cases pnorm told rh ncf c :
  match pass_iterate f c with
  | None =>
      exists x, correction_body f pnorm told rh ncf c = Failed x /\
                (r_corflag x = 1 \/ r_corflag x = 2) /\
                r_ncf x = to_size_t (ncf + 1) /\ tn_ (r_obj x) = told
  | Some (s, _, del) =>
      miter s = miter (c_obj c) /\ maxcor s = maxcor (c_obj c) /\
      jcur s = (if (c_m c =? 0) && (ipup (c_obj c) >? 0) then 1 else jcur (c_obj c)) /\
      pass_outcome pnorm told rh ncf c s del (correction_body f pnorm told rh ncf c)
  end.
Proof.
  unfold pass_iterate, correction_body.
  set (due := (c_m c =? 0) && (ipup (c_obj c) >? 0)).
  set (refreshed := if due then _ else _).
  assert (Hr : corr_frame (fst (fst refreshed)) = corr_frame (c_obj c) /\
               jcur (fst (fst refreshed)) = (if due then 1 else jcur (c_obj c))).
  { subst refreshed; destruct due; [|split; reflexivity].
    generalize (prja_frame (c_obj c) (c_y c)).
    destruct (prja f (c_obj c) (c_y c)) as [s1 y1]; auto. }
  destruct refreshed as [[s1 y1] singular]; simpl in Hr.
  destruct singular.
  { eexists; split; [reflexivity|].
    match goal with |- context [after_corfailure ?a ?b ?c ?d ?e ?g ?h ?i] =>
      pose proof (after_corfailure_fields a b c d e g h i) as H
    end.
    cbv zeta in H; tauto. }
  match goal with |- context [corrector_update ?s ?y] =>
    generalize (corrector_update_frame s y); destruct (corrector_update s y) as [[s2 y2] del]
  end.
  simpl; intros H2.
  assert (H2' : corr_frame s2 = corr_frame (c_obj c) /\
                jcur s2 = (if due then 1 else jcur (c_obj c))).
  { destruct H2 as [-> ->]; break_if; auto. }
  clear H2 Hr; destruct H2' as [Hf Hj].
  split; [unfold corr_frame in Hf; congruence|].
  split; [unfold corr_frame in Hf; congruence|].
  split; [exact Hj|].
  unfold pass_outcome, converged, diverged.
  destruct (del <=? 100 * pnorm * ETA)%float; cbn [orb].
  { eexists; split; [reflexivity|]; cbn; auto 10. }
  destruct (negb (c_m c =? 0)); cbn [orb andb]; cbv beta iota zeta; members.
  - destruct (_ <=? 1)%float.
    { eexists; split; [reflexivity|]; cbn; auto 10. }
    destruct ((to_size_t (c_m c + 1) =? maxcor s2)
              || (to_size_t (c_m c + 1) >=? 2) && fgt del (2 * c_delp c));
      [destruct ((miter s2 =? 0) || (jcur s2 =? 1))|].
    + eexists; split; [reflexivity|].
      match goal with |- context [after_corfailure ?a ?b ?c ?d ?e ?g ?h ?i] =>
        pose proof (after_corfailure_fields a b c d e g h i) as H
      end.
      cbv zeta in H; tauto.
    + eexists; split; [reflexivity|]; cbn; auto 10.
    + eexists; split; [reflexivity|]; cbn; auto 10.
  - destruct (negb (meth_ s2 =? 1)); cbn [andb]; cbv beta iota zeta.
    + destruct (_ <=? 1)%float.
      { eexists; split; [reflexivity|]; cbn; auto 10. }
      destruct ((to_size_t (c_m c + 1) =? maxcor s2)
                || (to_size_t (c_m c + 1) >=? 2) && fgt del (2 * c_delp c));
        [destruct ((miter s2 =? 0) || (jcur s2 =? 1))|].
      * eexists; split; [reflexivity|].
        match goal with |- context [after_corfailure ?a ?b ?c ?d ?e ?g ?h ?i] =>
          pose proof (after_corfailure_fields a b c d e g h i) as H
        end.
        cbv zeta in H; tauto.
      * eexists; split; [reflexivity|]; cbn; auto 10.
      * eexists; split; [reflexivity|]; cbn; auto 10.
    + destruct ((to_size_t (c_m c + 1) =? maxcor s2)
                || (to_size_t (c_m c + 1) >=? 2) && fgt del (2 * c_delp c));
        [destruct ((miter s2 =? 0) || (jcur s2 =? 1))|].
      * eexists; split; [reflexivity|].
        match goal with |- context [after_corfailure ?a ?b ?c ?d ?e ?g ?h ?i] =>
          pose proof (after_corfailure_fields a b c d e g h i) as H
        end.
        cbv zeta in H; tauto.
      * eexists; split; [reflexivity|]; cbn; auto 10.
      * eexists; split; [reflexivity|]; cbn; auto 10.
Qed.

Lemma restarts_settled fuel pnorm told rh ncf c :
  settled c -> restarts f fuel pnorm told rh ncf c = O.
Proof.
  revert c; induction fuel as [|fuel IH]; simpl; intros c Hc; [reflexivity|].
  pose proof (correction_body_spec pnorm told rh ncf c) as Hb.
  destruct (correction_body f pnorm told rh ncf c) as [r|r|c'|c']; simpl in Hb; auto.
  - destruct Hb as (_ & _ & _ & _ & Hj & Hdue & _).
    destruct Hc as [Hc|Hc]; congruence.
  - destruct Hb as (_ & _ & _ & Hj & _).
    apply IH; left; apply Hj, Hc.
Qed.

Lemma restarts_at_most_once fuel pnorm told rh ncf c :
  0 <= miter (c_obj c) -> (restarts f fuel pnorm told rh ncf c <= 1)%nat.
Proof.
  revert c; induction fuel as [|fuel IH]; simpl; intros c Hc; [lia|].
  pose proof (correction_body_spec pnorm told rh ncf c) as Hb.
  destruct (correction_body f pnorm told rh ncf c) as [r|r|c'|c']; simpl in Hb; try lia.
  - destruct Hb as (Hm & Hip & Hfr & Hmi & _).
    rewrite restarts_settled; [lia|].
    right; rewrite Hm, Hip.
    unfold corr_frame in Hfr; injection Hfr as Hfr _.
    apply andb_true_iff; split; [reflexivity|lia].
  - destruct Hb as (_ & _ & Hfr & _).
    apply IH. unfold corr_frame in Hfr; injection Hfr as Hfr _. lia.
Qed.
End Corrector.

Lemma static_illin s s' : static s' = static s -> illin s' = illin s.
Proof. unfold static; intros H; congruence. Qed.

Section Rejections.
Variable pow : double -> double -> double.
Variable f : double -> list double -> list double.

Lemma illegal_input_ok {A} (obj : A -> LSODA) k t m s y istate :
  block_a_message m = false -> illin s = k ->
  flow_ok obj k t (illegal_input m s y t istate).
Proof.
  intros Hm Hs; unfold illegal_input, terminate; members.
  destruct (illin s =? 5) eqn:E; cbn; (split; [exact Hm|]); intros Hk.
  - apply Z.eqb_eq in E; congruence.
  - subst k; auto.
Qed.

Lemma error_return_ok {A} (obj : A -> LSODA) k t m s y istate :
  flow_ok obj k t (error_return m s y istate).
Proof. exact I. Qed.

Lemma success_ok {A} (obj : A -> LSODA) k t s y itask ihit tcrit :
  flow_ok obj k t (success s y itask ihit tcrit).
Proof. exact I. Qed.

Lemma interpolated_return_ok {A} (obj : A -> LSODA) k t s y tout :
  flow_ok obj k t (@interpolated_return pow A s y tout).
Proof. unfold interpolated_return; destruct (intdy _ _ _ _ _) as [[s1 y1] fl]; exact I. Qed.

Lemma intdy_illin s t k dky : illin (fst (fst (intdy pow s t k dky))) = illin s.
Proof. unfold intdy; repeat break_if; reflexivity. Qed.

Lemma checked_interpolation_ok {A} (obj : A -> LSODA) k s y t tout istate :
  illin s = k -> flow_ok obj k t (@checked_interpolation pow A s y t tout istate).
Proof.
  intros Hs; unfold checked_interpolation.
  pose proof (intdy_illin s tout 0 y) as Hi.
  destruct (intdy _ _ _ _ _) as [[s1 y1] fl]; cbn [fst] in Hi.
  break_if; [|exact I].
  apply illegal_input_ok; [reflexivity|congruence].
Qed.

Lemma bind_ok {A B} (obj : A -> LSODA) (obj' : B -> LSODA) k t (x : flow A) (g : A -> flow B) :
  flow_ok obj k t x ->
  (forall a, illin (obj a) = k -> flow_ok obj' k t (g a)) ->
  flow_ok obj' k t (bind x g).
Proof. destruct x as [a|r]; simpl; auto. Qed.

Lemma bind_illegal_input {A B} m s y t istate (g : A -> flow B) :
  bind (illegal_input m s y t istate) g = illegal_input m s y t istate.
Proof. unfold illegal_input; destruct (terminate _ _); reflexivity. Qed.

Lemma bind_error_return {A B} m s y istate (g : A -> flow B) :
  bind (error_return m s y istate) g = error_return m s y istate.
Proof. unfold error_return; destruct (terminate2 _ _) as [[s1 y1] t1]; reflexivity. Qed.

Lemma ewset_illin s y : illin (ewset s y) = illin s.
Proof.
  unfold ewset; destruct (itol_ s) as [|p|p]; [reflexivity| |reflexivity].
  do 3 (try destruct p as [p|p|]; try reflexivity).
Qed.

Ltac setters :=
  cbn [illin set_ml set_mu set_imxer set_sqrteta set_el set_cm1 set_cm2
    set_elco set_tesco set_illin set_init set_ierpj set_iersl set_jcur set_l
    set_miter set_maxord set_maxcor set_msbp set_mxncf set_kflag set_jstart
    set_iret set_ixpr set_jtyp set_mused set_mxordn set_mxords set_meth_ set_n
    set_nq set_nst set_nfe set_nje set_nqu set_mxstep set_mxhnil set_nslast
    set_nhnil set_ntrep set_nyh set_ccmax set_el0 set_h_ set_hmin set_hmxi
    set_hu set_rc set_tn_ set_tsw set_pdnorm set_conit set_crate set_hold
    set_rmax set_ialth set_ipup set_lmax set_nslp set_pdest set_pdlast set_ratio
    set_icount set_irflag set_ewt set_savf set_acor set_yh_ set_wm_ set_ipvt
    set_itol_ set_rtol_ set_atol_ set_rcerr print fst snd].

(** Closes [illin s' = k] for [s'] made from a known object by
    assignments to other members. *)
Ltac same_illin :=
  lazymatch goal with
  | |- flow_ok _ _ _ (Go _) => cbn [flow_ok]
  | |- illin _ = _ => idtac
  end;
  repeat first [break_if | progress cbv zeta | progress setters | rewrite ewset_illin];
  first [reflexivity | assumption | congruence].

Ltac rejected :=
  first [ apply illegal_input_ok; [reflexivity|same_illin]
        | apply error_return_ok | apply success_ok | apply interpolated_return_ok
        | apply checked_interpolation_ok; same_illin ].

(** Names the next local variable of the code; when it is the object,
    records that [illin] is still [k]. *)
Ltac pull_let :=
  lazymatch goal with
  | |- flow_ok ?o ?k ?t (let x := ?v in @?b x) =>
      let x' := fresh "s" in
      change (let x' := v in flow_ok o k t (b x')); cbv beta; intros x';
      try (assert (illin x' = k) by (subst x'; same_illin));
      clearbody x'
  end.

Ltac pull_bind :=
  lazymatch goal with
  | |- flow_ok _ ?k ?t (bind ?x _) =>
      lazymatch type of x with
      | flow LSODA => apply (bind_ok (fun a => a))
      | flow (LSODA * _) => apply (bind_ok fst)
      | _ =>
          lazymatch goal with
          | H : illin ?s = k |- _ => apply (bind_ok (fun _ => s))
          end
      end;
      [|let a := fresh "a" in let Ha := fresh "Ha" in
        intros a Ha; try destruct a as [? ?]; cbn [fst] in Ha; cbv beta iota]
  end.

Ltac flow_step :=
  first [ pull_let | pull_bind | rejected | exact I | same_illin | break_if
        | match goal with
          | |- context [invert_ewt ?a ?b] => destruct (invert_ewt a b) as [? [?|]]
          | |- context [initial_step ?a ?b ?c ?d] => destruct (initial_step a b c d)
          end ].

Lemma block_b_ok s neq y t tout istate iopt jt iworks rworks :
  flow_ok fst (illin s) t (block_b s neq y t tout istate iopt jt iworks rworks).
Proof.
  pose proof (eq_refl : illin s = illin s) as Hs; cbv beta delta [block_b]; repeat flow_step.
Qed.

Lemma allocate_illin s : illin (fst (allocate s)) = illin s.
Proof. reflexivity. Qed.

Lemma check_tolerances_message s ix rtoli atoli m :
  check_tolerances s ix rtoli atoli = Some m -> block_a_message m = false.
Proof.
  revert rtoli atoli; induction ix as [|i ix IH]; simpl; intros rtoli atoli; [discriminate|].
  repeat break_if; first [apply IH | intros H; injection H as <-; reflexivity].
Qed.

Lemma block_c_ok s y t tout itask istate rworks h0 lenyh :
  flow_ok fst (illin s) t (block_c f s y t tout itask istate rworks h0 lenyh).
Proof.
  pose proof (eq_refl : illin s = illin s) as Hs; cbv beta delta [block_c]; repeat flow_step.
Qed.
Lemma block_d_ok s y t tout itask istate rworks :
  flow_ok (fun a => fst (fst a)) (illin s) t (block_d pow s y t tout itask istate rworks).
Proof.
  pose proof (eq_refl : illin s = illin s) as Hs; cbv beta delta [block_d].
  pull_let.
  destruct itask as [|p|p]; [same_illin| |same_illin].
  do 3 (try destruct p as [p|p|]; try same_illin); repeat flow_step.
Qed.

Lemma step_preamble_ok s y t istate :
  flow_ok (fun a => a) (illin s) t (step_preamble s y t istate).
Proof.
  pose proof (eq_refl : illin s = illin s) as Hs; cbv beta delta [step_preamble].
  repeat flow_step.
Qed.

Lemma block_f_ok s y t tout itask ihit tcrit :
  flow_ok fst (illin s) t (block_f pow s y tout itask ihit tcrit).
Proof.
  pose proof (eq_refl : illin s = illin s) as Hs; cbv beta delta [block_f].
  repeat flow_step.
Qed.

Lemma step_failure_ok k t s y : rejected_ok k t (step_failure s y).
Proof.
  unfold step_failure.
  destruct (for_up _ _ _ _) as [big imxer']; exact I.
Qed.

Lemma lsoda_pass_ok fuel s neq y t tout itask istate ihit tcrit :
  flow_ok (fun a => fst (fst a)) (illin s) t
    (lsoda_pass pow f fuel s neq y t tout itask istate ihit tcrit).
Proof.
  unfold lsoda_pass.
  apply (bind_ok (fun a => a)); [apply step_preamble_ok|].
  intros s1 H1.
  pose proof (stoda_static pow f fuel s1 neq y) as Hst.
  destruct (stoda pow f fuel s1 neq y) as [[s2 y2]|s2|]; try exact I.
  specialize (Hst s2 y2 eq_refl); apply static_illin in Hst.
  apply (bind_ok fst).
  - break_if; [|cbn; congruence].
    rewrite <- H1, <- Hst; apply block_f_ok.
  - intros [s3 ihit3] H3; cbn [fst] in H3.
    break_if; [apply step_failure_ok|exact H3].
Qed.

Lemma lsoda_loop_ok fuel passes k s neq y t tout itask istate ihit tcrit :
  illin s = k ->
  rejected_ok k t (lsoda_loop pow f fuel passes s neq y t tout itask istate ihit tcrit).
Proof.
  revert s y ihit; induction passes as [|passes IH]; intros s y ihit Hs; [exact I|].
  simpl.
  pose proof (lsoda_pass_ok fuel s neq y t tout itask istate ihit tcrit) as Hp.
  rewrite Hs in Hp.
  destruct (lsoda_pass _ _ _ _ _ _ _ _ _ _ _ _) as [[[s1 y1] ihit1]|r]; simpl in Hp; auto.
Qed.
Lemma block_a_cases s y t itask istate :
  block_a s y t itask istate = Go s \/
  exists m, block_a_message m = true /\
            block_a s y t itask istate = illegal_input m s y t istate.
Proof.
  unfold block_a; repeat break_if; auto; right.
  - exists illegal_istate; auto.
  - exists illegal_itask; auto.
  - exists not_initialized; auto.
Qed.

Lemma lsoda_prologue_ok s neq y t tout itask istate iopt jt iworks rworks :
  block_a s y t itask istate = Go s ->
  flow_ok (fun a => fst (fst a)) (illin s) t
    (lsoda_prologue pow f s neq y t tout itask istate iopt jt iworks rworks).
Proof.
  intros Ha; unfold lsoda_prologue; rewrite Ha; cbn [bind].
  apply (bind_ok fst); [apply block_b_ok|].
  intros [s1 h0] H1; cbn [fst] in H1.
  assert (H2 : illin (fst (if istate =? 1 then allocate s1 else (s1, 0))) = illin s)
    by (break_if; auto).
  destruct (if istate =? 1 then allocate s1 else (s1, 0)) as [s2 lenyh]; cbn [fst] in H2.
  apply (bind_ok (fun a => a)).
  { break_if; [|exact H2].
    destruct (check_tolerances _ _ _ _) as [m|] eqn:Hc; [|exact H2].
    apply illegal_input_ok; [apply (check_tolerances_message _ _ _ _ _ Hc)|exact H2]. }
  intros s3 H3.
  assert (H4 : illin (if istate =? 3 then set_jstart (-1) s3 else s3) = illin s)
    by (break_if; auto).
  revert H4; generalize (if istate =? 3 then set_jstart (-1) s3 else s3); intros s4 H4.
  apply (bind_ok fst).
  { break_if; [|exact H4]. rewrite <- H4; apply block_c_ok. }
  intros [s5 tcrit] H5; cbn [fst] in H5.
  break_if; [|exact H5].
  rewrite <- H5; apply block_d_ok.
Qed.

Lemma lsoda_ok fuel s neq y t tout itask istate iopt jt iworks rworks :
  block_a s y t itask istate = Go s ->
  rejected_ok (illin s) t
    (lsoda pow f fuel s neq y t tout itask istate iopt jt iworks rworks).
Proof.
  intros Ha; unfold lsoda; break_if; [exact I|].
  pose proof (lsoda_prologue_ok s neq y t tout itask istate iopt jt iworks rworks Ha) as Hp.
  destruct (lsoda_prologue _ _ _ _ _ _ _ _ _ _ _ _ _) as [[[s1 ihit] tcrit]|r]; simpl in Hp; auto.
  apply lsoda_loop_ok; exact Hp.
Qed.

(** C3: a call of [lsoda] that returns through [terminate] and was
    entered with [illin != 5] has increased [illin] by one (as a
    [size_t]), returns [*istate = -3] and leaves [*t] as it was; after
    a rejection in block a the object is changed in nothing but
    [illin] and the message printed, and [y] is unchanged. *)
Theorem lsoda_illegal_input fuel s neq y t tout itask istate iopt jt iworks rworks
    m s' y' t' istate' :
  lsoda pow f fuel s neq y t tout itask istate iopt jt iworks rworks
    = Done (via_terminate m, s', y', t', istate') ->
  illin s <> 5 ->
  illin s' = to_size_t (illin s + 1) /\ istate' = -3 /\ t' = t /\
  (block_a_message m = true ->
   s' = set_illin (to_size_t (illin s + 1)) (print m s) /\ y' = y).
Proof.
  intros H Hk.
  destruct (block_a_cases s y t itask istate) as [Ha|(m0 & Hm0 & Ha)].
  - pose proof (lsoda_ok fuel s neq y t tout itask istate iopt jt iworks rworks Ha) as Hr.
    rewrite H in Hr; cbn [rejected_ok] in Hr; destruct Hr as [Hm Hr]; destruct (Hr Hk) as (H1 & H2 & H3).
    split; [exact H1|split; [exact H2|split; [exact H3|intros Hm'; congruence]]].
  - revert H; unfold lsoda; break_if; [discriminate|].
    unfold lsoda_prologue; rewrite Ha, bind_illegal_input.
    unfold illegal_input, terminate.
    replace (illin (print m0 s) =? 5) with false
      by (symmetry; apply Z.eqb_neq; exact Hk).
    intros H; injection H as <- <- <- <- <-.
    repeat split; reflexivity.
Qed.
End Rejections.

Section Initialization.
Variable f : double -> list double -> list double.

Lemma ewset_maxcor s y : maxcor (ewset s y) = maxcor s.
Proof.
  unfold ewset; destruct (itol_ s) as [|p|p]; [reflexivity| |reflexivity].
  do 3 (try destruct p as [p|p|]; try reflexivity).
Qed.

Lemma bind_Go {A B} (a : A) (g : A -> flow B) : bind (Go a) g = g a.
Proof. reflexivity. Qed.

Lemma go_post_illegal_input {A} (P : A -> Prop) m s y t istate :
  go_post P (illegal_input m s y t istate).
Proof. unfold illegal_input; destruct (terminate _ _); exact I. Qed.

Lemma go_post_error_return {A} (P : A -> Prop) m s y istate :
  go_post P (error_return m s y istate).
Proof. unfold error_return; destruct (terminate2 _ _) as [[s1 y1] t1]; exact I. Qed.

Ltac maxcor_step :=
  first
    [ lazymatch goal with
      | |- go_post ?P (let x := ?v in @?b x) =>
          let x' := fresh "s" in
          change (let x' := v in go_post P (b x')); cbv beta; intros x';
          try (assert (maxcor x' = 3)
                 by (subst x'; cbn [maxcor set_tn_ set_tsw set_maxord set_jstart set_nhnil
                       set_nst set_nje set_nslast set_hu set_nqu set_mused set_miter
                       set_ccmax set_maxcor set_msbp set_mxncf set_yh_ set_nfe set_nq
                       set_h_ set_ewt];
                     rewrite ?ewset_maxcor; first [reflexivity | assumption]));
          clearbody x'
      | |- go_post _ (bind ?x _) =>
          first [destruct x as [[? ?]|?] | destruct x as [?|?]];
          [rewrite bind_Go; cbv beta iota|exact I]
      | |- go_post _ (Go _) => cbn [go_post fst]; assumption
      | |- go_post _ (Return _) => exact I
      end
    | apply go_post_illegal_input | apply go_post_error_return
    | break_if
    | match goal with
      | |- context [invert_ewt ?a ?b] => destruct (invert_ewt a b) as [? [?|]]
      end ].

Lemma block_c_maxcor s y t tout itask istate rworks h0 lenyh :
  go_post (fun a => maxcor (fst a) = 3)
    (block_c f s y t tout itask istate rworks h0 lenyh).
Proof.
  cbv beta delta [block_c]; repeat maxcor_step.
Qed.
End Initialization.

(** * The claims *)

(** ** The pivot search *)

(** C1: [idamax1] does not return an index of largest magnitude.  Its
    locals [v] and [vmax] are [size_t], so magnitudes below 1 all become
    0: on the entries 0.25 and 0.5 it returns index 1 although the
    second entry is larger in magnitude, and [dgefa] records that index
    as the pivot of its first elimination step. *)
Theorem idamax1_truncates_magnitudes :
  idamax1 [0; 0.25; 0.5]%float 2 0 = 1 /\
  (abs 0.25 <? abs 0.5)%float = true /\
  vget 0 (snd (fst (dgefa [[0; 0; 0]; [0; 0.25; 0.5]; [0; 1; 1]]%float 2 [0; 0; 0]))) 1 = 1.
Proof. vm_compute; auto. Qed.

(** ** Error weights *)

(** C2: on the initial call a non-positive error weight makes [lsoda]
    return through [terminate2] with [*istate] as the caller passed it:
    with [rtol = atol = 0] and [y = 0] the first call returns
    [*istate = 1], which is not negative.  (The same test in the
    integration loop sets [*istate = -6].) *)
Theorem lsoda_zero_weight_on_initial_call :
  exists s',
    lsoda_function no_pow zero_rhs 1 LSODA_new 1 [0%float] 0%float 1%float 1 0%float 0%float
    = Done (via_terminate2 (ewt_nonpositive 1), s', [0%float], 0%float, 1).
Proof. eexists; vm_compute; reflexivity. Qed.

(** ** Successful returns *)

(** C4: [successreturn] copies row 1 of the history [yh_] of the object
    into [y[1 .. n]] and leaves the other elements of [y] alone; it
    returns [tn_] as [*t], or [tcrit] when [itask] is 4 or 5 and [ihit]
    is set; it returns [*istate = 2]; and it zeroes [illin] and changes
    nothing else in the object. *)
Theorem successreturn_spec (s : LSODA) (y : list double) (itask ihit : Z) (tcrit : double) :
  n s < Z.of_nat (length y) ->
  let '(s', y', t', istate') := successreturn s y itask ihit tcrit in
  (forall i, 1 <= i <= n s -> y'.[i] = (yh_ s).[1, i]) /\
  (forall i, 0 <= i -> ~ 1 <= i <= n s -> y'.[i] = y.[i]) /\
  length y' = length y /\
  t' = (if ((itask =? 4) || (itask =? 5)) && negb (ihit =? 0) then tcrit else tn_ s) /\
  istate' = 2 /\
  s' = set_illin 0 s /\
  illin s' = 0.
Proof.
  intros Hlen; unfold successreturn; cbv zeta.
  split; [|split; [|split; [|split; [|split; [|split]]]]]; try reflexivity.
  - intros i Hi.
    apply (for_up_assign_at 0%float (fun i _ => (yh_ s).[1, i])); lia.
  - intros i Hi Hn.
    apply (for_up_assign_other 0%float (fun i _ => (yh_ s).[1, i])); assumption.
  - apply (length_for_up_assign 0%float (fun i _ => (yh_ s).[1, i])).
  - destruct ((itask =? 4) || (itask =? 5)), (negb (ihit =? 0)); reflexivity.
Qed.

Lemma successreturn_spec_witness :
  n sample_object < Z.of_nat (length [0; 7]%float) /\
  let '(s', y', t', istate') := successreturn sample_object [0; 7]%float 4 1 7%float in
  (forall i, 1 <= i <= n sample_object -> y'.[i] = (yh_ sample_object).[1, i]) /\
  (forall i, 0 <= i -> ~ 1 <= i <= n sample_object -> y'.[i] = [0; 7]%float.[i]) /\
  length y' = length [0; 7]%float /\
  t' = (if ((4 =? 4) || (4 =? 5)) && negb (1 =? 0) then 7%float else tn_ sample_object) /\
  istate' = 2 /\
  s' = set_illin 0 sample_object /\
  illin s' = 0.
Proof.
  assert (H : n sample_object < Z.of_nat (length [0; 7]%float)) by (vm_compute; reflexivity).
  split; [exact H|].
  exact (successreturn_spec sample_object [0; 7]%float 4 1 7%float H).
Defined.

(** ** The rejection of a step *)

(** C5: in an arithmetic where subtracting what was added gives back the
    value, the rejection loops (the loops of the prediction with [-=])
    return the whole array [yh_] to what it was before the prediction,
    for every order and dimension; [stoda_restore], which a failed error
    test runs, applies exactly those loops to [yh_] and sets [tn_] to
    [told], and [stoda_predict] applies the prediction loops. *)
Theorem retract_undoes_predict {D : Type} (d0 : D) (add sub : D -> D -> D) :
  (forall a b, sub (add a b) b = a) ->
  (forall nq n yh, retract d0 sub nq n (predict d0 add nq n yh) = yh) /\
  (forall s told,
     tn_ (stoda_restore s told) = told /\
     yh_ (stoda_restore s told) = retract 0%float PrimFloat.sub (nq s) (n s) (yh_ s)) /\
  (forall s,
     yh_ (stoda_predict s) = predict 0%float PrimFloat.add (nq s) (n s) (yh_ s) /\
     nq (stoda_predict s) = nq s /\ n (stoda_predict s) = n s).
Proof.
  intros Hsub; split; [|split].
  - intros nq n yh; apply retract_predict; exact Hsub.
  - intros s told; split; reflexivity.
  - intros s; repeat split; reflexivity.
Qed.

Lemma retract_undoes_predict_witness :
  (forall a b, a + b - b = a) /\
  retract 0 Z.sub 2 2 (predict 0 Z.add 2 2 [[0; 0; 0]; [0; 1; 2]; [0; 3; 4]; [0; 5; 6]])
  = [[0; 0; 0]; [0; 1; 2]; [0; 3; 4]; [0; 5; 6]].
Proof.
  split; [exact Z.add_simpl_r|].
  exact (proj1 (retract_undoes_predict 0 Z.add Z.sub Z.add_simpl_r) 2 2
           [[0; 0; 0]; [0; 1; 2]; [0; 3; 4]; [0; 5; 6]]).
Defined.

(** ** The interface *)

(** C10: when [tout <= *t], [lsoda] stops ([Rcpp::stop]) with the object
    untouched and nothing printed, and [lsoda_function] stops after it
    has set the tolerances; neither returns a status. *)
Theorem lsoda_stops_unless_tout_after_t (pow : double -> double -> double)
    (f : double -> list double -> list double) (fuel : nat) (s : LSODA) (neq : Z)
    (y : list double) (t tout : double) (itask istate iopt jt : Z) (iworks : list Z)
    (rworks : list double) (rtol atol : double) :
  (tout <=? t)%float = true ->
  lsoda pow f fuel s neq y t tout itask istate iopt jt iworks rworks = Stopped s /\
  lsoda_function pow f fuel s neq y t tout istate rtol atol
  = Stopped (set_tolerances s neq rtol atol).
Proof.
  intros H; apply leb_not_fgt in H.
  unfold lsoda_function, lsoda; rewrite H; split; reflexivity.
Qed.

Lemma lsoda_stops_unless_tout_after_t_witness :
  (1 <=? 1)%float = true /\
  lsoda no_pow zero_rhs 1 LSODA_new 1 [0%float] 1%float 1%float 1 1 0 2 [] []
  = Stopped LSODA_new /\
  lsoda_function no_pow zero_rhs 1 LSODA_new 1 [0%float] 1%float 1%float 1 0%float 1%float
  = Stopped (set_tolerances LSODA_new 1 0%float 1%float).
Proof.
  split; [reflexivity|].
  exact (lsoda_stops_unless_tout_after_t no_pow zero_rhs 1 LSODA_new 1 [0%float]
           1%float 1%float 1 1 0 2 [] [] 0%float 1%float eq_refl).
Defined.

(** ** The corrector *)

(** C7: the test made after [m] is incremented holds exactly when [m]
    has reached [maxcor], or [m >= 2] and [del > 2 * delp]; [maxcor] is
    3 after block c.  A pass through the loop of [correction] that has
    computed its iterate and has not converged does what that test
    says: when the test holds and [miter = 0] or [jcur = 1] it returns
    through [corfailure], with [corflag] 1 or 2, [ncf] incremented and
    [tn_] back at [told]; when the test holds and [miter != 0] and
    [jcur != 1] it restarts with [m = 0], [del = 0], [ipup = miter] and
    one more evaluation of [f]; when the test fails it goes on to the
    next iteration with [m] incremented and [delp = del]; a pass whose
    matrix turned out singular returns through [corfailure] as well.
    Conversely a pass that restarts has met the test with [miter != 0]
    and [jcur != 1], a pass that goes on has not met it, and one that
    converges leaves [corflag = 0].  With [miter] not negative, a call
    of [correction] restarts at most once, however many passes it
    makes. *)
Theorem correction_divergence (f : double -> list double -> list double)
    (pnorm told rh : double) (ncf : Z) (c : corr_state) :
  (forall s m del delp,
     diverged s m del delp = true <->
     m = maxcor s \/ (m >= 2 /\ fgt del (2 * delp) = true)) /\
  (forall s y t tout itask istate rworks h0 lenyh s' tcrit,
     block_c f s y t tout itask istate rworks h0 lenyh = Go (s', tcrit) -> maxcor s' = 3) /\
  match pass_iterate f c with
  | None =>
      exists x, correction_body f pnorm told rh ncf c = Failed x /\
                (r_corflag x = 1 \/ r_corflag x = 2) /\
                r_ncf x = to_size_t (ncf + 1) /\ tn_ (r_obj x) = told
  | Some (s, _, del) =>
      miter s = miter (c_obj c) /\ maxcor s = maxcor (c_obj c) /\
      jcur s = (if (c_m c =? 0) && (ipup (c_obj c) >? 0) then 1 else jcur (c_obj c)) /\
      pass_outcome pnorm told rh ncf c s del (correction_body f pnorm told rh ncf c)
  end /\
  match correction_body f pnorm told rh ncf c with
  | Converged r => r_corflag r = 0
  | Failed r => r_corflag r = 1 \/ r_corflag r = 2
  | Restart c' =>
      (exists del, diverged (c_obj c) (to_size_t (c_m c + 1)) del (c_delp c) = true) /\
      miter (c_obj c) <> 0 /\ jcur (c_obj c) <> 1 /\
      (c_m c =? 0) && (ipup (c_obj c) >? 0) = false /\
      c_m c' = 0 /\ ipup (c_obj c') = miter (c_obj c') /\
      miter (c_obj c') = miter (c_obj c)
  | Iterate c' =>
      c_m c' = to_size_t (c_m c + 1) /\
      diverged (c_obj c) (c_m c') (c_del c') (c_delp c) = false
  end /\
  (forall fuel s y delp,
     0 <= miter s ->
     (restarts f fuel pnorm told rh ncf (correction_entry f s y delp) <= 1)%nat).
Proof.
  split; [|split; [|split; [|split]]].
  - intros s m del delp; unfold diverged.
    rewrite orb_true_iff, andb_true_iff, Z.eqb_eq, Z.geb_le; intuition lia.
  - intros s y t tout itask istate rworks h0 lenyh s' tcrit H.
    pose proof (block_c_maxcor f s y t tout itask istate rworks h0 lenyh) as G.
    rewrite H in G; exact G.
  - exact (correction_body_cases f pnorm told rh ncf c).
  - pose proof (correction_body_spec f pnorm told rh ncf c) as H.
    destruct (correction_body f pnorm told rh ncf c) as [r|r|c'|c'];
      cbn [correction_body_post] in H; auto.
    + destruct H as (Hm & Hip & Hfr & Hmi & Hj & Hdue & Hd).
      unfold corr_frame in Hfr; injection Hfr as Hfr _.
      repeat split; auto.
    + destruct H as (Hm & _ & _ & _ & Hd); split; auto.
  - intros fuel s y delp H; apply restarts_at_most_once; exact H.
Qed.

Lemma correction_divergence_witness :
  0 <= miter stale_matrix_object /\
  (restarts stiff_rhs 7 0 0 1 0 first_iteration <= 1)%nat /\
  restarts stiff_rhs 7 0 0 1 0 first_iteration = 1%nat /\
  exists c', correction_body stiff_rhs 0 0 1 0 second_iteration = Restart c' /\
             c_m c' = 0 /\ c_del c' = 0%float /\ ipup (c_obj c') = 2.
Proof.
  assert (H : 0 <= miter stale_matrix_object) by (vm_compute; discriminate).
  destruct (correction_divergence stiff_rhs 0 0 1 0 second_iteration)
    as (_ & _ & Hpass & _ & Honce).
  split; [exact H|].
  split; [exact (Honce 7%nat stale_matrix_object [0; 0]%float 0%float H)|].
  split; [vm_compute; reflexivity|].
  revert Hpass; generalize (correction_body stiff_rhs 0 0 1 0 second_iteration); intros r.
  vm_compute.
  intros (_ & _ & _ & c' & E & Hm & Hdel & _ & _ & Hip & _).
  exists c'; repeat split; assumption.
Defined.

(** ** The order *)

(** C8: the order can exceed the maximum order of the active family.
    For every [pow] that is 0 at base 0 and 1 at base 1 for the
    exponents 1/2, 1/3 and 1/4, the calls of [switch_run] all return
    with [*istate = 2], and after the last one the stiff family is
    active ([meth_ = 2]) with [mxords = 1] and [maxord = 1], while
    [nq = 2] and [l = 3].  The call before the last entered with
    [jstart = -1], set after the method switch, and replaced it by -2
    because the step would pass [tcrit]; so [stoda] did not take the
    new [maxord] into [lmax], which is still [mxordn + 1 = 13]. *)
Theorem order_exceeds_mxords_after_switch (pow : double -> double -> double) :
  pow 0%float (1 / 2)%float = 0%float ->
  pow 0%float (1 / 3)%float = 0%float ->
  pow 0%float (1 / 4)%float = 0%float ->
  pow 1%float (1 / 2)%float = 1%float ->
  match switch_run pow with
  | Some (s, _, _, istate) =>
      istate = 2 /\ kflag s = 0 /\ meth_ s = 2 /\ mxordn s = 12 /\ mxords s = 1 /\
      maxord s = 1 /\ lmax s = 13 /\ nq s = 2 /\ l s = 3
  | None => False
  end.
Proof.
  intros H1 H2 H3 H4.
  assert (E : pow = pow_at_units pow).
  { apply functional_extensionality; intros x.
    apply functional_extensionality; intros y.
    unfold pow_at_units.
    destruct (PrimFloat.Leibniz.eqb x 0) eqn:Ex0, (PrimFloat.Leibniz.eqb x 1) eqn:Ex1,
      (PrimFloat.Leibniz.eqb y (1 / 2)) eqn:Ey2, (PrimFloat.Leibniz.eqb y (1 / 3)) eqn:Ey3,
      (PrimFloat.Leibniz.eqb y (1 / 4)) eqn:Ey4;
      cbn [andb]; try reflexivity;
      repeat match goal with
      | H : PrimFloat.Leibniz.eqb _ _ = true |- _ => apply FloatAxioms.Leibniz.eqb_spec in H
      end;
      congruence. }
  rewrite E; vm_compute; repeat split; reflexivity.
Qed.

Lemma order_exceeds_mxords_after_switch_witness :
  match switch_run unit_pow with
  | Some (s, _, _, istate) =>
      istate = 2 /\ kflag s = 0 /\ meth_ s = 2 /\ mxordn s = 12 /\ mxords s = 1 /\
      maxord s = 1 /\ lmax s = 13 /\ nq s = 2 /\ l s = 3
  | None => False
  end.
Proof.
  exact (order_exceeds_mxords_after_switch unit_pow eq_refl eq_refl eq_refl eq_refl).
Defined.


(** C6: [intdy] does not return [*iflag] negative for every [t] out of
    bounds.  With [tn_ = 0] and [hu = 0] the interval is the single
    point 0 ([tfuzz = 0], [tp = tn1 = 0]); [t = 2^-600] lies to its
    right and [k = 0] is in range, yet [intdy] returns [*iflag = 0]:
    the product of the two tiny differences underflows to 0, and the
    test [(t - tp) * (t - tn1) > 0.] fails. *)
Lemma intdy_accepts_t_outside_interval :
  snd (intdy no_pow unstepped_object 0x1p-600%float 0 [0; 0]%float) = 0 /\
  (tn_ unstepped_object
   + 100 * ETA * sign (abs (tn_ unstepped_object) + abs (hu unstepped_object))
                   (hu unstepped_object) <? 0x1p-600)%float = true /\
  0 <= 0 <= to_int (nq unstepped_object).
Proof. vm_compute; repeat split; discriminate. Qed.

Lemma lsoda_illegal_input_witness :
  lsoda no_pow zero_rhs 1 LSODA_new 1 [0; 0]%float 0%float 1%float 1 0 0 2 [] []
  = Done (via_terminate illegal_istate, set_illin 1 (print illegal_istate LSODA_new),
          [0; 0]%float, 0%float, -3) /\
  illin LSODA_new <> 5 /\
  illin (set_illin 1 (print illegal_istate LSODA_new)) = to_size_t (illin LSODA_new + 1) /\
  -3 = -3 /\ 0%float = 0%float /\
  (block_a_message illegal_istate = true ->
   set_illin 1 (print illegal_istate LSODA_new)
   = set_illin (to_size_t (illin LSODA_new + 1)) (print illegal_istate LSODA_new) /\
   [0; 0]%float = [0; 0]%float).
Proof.
  assert (H1 : lsoda no_pow zero_rhs 1 LSODA_new 1 [0; 0]%float 0%float 1%float 1 0 0 2 [] []
               = Done (via_terminate illegal_istate,
                       set_illin 1 (print illegal_istate LSODA_new),
                       [0; 0]%float, 0%float, -3)) by (vm_compute; reflexivity).
  assert (H2 : illin LSODA_new <> 5) by (vm_compute; discriminate).
  split; [exact H1|split; [exact H2|]].
  exact (lsoda_illegal_input no_pow zero_rhs 1 LSODA_new 1 [0; 0]%float 0%float 1%float
           1 0 0 2 [] [] illegal_istate _ _ _ _ H1 H2).
Defined.

(** C3, counterexample: after a first call for two equations, a call
    with [*istate = 3], [neq = 1] and the illegal [iopt = 7] is rejected
    with [illin] raised from 0 to 1 and [*istate = -3], and leaves [n]
    changed from 2 to 1. *)
Lemma lsoda_illegal_iopt_changes_n :
  exists s1 y1 t1 s2,
    lsoda_function unit_pow zero_rhs 100 LSODA_new 2 [0; 0]%float 0%float 1%float 1
      0%float 1%float
    = Done (via_intdy, s1, y1, t1, 2) /\
    lsoda unit_pow zero_rhs 100 s1 1 (0%float :: y1) t1 2%float 1 3 7 2
      [0; 0; 0; 0; 0; 0; 0] [0; 0; 0; 0]%float
    = Done (via_terminate illegal_iopt, s2, 0%float :: y1, t1, -3) /\
    illin s1 = 0 /\ illin s2 = 1 /\ n s1 = 2 /\ n s2 = 1.
Proof.
  do 4 eexists.
  split; [vm_compute; reflexivity|].
  split; [vm_compute; reflexivity|].
  vm_compute; repeat split; reflexivity.
Qed.

(** * The returns of [lsoda] *)

Section Returns.
Variable pow : double -> double -> double.
Variable f : double -> list double -> list double.

Lemma illegal_input_returns (itask istate : Z) (tout : double) {A} m s y t :
  @return_post A (return_protocol itask istate tout) (illegal_input m s y t istate).
Proof.
  unfold illegal_input, terminate; simpl.
  destruct (illin s =? 5) eqn:E; simpl; [right|left; reflexivity].
  apply Z.eqb_eq in E; auto.
Qed.

Lemma error_return_returns (itask istate : Z) (tout : double) {A} m s y istate' :
  terminate2_code istate m istate' ->
  @return_post A (return_protocol itask istate tout) (error_return m s y istate').
Proof. intros H; cbn; auto. Qed.

Lemma success_returns (itask istate : Z) (tout : double) {A} s y ihit tcrit :
  2 <= itask <= 5 ->
  @return_post A (return_protocol itask istate tout) (success s y itask ihit tcrit).
Proof. intros H; cbn; auto. Qed.

Lemma interpolated_return_returns (itask istate : Z) (tout : double) {A} s y :
  itask = 1 \/ itask = 4 ->
  @return_post A (return_protocol itask istate tout) (@interpolated_return pow A s y tout).
Proof.
  intros H; unfold interpolated_return.
  destruct (intdy _ _ _ _ _) as [[s1 y1] fl]; cbn; auto.
Qed.

Lemma checked_interpolation_returns (itask istate : Z) (tout : double) {A} s y t :
  itask = 1 \/ itask = 4 ->
  @return_post A (return_protocol itask istate tout) (@checked_interpolation pow A s y t tout istate).
Proof.
  intros H; unfold checked_interpolation.
  destruct (intdy _ _ _ _ _) as [[s1 y1] fl].
  break_if; [apply illegal_input_returns|cbn; auto].
Qed.

Lemma return_bind (itask istate : Z) (tout : double) {A B} (x : flow A) (g : A -> flow B) :
  return_post (return_protocol itask istate tout) x ->
  (forall a, return_post (return_protocol itask istate tout) (g a)) ->
  return_post (return_protocol itask istate tout) (bind x g).
Proof. destruct x as [a|r]; simpl; auto. Qed.

Ltac eqb_facts :=
  repeat match goal with
  | H : (_ =? _) = true |- _ => apply Z.eqb_eq in H
  | H : (_ =? _) = false |- _ => apply Z.eqb_neq in H
  | H : negb _ = true |- _ => apply negb_true_iff in H
  | H : negb _ = false |- _ => apply negb_false_iff in H
  end.

Ltac returns_step :=
  first
    [ lazymatch goal with
      | |- return_post ?R (let x := ?v in @?b x) =>
          let x' := fresh "v" in
          change (let x' := v in return_post R (b x')); cbv beta; intros x'; clearbody x'
      | |- return_post _ (bind _ _) =>
          apply return_bind; [|let a := fresh "a" in intros a; repeat destruct a as [a ?]; cbv beta iota]
      | |- return_post _ (Go _) => exact I
      | |- return_post _ (Return OutOfFuel) => exact I
      | |- return_post _ (Return (Stopped _)) => exact I
      end
    | apply illegal_input_returns
    | apply error_return_returns; cbn; solve [auto | eqb_facts; auto]
    | apply success_returns; eqb_facts; lia
    | apply interpolated_return_returns; eqb_facts; lia
    | apply checked_interpolation_returns; eqb_facts; lia
    | match goal with
      | |- context [if ?b then _ else _] => let E := fresh "E" in destruct b eqn:E
      | |- context [invert_ewt ?a ?b] => destruct (invert_ewt a b) as [? [?|]]
      | |- context [initial_step ?a ?b ?c ?d] => destruct (initial_step a b c d)
      | |- context [check_tolerances ?a ?b ?c ?d] => destruct (check_tolerances a b c d)
      end ].

Lemma block_a_returns (itask istate : Z) (tout : double) s y t :
  return_post (return_protocol itask istate tout) (block_a s y t itask istate).
Proof. cbv beta delta [block_a]; repeat returns_step. Qed.

Lemma block_b_returns (itask istate : Z) (tout : double) s neq y t iopt jt iworks rworks :
  return_post (return_protocol itask istate tout) (block_b s neq y t tout istate iopt jt iworks rworks).
Proof. cbv beta delta [block_b]; repeat returns_step. Qed.

Lemma block_c_returns (itask istate : Z) (tout : double) s y t rworks h0 lenyh :
  istate = 1 ->
  return_post (return_protocol itask istate tout) (block_c f s y t tout itask istate rworks h0 lenyh).
Proof. intros H1; cbv beta delta [block_c]; repeat returns_step. Qed.

Lemma block_d_returns (itask istate : Z) (tout : double) s y t rworks :
  return_post (return_protocol itask istate tout) (block_d pow s y t tout itask istate rworks).
Proof.
  cbv beta delta [block_d]; returns_step.
  destruct itask as [|p|p]; try exact I.
  do 3 (try destruct p as [p|p|]; try exact I); repeat returns_step.
Qed.

Lemma step_preamble_returns (itask istate : Z) (tout : double) s y t :
  return_post (return_protocol itask istate tout) (step_preamble s y t istate).
Proof. cbv beta delta [step_preamble]; repeat returns_step. Qed.

Lemma block_f_returns (itask istate : Z) (tout : double) s y ihit tcrit :
  return_post (return_protocol itask istate tout) (block_f pow s y tout itask ihit tcrit).
Proof. cbv beta delta [block_f]; repeat returns_step. Qed.

Lemma step_failure_returns (itask istate : Z) (tout : double) s y :
  return_protocol itask istate tout (step_failure s y).
Proof.
  unfold step_failure.
  destruct (for_up _ _ _ _) as [big imxer']; cbn.
  repeat split; destruct (kflag _ =? -2); cbn; auto.
Qed.

Lemma lsoda_pass_returns (itask istate : Z) (tout : double) fuel s neq y t ihit tcrit :
  return_post (return_protocol itask istate tout)
    (lsoda_pass pow f fuel s neq y t tout itask istate ihit tcrit).
Proof.
  unfold lsoda_pass.
  apply return_bind; [apply step_preamble_returns|intros s1].
  destruct (stoda pow f fuel s1 neq y) as [[s2 y2]|s2|]; try exact I.
  apply return_bind.
  - break_if; [apply block_f_returns|exact I].
  - intros [s3 ihit3]; break_if; [apply step_failure_returns|exact I].
Qed.

Lemma lsoda_loop_returns (itask istate : Z) (tout : double) fuel passes s neq y t ihit tcrit :
  return_protocol itask istate tout
    (lsoda_loop pow f fuel passes s neq y t tout itask istate ihit tcrit).
Proof.
  revert s y ihit; induction passes as [|passes IH]; intros s y ihit; [exact I|].
  simpl.
  pose proof (lsoda_pass_returns itask istate tout fuel s neq y t ihit tcrit) as Hp.
  destruct (lsoda_pass _ _ _ _ _ _ _ _ _ _ _ _) as [[[s1 y1] ihit1]|r]; simpl in Hp; auto.
Qed.

Lemma lsoda_prologue_returns (itask istate : Z) (tout : double) s neq y t iopt jt iworks rworks :
  return_post (return_protocol itask istate tout)
    (lsoda_prologue pow f s neq y t tout itask istate iopt jt iworks rworks).
Proof.
  unfold lsoda_prologue.
  apply return_bind; [apply block_a_returns|intros s0].
  apply return_bind; [apply block_b_returns|intros [s1 h0]].
  destruct (if istate =? 1 then allocate s1 else (s1, 0)) as [s2 lenyh].
  apply return_bind.
  { break_if; [|exact I].
    destruct (check_tolerances _ _ _ _) as [m|]; [apply illegal_input_returns|exact I]. }
  intros s3.
  generalize (if istate =? 3 then set_jstart (-1) s3 else s3); intros s4.
  apply return_bind.
  { destruct (istate =? 1) eqn:E; [|exact I].
    apply block_c_returns, Z.eqb_eq, E. }
  intros [s5 tcrit].
  break_if; [apply block_d_returns|exact I].
Qed.

Lemma lsoda_returns (itask istate : Z) (tout : double) fuel s neq y t iopt jt iworks rworks :
  return_protocol itask istate tout
    (lsoda pow f fuel s neq y t tout itask istate iopt jt iworks rworks).
Proof.
  unfold lsoda; break_if; [exact I|].
  pose proof (lsoda_prologue_returns itask istate tout s neq y t iopt jt iworks rworks) as Hp.
  destruct (lsoda_prologue _ _ _ _ _ _ _ _ _ _ _ _ _) as [[[s1 ihit] tcrit]|r]; simpl in Hp; auto.
  apply lsoda_loop_returns.
Qed.
End Returns.

(** X1: every return of [lsoda] follows the protocol of its exit.  After
    [terminate], [*istate] is -3, or [illin] is 5 and [*istate] is left
    as it was.  After [terminate2], [illin] is 0, [*t] is [tn_] and
    [*istate] is the code of the message printed (-1, -2, -4, -5, -6),
    or still 1 when a weight of the initial call was not positive.
    After [successreturn], [illin] is 0, [*istate] is 2 and [itask] is
    between 2 and 5.  After an interpolation by [intdy], [illin] is 0,
    [*istate] is 2, [*t] is [tout] and [itask] is 1 or 4. *)
Theorem lsoda_return_protocol (pow : double -> double -> double)
    (f : double -> list double -> list double) (fuel : nat) (s : LSODA) (neq : Z)
    (y : list double) (t tout : double) (itask istate iopt jt : Z) (iworks : list Z)
    (rworks : list double) :
  return_protocol itask istate tout
    (lsoda pow f fuel s neq y t tout itask istate iopt jt iworks rworks).
Proof. apply lsoda_returns. Qed.

(** X2: [lsoda_function] returns in one of three ways.  Through the
    interpolation, with [*istate = 2], [*t = tout] and [illin = 0];
    through [terminate], with [*istate = -3], or with [illin = 5] and
    [*istate] unchanged; or through [terminate2], with [illin = 0],
    [*t = tn_] and the error code in [*istate].  It never returns
    through [successreturn]. *)
Theorem lsoda_function_returns (pow : double -> double -> double)
    (f : double -> list double -> list double) (fuel : nat) (s : LSODA) (neq : Z)
    (y : list double) (t tout : double) (istate : Z) (rtol atol : double)
    (site : return_site) (s' : LSODA) (y' : list double) (t' : double) (istate' : Z) :
  lsoda_function pow f fuel s neq y t tout istate rtol atol = Done (site, s', y', t', istate') ->
  (site = via_intdy /\ istate' = 2 /\ t' = tout /\ illin s' = 0) \/
  (exists m, site = via_terminate m /\
             (istate' = -3 \/ (illin s' = 5 /\ istate' = istate))) \/
  (exists m, site = via_terminate2 m /\ illin s' = 0 /\ t' = tn_ s' /\
             terminate2_code istate m istate').
Proof.
  unfold lsoda_function.
  pose proof (lsoda_returns pow f 1 istate tout fuel (set_tolerances s neq rtol atol) neq
                (0%float :: y) t 0 2 (repeat 0 7) (repeat 0%float 4)) as H.
  destruct (lsoda _ _ _ _ _ _ _ _ _ _ _ _ _ _) as [[[[[site0 s0] y0] t0] i0]|s0|];
    try discriminate.
  intros E; injection E as <- <- <- <- <-.
  destruct site0 as [m|m| |]; cbn [return_protocol] in H.
  - right; left; exists m; auto.
  - right; right; exists m; auto.
  - lia.
  - left; tauto.
Qed.

Lemma lsoda_function_returns_witness :
  exists s' y',
    lsoda_function unit_pow zero_rhs 100 LSODA_new 1 [0%float] 0%float 1%float 1
      0%float 1%float
    = Done (via_intdy, s', y', 1%float, 2) /\
    ((via_intdy = via_intdy /\ 2 = 2 /\ 1%float = 1%float /\ illin s' = 0) \/
     (exists m, via_intdy = via_terminate m /\ (2 = -3 \/ (illin s' = 5 /\ 2 = 1))) \/
     (exists m, via_intdy = via_terminate2 m /\ illin s' = 0 /\ 1%float = tn_ s' /\
                terminate2_code 1 m 2)).
Proof.
  do 2 eexists.
  refine ((fun H => conj H
             (lsoda_function_returns unit_pow zero_rhs 100 LSODA_new 1 [0%float] 0%float
                1%float 1 0%float 1%float _ _ _ _ _ H)) _).
  vm_compute; reflexivity.
Defined.

(** * The outcome of a step *)

Section Steps.
Variable pow : double -> double -> double.
Variable f : double -> list double -> list double.

Lemma cfode_steps s meth : steps (cfode s meth) = steps s.
Proof. unfold cfode; repeat break_if; repeat break_let; reflexivity. Qed.

Lemma resetcoeff_steps s : steps (resetcoeff s) = steps s.
Proof. reflexivity. Qed.

Lemma scaleh_steps s rh pdh : steps (fst (fst (scaleh s rh pdh))) = steps s.
Proof. unfold scaleh; repeat break_if; repeat break_let; reflexivity. Qed.

Lemma endstoda_steps s : steps (endstoda s) = steps s.
Proof. reflexivity. Qed.

Lemma prja_steps s y : steps (fst (prja f s y)) = steps s.
Proof.
  unfold prja.
  match goal with |- context [for_up 1 ?b ?body ?init] =>
    assert (H : steps (fst (for_up 1 b body init)) = steps s)
  end.
  { apply for_up_inv; [reflexivity|].
    intros j [s' y'] _ Hs; exact Hs. }
  break_if; [reflexivity|].
  match type of H with steps (fst ?x) = _ => destruct x as [s1 y1] end.
  destruct (dgefa _ _ _) as [[a pv] ier].
  break_if; exact H.
Qed.

Lemma solsy_steps s y : steps (fst (solsy s y)) = steps s.
Proof. unfold solsy; break_if; reflexivity. Qed.

Lemma corfailure_steps s told rh ncf :
  steps (fst (fst (fst (corfailure s told rh ncf)))) = steps s.
Proof. unfold corfailure; break_if; reflexivity. Qed.

Lemma corrector_update_steps s y :
  steps (fst (fst (corrector_update s y))) = steps s.
Proof.
  unfold corrector_update; break_if.
  - repeat break_let; reflexivity.
  - generalize (solsy_steps s
      (for_up 1 (n s)
         (fun i y => vset y i (h_ s * (savf s).[i] - ((yh_ s).[2, i] + (acor s).[i]))%float) y)).
    destruct (solsy _ _) as [s1 y1]; simpl; intros H.
    break_let; exact H.
Qed.

Lemma after_corfailure_steps s y told rh ncf m del delp :
  steps (r_obj (after_corfailure s y told rh ncf m del delp)) = steps s.
Proof.
  unfold after_corfailure.
  generalize (corfailure_steps s told rh ncf).
  destruct (corfailure s told rh ncf) as [[[s1 rh1] ncf1] cf]; auto.
Qed.

Lemma correction_body_steps pnorm told rh ncf c :
  steps (corr_step_obj (correction_body f pnorm told rh ncf c)) = steps (c_obj c).
Proof.
  unfold correction_body.
  set (refreshed := if (c_m c =? 0) && (ipup (c_obj c) >? 0) then _ else _).
  assert (Hr : steps (fst (fst refreshed)) = steps (c_obj c)).
  { subst refreshed; break_if; [|reflexivity].
    generalize (prja_steps (c_obj c) (c_y c)).
    destruct (prja f (c_obj c) (c_y c)) as [s1 y1]; auto. }
  destruct refreshed as [[s1 y1] singular]; simpl in Hr.
  destruct singular.
  { simpl; rewrite after_corfailure_steps; auto. }
  match goal with |- context [corrector_update ?s ?y] =>
    generalize (corrector_update_steps s y); destruct (corrector_update s y) as [[s2 y2] del]
  end.
  simpl; intros H2.
  assert (H2' : steps s2 = steps (c_obj c)).
  { rewrite H2; break_if; auto. }
  clear H2.
  break_if; [exact H2'|].
  set (rate_test := if negb (c_m c =? 0) || negb (meth_ s2 =? 1) then _ else _).
  assert (Ht : steps (fst (fst rate_test)) = steps s2)
    by (subst rate_test; repeat break_if; reflexivity).
  destruct rate_test as [[s3 rate] accepted]; simpl in Ht.
  assert (H3 : steps s3 = steps (c_obj c)) by congruence.
  clear Ht H2'.
  destruct accepted.
  { cbn [corr_step_obj r_obj]; break_if; exact H3. }
  break_if.
  - break_if; cbn [corr_step_obj r_obj c_obj].
    + rewrite after_corfailure_steps; exact H3.
    + exact H3.
  - exact H3.
Qed.

Lemma correction_loop_steps fuel pnorm told rh ncf c r :
  correction_loop f fuel pnorm told rh ncf c = Some r ->
  steps (r_obj r) = steps (c_obj c).
Proof.
  revert c; induction fuel as [|fuel IH]; simpl; intros c H; [discriminate|].
  generalize (correction_body_steps pnorm told rh ncf c).
  destruct (correction_body f pnorm told rh ncf c) as [r'|r'|c'|c']; simpl; intros Hb.
  - congruence.
  - congruence.
  - rewrite (IH _ H); auto.
  - rewrite (IH _ H); auto.
Qed.

Lemma correction_steps fuel s y pnorm delp told ncf rh r :
  correction f fuel s y pnorm delp told ncf rh = Some r ->
  steps (r_obj r) = steps s.
Proof.
  unfold correction; intros H; apply correction_loop_steps in H; exact H.
Qed.

Lemma methodswitch_steps s dsm pnorm pdh rh :
  steps (fst (fst (methodswitch pow s dsm pnorm pdh rh))) = steps s.
Proof.
  unfold methodswitch.
  repeat first [break_if | break_let
               | match goal with |- context [match ?x with Some _ => _ | None => _ end] =>
                   destruct x end];
    reflexivity.
Qed.

Lemma orderswitch_steps s rhup dsm pdh rh :
  steps (fst (fst (fst (fst (orderswitch pow s rhup dsm pdh rh))))) = steps s.
Proof.
  unfold orderswitch.
  break_if.
  all: repeat first [break_if | break_let
               | match goal with |- context [match ?x with Some _ => _ | None => _ end] =>
                   destruct x end];
    reflexivity.
Qed.

Lemma steps_set_cm1 v s : steps (set_cm1 v s) = steps s.
Proof. reflexivity. Qed.

Lemma steps_set_cm2 v s : steps (set_cm2 v s) = steps s.
Proof. reflexivity. Qed.

Lemma stoda_first_call_steps s : steps (stoda_first_call s) = steps s.
Proof.
  unfold stoda_first_call.
  rewrite resetcoeff_steps, steps_set_cm1, cfode_steps, steps_set_cm2, cfode_steps.
  reflexivity.
Qed.

Lemma stoda_new_h_steps s rh pdh : steps (fst (fst (stoda_new_h s rh pdh))) = steps s.
Proof.
  unfold stoda_new_h; break_if; [|reflexivity].
  rewrite scaleh_steps; reflexivity.
Qed.

Lemma stoda_new_parameters_steps s rh pdh :
  steps (fst (fst (stoda_new_parameters s rh pdh))) = steps s.
Proof.
  unfold stoda_new_parameters; rewrite stoda_new_h_steps.
  repeat break_if; rewrite ?resetcoeff_steps; try reflexivity.
  all: match goal with |- steps (set_iret ?a (set_ialth ?b ?x)) = _ =>
         change (steps x = steps s) end; rewrite cfode_steps; reflexivity.
Qed.

Lemma stoda_setup_steps s rh pdh : steps (fst (fst (stoda_setup s rh pdh))) = steps s.
Proof.
  unfold stoda_setup.
  assert (H1 : steps (if jstart s =? 0 then stoda_first_call s else s) = steps s)
    by (break_if; auto using stoda_first_call_steps).
  revert H1; generalize (if jstart s =? 0 then stoda_first_call s else s); intros s1 H1.
  assert (H2 : steps (fst (fst (if jstart s1 =? -1 then stoda_new_parameters s1 rh pdh
                                 else (s1, rh, pdh)))) = steps s)
    by (break_if; rewrite ?stoda_new_parameters_steps; auto).
  revert H2; generalize (if jstart s1 =? -1 then stoda_new_parameters s1 rh pdh
                         else (s1, rh, pdh)); intros [[s2 rh2] pdh2] H2; simpl in H2.
  break_if; rewrite ?stoda_new_h_steps; auto.
Qed.

Lemma rescale_steps s rh pdh : steps (fst (fst (rescale s rh pdh))) = steps s.
Proof. unfold rescale; apply scaleh_steps. Qed.

(** [steps_call] names the object returned by the next call and records
    that its steps members are those of the object passed. *)
Ltac steps_call :=
  let H := fresh "Hs" in
  let s' := fresh "s" in
  let a' := fresh "rh" in
  let b' := fresh "pdh" in
  let c' := fresh "rhup" in
  let d' := fresh "flag" in
  match goal with
  | |- context [rescale ?s ?rh ?pdh] =>
      pose proof (rescale_steps s rh pdh) as H;
      destruct (rescale s rh pdh) as [[s' a'] b']
  | |- context [orderswitch pow ?s ?a ?b ?c ?d] =>
      pose proof (orderswitch_steps s a b c d) as H;
      destruct (orderswitch pow s a b c d) as [[[[s' c'] b'] a'] d']
  | |- context [methodswitch pow ?s ?a ?b ?c ?d] =>
      pose proof (methodswitch_steps s a b c d) as H;
      destruct (methodswitch pow s a b c d) as [[s' b'] a']
  end;
  cbn [fst] in H.

Ltac steps_done :=
  rewrite ?endstoda_steps, ?resetcoeff_steps in *;
  unfold steps in *; members; congruence.

Lemma steps_nst s s' : steps s' = steps s -> nst s' = nst s.
Proof. unfold steps; congruence. Qed.

Lemma steps_kflag s s' : steps s' = steps s -> kflag s' = kflag s.
Proof. unfold steps; congruence. Qed.

Lemma stoda_retry_post s y dsm pdh rh ncf delp :
  pass_post s (stoda_retry pow f s y dsm pdh rh ncf delp).
Proof.
  unfold stoda_retry.
  break_if; [cbn; auto 10|].
  break_if.
  { steps_call.
    set (r1 := if (flag =? 1) || (flag =? 0) then _ else _).
    assert (H1 : steps (fst (fst r1)) = steps s).
    { subst r1. break_if. all: cbn [fst]. rewrite ?rescale_steps. all: congruence. }
    destruct r1 as [[s2 rh2] pdh2]; cbn [fst] in H1.
    set (r2 := if flag =? 2 then _ else _).
    assert (H2 : steps (fst (fst r2)) = steps s).
    { subst r2; break_if; cbn [fst]; [rewrite rescale_steps, resetcoeff_steps|]; congruence. }
    destruct r2 as [[s3 rh3] pdh3]; cbn [fst] in H2.
    cbn [pass_post st_obj]; apply steps_nst, H2. }
  break_if; [cbn; auto 10|].
  break_if; cbn [pass_post st_obj].
  - reflexivity.
  - apply steps_nst; rewrite resetcoeff_steps; reflexivity.
Qed.

Lemma stoda_reject_post s y told dsm pdh rh ncf delp :
  pass_post s (stoda_reject pow f s y told dsm pdh rh ncf delp).
Proof.
  unfold stoda_reject.
  generalize (stoda_retry_post (stoda_restore s told) y dsm pdh rh ncf delp).
  destruct (stoda_retry _ _ _ _ _ _ _ _ _) as [s' y'|v]; cbn [pass_post]; auto.
Qed.
Lemma stoda_accept_steps s y dsm pnorm pdh rh :
  steps (fst (stoda_accept pow s y dsm pnorm pdh rh)) = (to_size_t (nst s + 1), 0).
Proof.
  unfold stoda_accept.
  set (K := (to_size_t (nst s + 1), 0)).
  set (s0 := set_icount _ _).
  assert (H0 : steps s0 = K) by reflexivity.
  clearbody s0.
  assert (Hm : steps (fst (fst (if icount s0 <? 0 then methodswitch pow s0 dsm pnorm pdh rh
                                 else (s0, pdh, rh)))) = K)
    by (break_if; rewrite ?methodswitch_steps; auto).
  destruct (if icount s0 <? 0 then methodswitch pow s0 dsm pnorm pdh rh else (s0, pdh, rh))
    as [[s1 pdh1] rh1]; cbn [fst] in Hm.
  break_if.
  { steps_call; cbn [fst]; rewrite endstoda_steps.
    change (steps s2 = K); congruence. }
  set (s2 := set_ialth _ s1).
  assert (H2 : steps s2 = K) by (rewrite <- Hm; reflexivity).
  clearbody s2; clear Hm H0 s0 s1.
  assert (Hn : forall s', steps s' = K ->
            steps (fst (if (ialth s' >? 1) || (l s' =? lmax s') then (endstoda s', y)
                         else (endstoda (set_yh_ (for_up 1 (n s')
                                 (fun i yh => mset yh (lmax s') i (acor s').[i]) (yh_ s')) s'), y)))
            = K).
  { intros s' Hs'; break_if; cbn [fst]; rewrite endstoda_steps; auto. }
  break_if; [|apply Hn; auto].
  set (up := if negb (l s2 =? lmax s2) then _ else _).
  assert (Hu : steps (fst up) = K) by (subst up; break_if; auto).
  destruct up as [s3 rhup]; cbn [fst] in Hu.
  steps_call.
  assert (Hs0 : steps s0 = K) by congruence.
  repeat break_if; try (apply Hn; congruence).
  - cbn [fst]; rewrite endstoda_steps; exact Hs0.
  - steps_call; cbn [fst]; rewrite endstoda_steps.
    change (steps s1 = K); congruence.
  - steps_call; cbn [fst]; rewrite endstoda_steps.
    change (steps s1 = K); rewrite Hs1, resetcoeff_steps; exact Hs0.
  - cbn [fst]; rewrite endstoda_steps; exact Hs0.
  - cbn [fst]; rewrite endstoda_steps; exact Hs0.
Qed.

Lemma endstoda_ended s : jstart (endstoda s) = 1 /\ hold (endstoda s) = h_ (endstoda s).
Proof. split; reflexivity. Qed.

Lemma stoda_accept_ended s y dsm pnorm pdh rh :
  jstart (fst (stoda_accept pow s y dsm pnorm pdh rh)) = 1 /\
  hold (fst (stoda_accept pow s y dsm pnorm pdh rh))
  = h_ (fst (stoda_accept pow s y dsm pnorm pdh rh)).
Proof.
  unfold stoda_accept.
  set (s0 := set_icount _ _); clearbody s0.
  destruct (if icount s0 <? 0 then methodswitch pow s0 dsm pnorm pdh rh else (s0, pdh, rh))
    as [[s1 pdh1] rh1].
  break_if.
  { destruct (rescale _ _ _) as [[s2 rh2] pdh2]; apply endstoda_ended. }
  set (s2 := set_ialth _ s1); clearbody s2.
  assert (Hn : forall s',
            jstart (fst (if (ialth s' >? 1) || (l s' =? lmax s') then (endstoda s', y)
                         else (endstoda (set_yh_ (for_up 1 (n s')
                                 (fun i yh => mset yh (lmax s') i (acor s').[i]) (yh_ s')) s'), y)))
            = 1 /\
            hold (fst (if (ialth s' >? 1) || (l s' =? lmax s') then (endstoda s', y)
                         else (endstoda (set_yh_ (for_up 1 (n s')
                                 (fun i yh => mset yh (lmax s') i (acor s').[i]) (yh_ s')) s'), y)))
            = h_ (fst (if (ialth s' >? 1) || (l s' =? lmax s') then (endstoda s', y)
                         else (endstoda (set_yh_ (for_up 1 (n s')
                                 (fun i yh => mset yh (lmax s') i (acor s').[i]) (yh_ s')) s'), y)))).
  { intros s'; break_if; apply endstoda_ended. }
  break_if; [|apply Hn].
  set (up := if negb (l s2 =? lmax s2) then _ else _).
  destruct up as [s3 rhup].
  destruct (orderswitch _ _ _ _ _ _) as [[[[s4 rhup4] pdh4] rh4] flag].
  repeat break_if; try apply Hn;
    try (destruct (rescale _ _ _) as [[s5 rh5] pdh5]); apply endstoda_ended.
Qed.

Lemma stoda_predict_steps s : steps (stoda_predict s) = steps s.
Proof. reflexivity. Qed.

Lemma stoda_body_post fuel told v r :
  stoda_body pow f fuel told v = Some r -> pass_post (st_obj v) r.
Proof.
  unfold stoda_body.
  set (s0 := stoda_predict _).
  assert (H0 : steps s0 = steps (st_obj v))
    by (subst s0; rewrite stoda_predict_steps; repeat break_if; reflexivity).
  clearbody s0.
  match goal with |- context [correction f fuel ?s ?y ?a ?b ?c ?d ?e] =>
    pose proof (correction_steps fuel s y a b c d e) as Hc;
    destruct (correction f fuel s y a b c d e) as [r0|]; [|discriminate]
  end.
  specialize (Hc r0 eq_refl).
  assert (H1 : steps (r_obj r0) = steps (st_obj v)) by congruence.
  clear H0 Hc.
  revert H1; generalize (r_obj r0); intros s1 H1.
  assert (Hn : nst s1 = nst (st_obj v)) by (apply steps_nst, H1).
  break_if.
  { break_if.
    - pose proof (stoda_accept_steps (set_jcur 0 s1) (r_y r0)) as Ha.
      pose proof (stoda_accept_ended (set_jcur 0 s1) (r_y r0)) as He.
      match goal with |- context [stoda_accept pow ?s ?y ?a ?b ?c ?d] =>
        specialize (Ha a b c d); specialize (He a b c d);
        destruct (stoda_accept pow s y a b c d) as [s2 y2]
      end.
      cbn [fst] in Ha, He.
      intros H; injection H as <-; cbn [pass_post].
      destruct He as [He1 He2]; unfold steps in Ha.
      injection Ha as Ha1 Ha2.
      split; [exact He1|split; [exact He2|left]].
      split; [exact Ha2|]. rewrite Ha1. cbn [nst set_jcur]. rewrite Hn; reflexivity.
    - intros H; injection H as <-.
      match goal with |- context [stoda_reject pow f ?s ?y ?a ?b ?c ?d ?e ?g] =>
        generalize (stoda_reject_post s y a b c d e g);
        destruct (stoda_reject pow f s y a b c d e g) as [s2 y2|v2]
      end; cbn [pass_post nst set_jcur]; rewrite Hn; auto. }
  break_if.
  { steps_call; intros H; injection H as <-; cbn [pass_post st_obj].
    apply steps_nst; congruence. }
  break_if; intros H; injection H as <-; cbn [pass_post st_obj nst set_jstart set_hold set_kflag jstart hold kflag h_];
    auto 10.
Qed.

Lemma stoda_loop_post fuel passes told v s' y' :
  stoda_loop pow f fuel passes told v = Done (s', y') ->
  pass_post (st_obj v) (StepOver s' y').
Proof.
  revert v; induction passes as [|passes IH]; simpl; intros v H; [discriminate|].
  pose proof (stoda_body_post fuel told v) as Hb.
  destruct (stoda_body pow f fuel told v) as [[s1 y1|v1]|]; try discriminate.
  - injection H as <- <-; apply (Hb _ eq_refl).
  - specialize (Hb _ eq_refl); cbn [pass_post] in Hb.
    specialize (IH _ H); cbn [pass_post] in IH |- *.
    rewrite <- Hb; exact IH.
Qed.
Lemma stoda_post fuel s neq y s' y' :
  stoda pow f fuel s neq y = Done (s', y') -> pass_post s (StepOver s' y').
Proof.
  unfold stoda; break_if; [discriminate|].
  match goal with |- context [stoda_setup ?s ?a ?b] =>
    pose proof (stoda_setup_steps s a b) as Hs;
    destruct (stoda_setup s a b) as [[s1 rh1] pdh1]
  end.
  cbn [fst] in Hs; intros H; apply stoda_loop_post in H.
  cbn [pass_post st_obj] in H.
  apply steps_nst in Hs; cbn [nst set_jcur set_iersl set_ierpj set_kflag] in Hs.
  cbn [pass_post]; rewrite Hs in H; exact H.
Qed.
End Steps.

(** X3: when [stoda] returns, [jstart] is 1 and [hold] is [h_]; and
    either [kflag] is 0 and [nst] has been increased by one (a step was
    taken), or [kflag] is -1 or -2 and [nst] is unchanged. *)
Theorem stoda_outcome (pow : double -> double -> double)
    (f : double -> list double -> list double) (fuel : nat) (s : LSODA) (neq : Z)
    (y : list double) (s' : LSODA) (y' : list double) :
  stoda pow f fuel s neq y = Done (s', y') ->
  jstart s' = 1 /\ hold s' = h_ s' /\
  ((kflag s' = 0 /\ nst s' = to_size_t (nst s + 1)) \/
   ((kflag s' = -1 \/ kflag s' = -2) /\ nst s' = nst s)).
Proof. apply stoda_post. Qed.

Lemma stoda_outcome_witness :
  exists s' y',
    stoda unit_pow zero_rhs 100 sample_object 1 [0; 0]%float = Done (s', y') /\
    jstart s' = 1 /\ hold s' = h_ s' /\
    ((kflag s' = 0 /\ nst s' = to_size_t (nst sample_object + 1)) \/
     ((kflag s' = -1 \/ kflag s' = -2) /\ nst s' = nst sample_object)).
Proof.
  do 2 eexists.
  refine ((fun H => conj H
             (stoda_outcome unit_pow zero_rhs 100 sample_object 1 [0; 0]%float _ _ H)) _).
  vm_compute; reflexivity.
Defined.

(** X4: the members that [lsoda] sets before the integration loop are
    the same after a call of [stoda] as before it: [illin], [init],
    [n], [nyh], [mxordn], [mxords], [maxord], [jtyp], [maxcor], [msbp],
    [mxncf], [ccmax], [sqrteta], [hmin], [hmxi], [ixpr], [mxstep],
    [mxhnil], [nslast], [nhnil], [ntrep], [itol_], [rtol_], [atol_],
    [ml], [mu], [imxer], [tsw] and [ewt]. *)
Theorem stoda_keeps_configuration (pow : double -> double -> double)
    (f : double -> list double -> list double) (fuel : nat) (s : LSODA) (neq : Z)
    (y : list double) (s' : LSODA) (y' : list double) :
  stoda pow f fuel s neq y = Done (s', y') ->
  illin s' = illin s /\ init s' = init s /\ n s' = n s /\ nyh s' = nyh s /\
  mxordn s' = mxordn s /\ mxords s' = mxords s /\ maxord s' = maxord s /\
  jtyp s' = jtyp s /\ maxcor s' = maxcor s /\ msbp s' = msbp s /\
  mxncf s' = mxncf s /\ ccmax s' = ccmax s /\ sqrteta s' = sqrteta s /\
  hmin s' = hmin s /\ hmxi s' = hmxi s /\ ixpr s' = ixpr s /\
  mxstep s' = mxstep s /\ mxhnil s' = mxhnil s /\ nslast s' = nslast s /\
  nhnil s' = nhnil s /\ ntrep s' = ntrep s /\ itol_ s' = itol_ s /\
  rtol_ s' = rtol_ s /\ atol_ s' = atol_ s /\ ml s' = ml s /\ mu s' = mu s /\
  imxer s' = imxer s /\ tsw s' = tsw s /\ ewt s' = ewt s.
Proof.
  intros H; apply stoda_static in H; unfold static in H.
  injection H; intros; repeat split; assumption.
Qed.

Lemma stoda_keeps_configuration_witness :
  exists s' y',
    stoda unit_pow zero_rhs 100 sample_object 1 [0; 0]%float = Done (s', y') /\
    illin s' = illin sample_object /\ init s' = init sample_object /\
    n s' = n sample_object /\ nyh s' = nyh sample_object /\
    mxordn s' = mxordn sample_object /\ mxords s' = mxords sample_object /\
    maxord s' = maxord sample_object /\ jtyp s' = jtyp sample_object /\
    maxcor s' = maxcor sample_object /\ msbp s' = msbp sample_object /\
    mxncf s' = mxncf sample_object /\ ccmax s' = ccmax sample_object /\
    sqrteta s' = sqrteta sample_object /\ hmin s' = hmin sample_object /\
    hmxi s' = hmxi sample_object /\ ixpr s' = ixpr sample_object /\
    mxstep s' = mxstep sample_object /\ mxhnil s' = mxhnil sample_object /\
    nslast s' = nslast sample_object /\ nhnil s' = nhnil sample_object /\
    ntrep s' = ntrep sample_object /\ itol_ s' = itol_ sample_object /\
    rtol_ s' = rtol_ sample_object /\ atol_ s' = atol_ sample_object /\
    ml s' = ml sample_object /\ mu s' = mu sample_object /\
    imxer s' = imxer sample_object /\ tsw s' = tsw sample_object /\
    ewt s' = ewt sample_object.
Proof.
  do 2 eexists.
  refine ((fun H => conj H
             (stoda_keeps_configuration unit_pow zero_rhs 100 sample_object 1
                [0; 0]%float _ _ H)) _).
  vm_compute; reflexivity.
Defined.

(** X5: [stoda] is cut by [Rcpp::stop] exactly when [y] does not have
    [neq + 1] elements, and then the object is as it was at entry. *)
Theorem stoda_stops_on_size_mismatch (pow : double -> double -> double)
    (f : double -> list double -> list double) (fuel : nat) (s : LSODA) (neq : Z)
    (y : list double) (s' : LSODA) :
  stoda pow f fuel s neq y = Stopped s' <->
  s' = s /\ to_size_t (neq + 1) <> Z.of_nat (length y).
Proof.
  split.
  - intros H; split; [apply (stoda_stopped pow f fuel s neq y), H|].
    revert H; unfold stoda.
    destruct (Z.eqb_spec (to_size_t (neq + 1)) (Z.of_nat (length y))) as [E|E]; [|auto].
    cbn [negb].
    destruct (stoda_setup _ _ _) as [[s1 rh1] pdh1].
    intros H; exfalso; exact (stoda_loop_not_stopped pow f _ _ _ _ _ H).
  - intros [-> H]; unfold stoda.
    destruct (Z.eqb_spec (to_size_t (neq + 1)) (Z.of_nat (length y))) as [E|E];
      [contradiction|reflexivity].
Qed.

(** * Method and order selection *)

Lemma to_int_small z : 0 <= z < 2 ^ 31 -> to_int z = z.
Proof. intros H; unfold to_int; rewrite Z.mod_small; lia. Qed.

Lemma to_size_t_small z : 0 <= z < 2 ^ 64 -> to_size_t z = z.
Proof. intros H; unfold to_size_t; apply Z.mod_small; lia. Qed.

Ltac break_if_eqn :=
  match goal with
  | |- context [if ?b then _ else _] => let E := fresh "E" in destruct b eqn:E
  end.

Ltac order_facts :=
  repeat match goal with
  | H : (_ >? _) = true |- _ => apply Z.gtb_lt in H
  | H : (_ >? _) = false |- _ => rewrite Z.gtb_ltb in H; apply Z.ltb_ge in H
  | H : (_ <? _) = true |- _ => apply Z.ltb_lt in H
  | H : (_ <? _) = false |- _ => apply Z.ltb_ge in H
  | H : (_ =? _) = true |- _ => apply Z.eqb_eq in H
  | H : (_ =? _) = false |- _ => apply Z.eqb_neq in H
  end.

(** X6: [methodswitch] either leaves the object and [*rh] alone, or
    switches the family: [meth_] changes, to 2 with [miter = jtyp] and
    the order lowered to [mxords] if above it, or to 1 with [miter = 0]
    and the order lowered to [mxordn] if above it; in both cases
    [l = nq + 1], [icount = 20] and [pdlast = 0]. *)
Theorem methodswitch_effect (pow : double -> double -> double) (s : LSODA)
    (dsm pnorm pdh rh : double) :
  0 <= nq s < 2 ^ 31 -> 0 <= mxordn s < 2 ^ 31 -> 0 <= mxords s < 2 ^ 31 ->
  let '(s', _, rh') := methodswitch pow s dsm pnorm pdh rh in
  (s' = s /\ rh' = rh) \/
  (meth_ s' <> meth_ s /\
   (meth_ s' = 2 /\ miter s' = jtyp s /\ nq s' = Z.min (nq s) (mxords s) \/
    meth_ s' = 1 /\ miter s' = 0 /\ nq s' = Z.min (nq s) (mxordn s)) /\
   l s' = nq s' + 1 /\ icount s' = 20 /\ pdlast s' = 0%float).
Proof.
  intros Hnq Hn Hs; unfold methodswitch.
  destruct (meth_ s =? 1) eqn:Em.
  - apply Z.eqb_eq in Em.
    break_if; [left; auto|].
    set (test := if (dsm <=? 100 * pnorm * ETA)%float || (pdest s =? 0)%float then _ else _).
    assert (Ht : match snd test with
                 | None => True
                 | Some (_, nqm2) => nqm2 = Z.min (nq s) (mxords s)
                 end).
    { subst test; repeat break_if_eqn; cbn [snd]; auto;
        rewrite to_int_small by lia; order_facts; lia. }
    destruct test as [pdh' [[rh2 nqm2]|]]; cbn [snd] in Ht; [|left; auto].
    right; members.
    rewrite Em, Ht, !to_size_t_small by lia.
    repeat split; auto; lia.
  - apply Z.eqb_neq in Em.
    set (est := if mxordn s <? nq s then _ else _).
    assert (He : snd (fst est) = Z.min (nq s) (mxordn s)).
    { subst est; break_if_eqn; cbn [fst snd]; rewrite to_int_small by lia; order_facts; lia. }
    destruct est as [[[dm1 rh1] nqm1] exm1]; cbn [fst snd] in He.
    repeat break_if_eqn; try (left; auto; fail).
    all: right; members.
    all: rewrite He, !to_size_t_small by lia.
    all: split; [congruence|split; [right; auto|split; [lia|auto]]].
Qed.

Lemma methodswitch_effect_witness :
  0 <= nq nonstiff_object < 2 ^ 31 /\
  0 <= mxordn nonstiff_object < 2 ^ 31 /\
  0 <= mxords nonstiff_object < 2 ^ 31 /\
  let '(s', _, rh') := methodswitch unit_pow nonstiff_object 0 0 0 0 in
  (s' = nonstiff_object /\ rh' = 0%float) \/
  (meth_ s' <> meth_ nonstiff_object /\
   (meth_ s' = 2 /\ miter s' = jtyp nonstiff_object /\
    nq s' = Z.min (nq nonstiff_object) (mxords nonstiff_object) \/
    meth_ s' = 1 /\ miter s' = 0 /\
    nq s' = Z.min (nq nonstiff_object) (mxordn nonstiff_object)) /\
   l s' = nq s' + 1 /\ icount s' = 20 /\ pdlast s' = 0%float).
Proof.
  assert (H1 : 0 <= nq nonstiff_object < 2 ^ 31) by (change (0 <= 1 < 2 ^ 31); lia).
  assert (H2 : 0 <= mxordn nonstiff_object < 2 ^ 31) by (change (0 <= 0 < 2 ^ 31); lia).
  assert (H3 : 0 <= mxords nonstiff_object < 2 ^ 31) by (change (0 <= 5 < 2 ^ 31); lia).
  split; [exact H1|split; [exact H2|split; [exact H3|]]].
  exact (methodswitch_effect unit_pow nonstiff_object 0 0 0 0 H1 H2 H3).
Defined.

(** X7: when [l = nq + 1] at entry, [orderswitch] keeps [l = nq + 1].
    With [*orderflag] 0 or 1 the order is unchanged; with [*orderflag]
    2 the order is [nq + 1], and then [*rhup >= 1.1], or [nq - 1]. *)
Theorem orderswitch_effect (pow : double -> double -> double) (s : LSODA)
    (rhup dsm pdh rh : double) :
  l s = nq s + 1 -> 1 <= nq s -> nq s + 2 < 2 ^ 64 ->
  let '(s', rhup', _, _, orderflag) := orderswitch pow s rhup dsm pdh rh in
  l s' = nq s' + 1 /\
  ((orderflag = 0 \/ orderflag = 1) /\ nq s' = nq s \/
   orderflag = 2 /\
   (nq s' = nq s + 1 /\ fge rhup' 1.1 = true \/ nq s' = nq s - 1)).
Proof.
  intros Hinv H1 H2; unfold orderswitch.
  set (lim := if meth_ s =? 1 then _ else _).
  assert (Hl : nq (fst (fst (fst (fst lim)))) = nq s /\ l (fst (fst (fst (fst lim)))) = l s /\
               kflag (fst (fst (fst (fst lim)))) = kflag s)
    by (subst lim; break_if; auto).
  destruct lim as [[[[s1 pdh1] rhup1] rhsm1] rhdn1]; cbn [fst] in Hl.
  destruct Hl as (Hnq & Hl & Hk).
  repeat break_if_eqn; members; order_facts;
    rewrite ?Hnq, ?Hl, ?Hinv, ?(to_size_t_small (nq s - 1)), ?to_size_t_small by lia;
    try (split; [lia|]); auto 10; try lia.
Qed.

Lemma orderswitch_effect_witness :
  l stiff_object = nq stiff_object + 1 /\ 1 <= nq stiff_object /\
  nq stiff_object + 2 < 2 ^ 64 /\
  let '(s', rhup', _, _, orderflag) := orderswitch unit_pow stiff_object 2 1 0 0 in
  l s' = nq s' + 1 /\
  ((orderflag = 0 \/ orderflag = 1) /\ nq s' = nq stiff_object \/
   orderflag = 2 /\
   (nq s' = nq stiff_object + 1 /\ fge rhup' 1.1 = true \/ nq s' = nq stiff_object - 1)).
Proof.
  assert (H1 : l stiff_object = nq stiff_object + 1) by reflexivity.
  assert (H2 : 1 <= nq stiff_object) by (change (1 <= 1); lia).
  assert (H3 : nq stiff_object + 2 < 2 ^ 64) by reflexivity.
  split; [exact H1|split; [exact H2|split; [exact H3|]]].
  exact (orderswitch_effect unit_pow stiff_object 2 1 0 0 H1 H2 H3).
Defined.

(** * Continuation calls *)

Section Continuation.
Variable pow : double -> double -> double.
Variable f : double -> list double -> list double.

Lemma block_d_rworks s y t tout itask istate (rworks rworks' : list double) :
  rworks.[0] = rworks'.[0] ->
  block_d pow s y t tout itask istate rworks = block_d pow s y t tout itask istate rworks'.
Proof. intros H; unfold block_d; rewrite H; reflexivity. Qed.

Lemma lsoda_prologue_continuation s neq y t tout itask iopt jt iworks rworks
    iopt' jt' iworks' rworks' :
  rworks.[0] = rworks'.[0] ->
  lsoda_prologue pow f s neq y t tout itask 2 iopt jt iworks rworks
  = lsoda_prologue pow f s neq y t tout itask 2 iopt' jt' iworks' rworks'.
Proof.
  intros H; unfold lsoda_prologue.
  destruct (block_a s y t itask 2) as [s0|r]; [|reflexivity].
  cbn [bind].
  change (block_b s0 neq y t tout 2 iopt jt iworks rworks) with (@Go (LSODA * double) (s0, 0%float)).
  change (block_b s0 neq y t tout 2 iopt' jt' iworks' rworks')
    with (@Go (LSODA * double) (s0, 0%float)).
  cbn [bind].
  change (2 =? 1) with false; change (2 =? 3) with false; change (2 =? 2) with true.
  cbn [orb bind].
  apply block_d_rworks, H.
Qed.

Lemma resize_filled {A} (count : Z) (x x' : A) (v : list A) :
  count <= Z.of_nat (length v) -> resize count x v = resize count x' v.
Proof.
  intros H; unfold resize.
  replace (Z.to_nat count - length v)%nat with 0%nat by lia; reflexivity.
Qed.
End Continuation.

(** X8: on a continuation call ([*istate = 2]) [lsoda] does not read
    [iopt], [jt], [iworks] nor the elements of [rworks] other than
    [rworks[0]]: two calls that differ only in those give the same
    result. *)
Theorem lsoda_continuation_ignores_options (pow : double -> double -> double)
    (f : double -> list double -> list double) (fuel : nat) (s : LSODA) (neq : Z)
    (y : list double) (t tout : double) (itask iopt jt iopt' jt' : Z)
    (iworks iworks' : list Z) (rworks rworks' : list double) :
  rworks.[0] = rworks'.[0] ->
  lsoda pow f fuel s neq y t tout itask 2 iopt jt iworks rworks
  = lsoda pow f fuel s neq y t tout itask 2 iopt' jt' iworks' rworks'.
Proof.
  intros H; unfold lsoda.
  rewrite (lsoda_prologue_continuation pow f s neq y t tout itask iopt jt iworks rworks
             iopt' jt' iworks' rworks' H).
  reflexivity.
Qed.

Lemma lsoda_continuation_ignores_options_witness :
  (repeat 0%float 4).[0] = [0; 9; 9; 9]%float.[0] /\
  init after_first_call = 1 /\ mxstep after_first_call = 50 /\
  lsoda unit_pow zero_rhs 60 after_first_call 1 [0; 0]%float 1 1000 1 2 0 2
    (repeat 0 7) (repeat 0%float 4)
  = lsoda unit_pow zero_rhs 60 after_first_call 1 [0; 0]%float 1 1000 1 2 1 5
      [3; 3; 3; 3; 3; 3; 3] [0; 9; 9; 9]%float /\
  exists s',
    lsoda unit_pow zero_rhs 60 after_first_call 1 [0; 0]%float 1 1000 1 2 1 5
      [3; 3; 3; 3; 3; 3; 3] [0; 9; 9; 9]%float
    = Done (via_intdy, s', [0; 0]%float, 1000%float, 2) /\
    nst s' = 21 /\ nslast s' = 12 /\ mxstep s' = 50 /\ jtyp s' = 2.
Proof.
  assert (H : (repeat 0%float 4).[0] = [0; 9; 9; 9]%float.[0]) by reflexivity.
  split; [exact H|].
  split; [vm_compute; reflexivity|].
  split; [vm_compute; reflexivity|].
  split.
  - exact (lsoda_continuation_ignores_options unit_pow zero_rhs 60 after_first_call 1
             [0; 0]%float 1 1000 1 0 2 1 5 (repeat 0 7) [3; 3; 3; 3; 3; 3; 3]
             (repeat 0%float 4) [0; 9; 9; 9]%float H).
  - eexists; split; [vm_compute; reflexivity|].
    repeat split; vm_compute; reflexivity.
Defined.

(** X9: once the tolerance vectors of the object hold [neq + 1] elements
    or more, [lsoda_function] does not use its arguments [rtol] and
    [atol]: the vectors it hands to [lsoda] are the first [neq + 1]
    elements of those of the object with element 0 set to 0, which are
    the vectors of the object themselves when these hold exactly
    [neq + 1] elements and their element 0 is 0; and calls that differ
    only in [rtol] and [atol] give the same result. *)
Theorem lsoda_function_keeps_tolerances (pow : double -> double -> double)
    (f : double -> list double -> list double) (fuel : nat) (s : LSODA) (neq : Z)
    (y : list double) (t tout : double) (istate : Z) (rtol atol rtol' atol' : double) :
  to_size_t (neq + 1) <= Z.of_nat (length (rtol_ s)) ->
  to_size_t (neq + 1) <= Z.of_nat (length (atol_ s)) ->
  rtol_ (set_tolerances s neq rtol atol)
  = vset (firstn (Z.to_nat (to_size_t (neq + 1))) (rtol_ s)) 0 0%float /\
  atol_ (set_tolerances s neq rtol atol)
  = vset (firstn (Z.to_nat (to_size_t (neq + 1))) (atol_ s)) 0 0%float /\
  (Z.of_nat (length (rtol_ s)) = to_size_t (neq + 1) -> (rtol_ s).[0] = 0%float ->
   rtol_ (set_tolerances s neq rtol atol) = rtol_ s) /\
  (Z.of_nat (length (atol_ s)) = to_size_t (neq + 1) -> (atol_ s).[0] = 0%float ->
   atol_ (set_tolerances s neq rtol atol) = atol_ s) /\
  set_tolerances s neq rtol atol = set_tolerances s neq rtol' atol' /\
  lsoda_function pow f fuel s neq y t tout istate rtol atol
  = lsoda_function pow f fuel s neq y t tout istate rtol' atol'.
Proof.
  intros Hr Ha.
  assert (Er : rtol_ (set_tolerances s neq rtol atol)
               = vset (firstn (Z.to_nat (to_size_t (neq + 1))) (rtol_ s)) 0 0%float).
  { unfold set_tolerances; members; unfold resize.
    replace (Z.to_nat (to_size_t (neq + 1)) - length (rtol_ s))%nat with 0%nat by lia.
    cbn [repeat]; rewrite app_nil_r; reflexivity. }
  assert (Ea : atol_ (set_tolerances s neq rtol atol)
               = vset (firstn (Z.to_nat (to_size_t (neq + 1))) (atol_ s)) 0 0%float).
  { unfold set_tolerances; members; unfold resize.
    replace (Z.to_nat (to_size_t (neq + 1)) - length (atol_ s))%nat with 0%nat by lia.
    cbn [repeat]; rewrite app_nil_r; reflexivity. }
  assert (E : set_tolerances s neq rtol atol = set_tolerances s neq rtol' atol').
  { unfold set_tolerances; members.
    rewrite (resize_filled _ rtol rtol'), (resize_filled _ atol atol') by assumption.
    reflexivity. }
  split; [exact Er|split; [exact Ea|]].
  split; [|split; [|split; [exact E|]]].
  - intros Hl H0; rewrite Er, firstn_all2 by lia.
    rewrite <- H0; apply vset_vget; lia.
  - intros Hl H0; rewrite Ea, firstn_all2 by lia.
    rewrite <- H0; apply vset_vget; lia.
  - unfold lsoda_function; rewrite E; reflexivity.
Qed.

Lemma lsoda_function_keeps_tolerances_witness :
  to_size_t (1 + 1) <= Z.of_nat (length (rtol_ toleranced_object)) /\
  to_size_t (1 + 1) <= Z.of_nat (length (atol_ toleranced_object)) /\
  rtol_ (set_tolerances toleranced_object 1 0.5%float 0.5%float) = [0; 0]%float /\
  atol_ (set_tolerances toleranced_object 1 0.5%float 0.5%float) = [0; 1]%float /\
  lsoda_function no_pow zero_rhs 10 toleranced_object 1 [0%float] 0%float 1%float 1
    0.5%float 0.5%float
  = lsoda_function no_pow zero_rhs 10 toleranced_object 1 [0%float] 0%float 1%float 1
      0%float 1%float.
Proof.
  assert (H1 : to_size_t (1 + 1) <= Z.of_nat (length (rtol_ toleranced_object)))
    by (change (2 <= 2); lia).
  assert (H2 : to_size_t (1 + 1) <= Z.of_nat (length (atol_ toleranced_object)))
    by (change (2 <= 2); lia).
  destruct (lsoda_function_keeps_tolerances no_pow zero_rhs 10 toleranced_object 1
              [0%float] 0%float 1%float 1 0.5%float 0.5%float 0%float 1%float H1 H2)
    as (_ & _ & Hr & Ha & _ & Hcall).
  split; [exact H1|split; [exact H2|]].
  split; [exact (Hr eq_refl eq_refl)|].
  split; [exact (Ha eq_refl eq_refl)|].
  exact Hcall.
Defined.

(** * The weighted max-norm *)

(** The order of doubles, from the comparison of their specifications. *)
Ltac sf_order :=
  unfold SFltb, SFleb, SFeqb, SFcompare; intros;
  repeat match goal with x : spec_float |- _ => destruct x end;
  repeat match goal with b : bool |- _ => destruct b end;
  cbn in *; try reflexivity; try discriminate;
  repeat match goal with
  | H : context [PosDef.Pos.compare_cont Eq ?a ?b] |- _ =>
      change (PosDef.Pos.compare_cont Eq a b) with (Pos.compare a b) in H
  | |- context [PosDef.Pos.compare_cont Eq ?a ?b] =>
      change (PosDef.Pos.compare_cont Eq a b) with (Pos.compare a b)
  end;
  repeat match goal with
  | H : context [(?a ?= ?b)%Z] |- _ => destruct (Z.compare_spec a b); subst
  | |- context [(?a ?= ?b)%Z] => destruct (Z.compare_spec a b); subst
  | H : context [(?a ?= ?b)%positive] |- _ => destruct (Pos.compare_spec a b); subst
  | |- context [(?a ?= ?b)%positive] => destruct (Pos.compare_spec a b); subst
  end;
  cbn in *; try reflexivity; try discriminate; try lia.

Lemma ltb_right_ordered (a b : double) : (a <? b)%float = true -> (b =? b)%float = true.
Proof.
  rewrite ltb_spec, eqb_spec.
  generalize (Prim2SF a) (Prim2SF b); sf_order.
Qed.

Lemma ltb_irrefl (a : double) : (a <? a)%float = false.
Proof.
  rewrite ltb_spec.
  generalize (Prim2SF a); sf_order.
Qed.

Lemma ltb_raise (a b z : double) :
  (a =? a)%float = true -> (a <? z)%float = false -> (a <? b)%float = true ->
  (b <? z)%float = false.
Proof.
  rewrite !ltb_spec, eqb_spec.
  generalize (Prim2SF a) (Prim2SF b) (Prim2SF z); sf_order.
Qed.

Lemma leb_ltb_trans (a b c : double) :
  (a <=? b)%float = true -> (b <? c)%float = true -> (a <=? c)%float = true.
Proof.
  rewrite !leb_spec, ltb_spec.
  generalize (Prim2SF a) (Prim2SF b) (Prim2SF c); sf_order.
Qed.

Lemma leb_ordered (a b : double) : (a <=? b)%float = true -> (b =? b)%float = true.
Proof.
  rewrite leb_spec, eqb_spec.
  generalize (Prim2SF a) (Prim2SF b); sf_order.
Qed.

Lemma not_ltb_leb (a b : double) :
  (a =? a)%float = true -> (b =? b)%float = true -> (a <? b)%float = false ->
  (b <=? a)%float = true.
Proof.
  rewrite !eqb_spec, ltb_spec, leb_spec.
  generalize (Prim2SF a) (Prim2SF b); sf_order.
Qed.

Section MaxNorm.
Variable x : Z -> double.

Lemma fmax_nonneg (vm b : double) :
  (0 <=? vm)%float = true -> (0 <=? fmax vm b)%float = true.
Proof.
  intros H; unfold fmax; destruct (vm <? b)%float eqn:E; [|exact H].
  exact (leb_ltb_trans _ _ _ H E).
Qed.

Lemma fmax_below (vm b z : double) :
  (vm =? vm)%float = true -> (vm <? z)%float = false -> (fmax vm b <? z)%float = false.
Proof.
  intros Hv H; unfold fmax; destruct (vm <? b)%float eqn:E; [|exact H].
  exact (ltb_raise _ _ _ Hv H E).
Qed.

Lemma fmax_covers (vm b : double) : (fmax vm b <? b)%float = false.
Proof.
  unfold fmax; destruct (vm <? b)%float eqn:E; [apply ltb_irrefl|exact E].
Qed.

Lemma fold_fmax_nonneg (ix : list Z) (vm : double) :
  (0 <=? vm)%float = true ->
  (0 <=? fold_left (fun s i => fmax s (x i)) ix vm)%float = true.
Proof.
  intros H; apply (fold_left_inv (fun s => (0 <=? s)%float = true)); [exact H|].
  intros i s _ Hs; apply fmax_nonneg, Hs.
Qed.

Lemma fold_fmax_below (ix : list Z) (vm z : double) :
  (0 <=? vm)%float = true -> (vm <? z)%float = false ->
  (fold_left (fun s i => fmax s (x i)) ix vm <? z)%float = false.
Proof.
  revert vm; induction ix as [|i ix IH]; simpl; intros vm H0 H; [exact H|].
  apply IH; [apply fmax_nonneg, H0|].
  apply fmax_below; [exact (leb_ordered _ _ H0)|exact H].
Qed.

Lemma fold_fmax_covers (ix : list Z) (vm : double) (i : Z) :
  (0 <=? vm)%float = true -> In i ix ->
  (fold_left (fun s i => fmax s (x i)) ix vm <? x i)%float = false.
Proof.
  revert vm; induction ix as [|j ix IH]; simpl; intros vm H0 Hi; [contradiction|].
  destruct Hi as [->|Hi].
  - apply fold_fmax_below; [apply fmax_nonneg, H0|apply fmax_covers].
  - apply IH; [apply fmax_nonneg, H0|exact Hi].
Qed.

Lemma fold_fmax_attained (ix : list Z) (vm : double) :
  fold_left (fun s i => fmax s (x i)) ix vm = vm \/
  exists i, In i ix /\ fold_left (fun s i => fmax s (x i)) ix vm = x i.
Proof.
  revert vm; induction ix as [|j ix IH]; simpl; intros vm; [left; reflexivity|].
  destruct (IH (fmax vm (x j))) as [E|(i & Hi & E)].
  - rewrite E; unfold fmax; destruct (vm <? x j)%float; [right; exists j|left]; auto.
  - right; exists i; auto.
Qed.
End MaxNorm.

(** X10: [vmnorm] never returns a NaN nor a negative number: the result
    compares [>= 0].  It is 0 (the initial value) or one of the
    products [fabs(v[i]) * w[i]] with [1 <= i <= n]; products that are
    NaN or negative are passed over. *)
Theorem vmnorm_value (n : Z) (v w : list double) :
  (0 <=? vmnorm n v w)%float = true /\
  (vmnorm n v w = 0%float \/
   exists i, 1 <= i <= n /\ vmnorm n v w = (abs v.[i] * w.[i])%float).
Proof.
  unfold vmnorm, for_up; split.
  - apply (fold_fmax_nonneg (fun i => (abs v.[i] * w.[i])%float)); reflexivity.
  - destruct (fold_fmax_attained (fun i => (abs v.[i] * w.[i])%float) (upto 1 n) 0%float)
      as [E|(i & Hi & E)]; [left; exact E|right].
    exists i; split; [apply in_upto, Hi|exact E].
Qed.

(** X11: no product [fabs(v[i]) * w[i]] with [1 <= i <= n] is greater
    than [vmnorm(n, v, w)]; a product that is not a NaN is less than
    or equal to it. *)
Theorem vmnorm_dominates (n : Z) (v w : list double) (i : Z) :
  1 <= i <= n ->
  (vmnorm n v w <? abs v.[i] * w.[i])%float = false /\
  ((abs v.[i] * w.[i] =? abs v.[i] * w.[i])%float = true ->
   (abs v.[i] * w.[i] <=? vmnorm n v w)%float = true).
Proof.
  intros Hi.
  assert (H : (vmnorm n v w <? abs v.[i] * w.[i])%float = false).
  { unfold vmnorm, for_up.
    apply (fold_fmax_covers (fun i => (abs v.[i] * w.[i])%float)); [reflexivity|].
    apply in_upto, Hi. }
  split; [exact H|intros Hx].
  apply not_ltb_leb; [|exact Hx|exact H].
  apply (leb_ordered 0%float).
  unfold vmnorm, for_up.
  apply (fold_fmax_nonneg (fun i => (abs v.[i] * w.[i])%float)); reflexivity.
Qed.

Lemma vmnorm_dominates_witness :
  1 <= 2 <= 2 /\
  (vmnorm 2 [0; 3; -4]%float [0; 1; 0.5]%float
   <? abs [0; 3; -4]%float.[2] * [0; 1; 0.5]%float.[2])%float = false /\
  ((abs [0; 3; -4]%float.[2] * [0; 1; 0.5]%float.[2]
    =? abs [0; 3; -4]%float.[2] * [0; 1; 0.5]%float.[2])%float = true ->
   (abs [0; 3; -4]%float.[2] * [0; 1; 0.5]%float.[2]
    <=? vmnorm 2 [0; 3; -4]%float [0; 1; 0.5]%float)%float = true).
Proof.
  assert (H : 1 <= 2 <= 2) by lia.
  split; [exact H|].
  exact (vmnorm_dominates 2 [0; 3; -4]%float [0; 1; 0.5]%float 2 H).
Defined.

(** * The pivot search *)

Lemma to_size_t_range (z : Z) : 0 <= to_size_t z < 2 ^ 64.
Proof. unfold to_size_t; apply Z.mod_pos_bound; lia. Qed.

Lemma size_t_of_double_nonneg (x : double) : 0 <= size_t_of_double x.
Proof.
  unfold size_t_of_double; destruct (Prim2SF x); try lia.
  apply to_size_t_range.
Qed.

(** The state of the loop of [idamax1] after the indices up to [j]. *)
Lemma idamax1_loop (T : Z -> Z) (j : Z) :
  (forall i, 0 <= T i) -> 1 <= j ->
  let '(vmax, idmax) :=
    for_up 1 j (fun i '(vmax, idmax) => if T i >? vmax then (T i, i) else (vmax, idmax))
      (0, 1) in
  1 <= idmax <= j /\ vmax = T idmax /\
  (forall i, 1 <= i <= j -> T i <= vmax) /\
  (forall i, 1 <= i < idmax -> T i < vmax).
Proof.
  intros HT Hj.
  replace j with (1 + Z.of_nat (Z.to_nat (j - 1))) by lia.
  generalize (Z.to_nat (j - 1)) as k; clear j Hj.
  induction k as [|k IH].
  - change (1 + Z.of_nat 0) with 1.
    rewrite for_up_cons, for_up_nil by lia; cbv beta iota.
    specialize (HT 1).
    destruct (Z.gtb_spec (T 1) 0); cbv beta iota; repeat split; try lia;
      intros i Hi; replace i with 1 by lia; lia.
  - rewrite for_up_snoc by lia.
    replace (1 + Z.of_nat (S k) - 1) with (1 + Z.of_nat k) by lia.
    destruct (for_up 1 (1 + Z.of_nat k) _ _) as [vmax idmax].
    destruct IH as (H1 & H2 & H3 & H4).
    destruct (Z.gtb_spec (T (1 + Z.of_nat (S k))) vmax) as [Hg|Hg]; cbv beta iota.
    + repeat split; try lia.
      * intros i Hi.
        destruct (Z.eq_dec i (1 + Z.of_nat (S k))) as [->|Hn]; [lia|].
        specialize (H3 i); lia.
      * intros i Hi; specialize (H3 i); lia.
    + repeat split; try lia.
      * intros i Hi.
        destruct (Z.eq_dec i (1 + Z.of_nat (S k))) as [->|Hn]; [lia|].
        specialize (H3 i); lia.
      * exact H4.
Qed.

(** A double whose magnitude is finite and below [2 ^ 64] has a
    significand below [2 ^ 53], and converts to [size_t] exactly: the
    integer part of the magnitude, not reduced modulo [2 ^ 64]. *)
Lemma digits2_pos_bound (m : positive) : Z.pos m < 2 ^ Z.pos (digits2_pos m).
Proof.
  induction m as [m IH|m IH|]; cbn [digits2_pos]; [| |reflexivity];
    rewrite Pos2Z.inj_succ, Z.pow_succ_r by lia;
    [rewrite Pos2Z.inj_xI|rewrite Pos2Z.inj_xO];
    generalize dependent (2 ^ Z.pos (digits2_pos m)); intros; lia.
Qed.

Lemma size_t_of_magnitude (x : double) :
  (abs x <? 0x1p64)%float = true ->
  match Prim2SF (abs x) with
  | S754_finite _ m e => size_t_of_double (abs x) = Z.shiftl (Z.pos m) e
  | S754_zero _ => size_t_of_double (abs x) = 0
  | _ => False
  end.
Proof.
  intros H; rewrite ltb_spec in H.
  pose proof (Prim2SF_valid (abs x)) as V.
  unfold size_t_of_double.
  rewrite abs_spec in *.
  destruct (Prim2SF x) as [s|s| |s m e]; cbn [SFabs] in *; try reflexivity;
    try discriminate H.
  change (Prim2SF 0x1p64) with (S754_finite false 4503599627370496 12) in H.
  unfold SFltb, SFcompare in H; cbn [negb] in H.
  unfold valid_binary, bounded, canonical_mantissa, fexp in V.
  apply andb_true_iff in V; destruct V as [V1 V2].
  apply Z.eqb_eq in V1.
  change (Z.max (Z.pos (digits2_pos m) + e - 53) (-1074) = e) in V1.
  pose proof (digits2_pos_bound m) as D.
  assert (Hm : Z.pos m < 2 ^ 53).
  { eapply Z.lt_le_trans; [exact D|]. apply Z.pow_le_mono_r; lia. }
  assert (He : e < 12 \/ e = 12 /\ Z.pos m < 4503599627370496).
  { clear V1 V2 D Hm.
    destruct (Z.compare_spec e 12) as [E|E|E].
    - right; split; [exact E|].
      assert (L : (m < 4503599627370496)%positive).
      { unfold Pos.lt, Pos.compare.
        destruct (Pos.compare_cont Eq m 4503599627370496);
          [discriminate H|reflexivity|discriminate H]. }
      exact (Pos2Z.pos_lt_pos _ _ L).
    - left; exact E.
    - discriminate H. }
  clear H V1 V2 D.
  unfold to_size_t; apply Z.mod_small.
  split; [apply Z.shiftl_nonneg; lia|].
  destruct (Z.le_gt_cases 0 e) as [P|P].
  - rewrite Z.shiftl_mul_pow2 by lia.
    destruct He as [He|[-> He]]; [|lia].
    assert (2 ^ e <= 2 ^ 11) by (apply Z.pow_le_mono_r; lia).
    assert (0 < 2 ^ e) by (apply Z.pow_pos_nonneg; lia).
    nia.
  - rewrite Z.shiftl_div_pow2 by lia.
    assert (0 < 2 ^ (- e)) by (apply Z.pow_pos_nonneg; lia).
    assert (Z.pos m / 2 ^ (- e) <= Z.pos m) by (apply Z.div_le_upper_bound; nia).
    lia.
Qed.

(** X12: [idamax1] on magnitudes that convert to [size_t].  When every
    [fabs(dx[i + offset])] with [1 <= i <= n] is finite and below
    [2 ^ 64], the value [T i] that [idamax1] compares is the integer
    part of that magnitude; [idamax1] returns an index between 1 and
    [max(1, n)], 1 when [n] is 0; no [T i] with [1 <= i <= n] is
    greater than [T] at the index returned, and every [T i] before that
    index is less: the index is the first at which the integer part of
    the magnitude is largest. *)
Theorem idamax1_first_largest_truncated (dx : list double) (n offset : Z) :
  (forall i, 1 <= i <= n -> (abs dx.[i + offset] <? 0x1p64)%float = true) ->
  let T i := size_t_of_double (abs dx.[i + offset]) in
  let k := idamax1 dx n offset in
  (forall i, 1 <= i <= n ->
     match Prim2SF (abs dx.[i + offset]) with
     | S754_finite _ m e => T i = Z.shiftl (Z.pos m) e
     | S754_zero _ => T i = 0
     | _ => False
     end) /\
  1 <= k <= Z.max 1 n /\
  (forall i, 1 <= i <= n -> T i <= T k) /\
  (forall i, 1 <= i < k -> T i < T k).
Proof.
  intros Hfit T k.
  split; [intros i Hi; apply size_t_of_magnitude, Hfit, Hi|].
  subst k; unfold idamax1.
  destruct (Z.le_gt_cases 1 n) as [Hn|Hn].
  - pose proof (idamax1_loop T n (fun i => size_t_of_double_nonneg _) Hn) as H.
    change (fun i '(vmax, idmax) =>
              let v := size_t_of_double (abs dx.[i + offset]) in
              if v >? vmax then (v, i) else (vmax, idmax))
      with (fun i '(vmax, idmax) => if T i >? vmax then (T i, i) else (vmax, idmax)).
    destruct (for_up 1 n _ _) as [vmax idmax]; cbn [snd].
    destruct H as (H1 & H2 & H3 & H4); rewrite <- H2.
    repeat split; try lia; auto.
  - rewrite for_up_nil by lia; cbn [snd].
    repeat split; try lia; intros i Hi; lia.
Qed.

Lemma idamax1_first_largest_truncated_witness :
  (forall i, 1 <= i <= 3 ->
     (abs [0; 2.5; 7.25; 7.75]%float.[i + 0] <? 0x1p64)%float = true) /\
  idamax1 [0; 2.5; 7.25; 7.75]%float 3 0 = 2 /\
  size_t_of_double (abs [0; 2.5; 7.25; 7.75]%float.[3 + 0]) = 7 /\
  size_t_of_double (abs [0; 2.5; 7.25; 7.75]%float.[3 + 0])
  <= size_t_of_double (abs [0; 2.5; 7.25; 7.75]%float.[2 + 0]).
Proof.
  assert (H : forall i, 1 <= i <= 3 ->
                (abs [0; 2.5; 7.25; 7.75]%float.[i + 0] <? 0x1p64)%float = true).
  { intros i Hi.
    destruct (Z.eq_dec i 1) as [->|N1]; [reflexivity|].
    destruct (Z.eq_dec i 2) as [->|N2]; [reflexivity|].
    destruct (Z.eq_dec i 3) as [->|N3]; [reflexivity|].
    exfalso; lia. }
  assert (L : 1 <= 3 <= 3) by lia.
  split; [exact H|].
  split; [reflexivity|].
  split; [reflexivity|].
  exact (proj1 (proj2 (proj2
           (idamax1_first_largest_truncated [0; 2.5; 7.25; 7.75]%float 3 0 H))) 3 L).
Defined.

(** * Termination *)

Section Termination.
Variable pow : double -> double -> double.
Variable f : double -> list double -> list double.

Lemma cfode_drive s meth : drive (cfode s meth) = drive s.
Proof. unfold cfode; repeat break_if; repeat break_let; reflexivity. Qed.

Lemma resetcoeff_drive s : drive (resetcoeff s) = drive s.
Proof. reflexivity. Qed.

Lemma scaleh_drive s rh pdh : drive (fst (fst (scaleh s rh pdh))) = drive s.
Proof. unfold scaleh; repeat break_if; repeat break_let; reflexivity. Qed.

Lemma endstoda_drive s : drive (endstoda s) = drive s.
Proof. reflexivity. Qed.

Lemma prja_drive s y : drive (fst (prja f s y)) = drive s.
Proof.
  unfold prja.
  match goal with |- context [for_up 1 ?b ?body ?init] =>
    assert (H : drive (fst (for_up 1 b body init)) = drive s)
  end.
  { apply for_up_inv; [reflexivity|].
    intros j [s' y'] _ Hs; exact Hs. }
  break_if; [reflexivity|].
  match type of H with drive (fst ?x) = _ => destruct x as [s1 y1] end.
  destruct (dgefa _ _ _) as [[a pv] ier].
  break_if; exact H.
Qed.

Lemma solsy_drive s y : drive (fst (solsy s y)) = drive s.
Proof. unfold solsy; break_if; reflexivity. Qed.

Lemma corfailure_drive s told rh ncf :
  drive (fst (fst (fst (corfailure s told rh ncf)))) = drive s.
Proof. unfold corfailure; break_if; reflexivity. Qed.

Lemma corrector_update_drive s y :
  drive (fst (fst (corrector_update s y))) = drive s.
Proof.
  unfold corrector_update; break_if.
  - repeat break_let; reflexivity.
  - generalize (solsy_drive s
      (for_up 1 (n s)
         (fun i y => vset y i (h_ s * (savf s).[i] - ((yh_ s).[2, i] + (acor s).[i]))%float) y)).
    destruct (solsy _ _) as [s1 y1]; simpl; intros H.
    break_let; exact H.
Qed.

Lemma after_corfailure_drive s y told rh ncf m del delp :
  drive (r_obj (after_corfailure s y told rh ncf m del delp)) = drive s.
Proof.
  unfold after_corfailure.
  generalize (corfailure_drive s told rh ncf).
  destruct (corfailure s told rh ncf) as [[[s1 rh1] ncf1] cf]; auto.
Qed.

Lemma correction_body_drive pnorm told rh ncf c :
  drive (corr_step_obj (correction_body f pnorm told rh ncf c)) = drive (c_obj c).
Proof.
  unfold correction_body.
  set (refreshed := if (c_m c =? 0) && (ipup (c_obj c) >? 0) then _ else _).
  assert (Hr : drive (fst (fst refreshed)) = drive (c_obj c)).
  { subst refreshed; break_if; [|reflexivity].
    generalize (prja_drive (c_obj c) (c_y c)).
    destruct (prja f (c_obj c) (c_y c)) as [s1 y1]; auto. }
  destruct refreshed as [[s1 y1] singular]; simpl in Hr.
  destruct singular.
  { simpl; rewrite after_corfailure_drive; auto. }
  match goal with |- context [corrector_update ?s ?y] =>
    generalize (corrector_update_drive s y); destruct (corrector_update s y) as [[s2 y2] del]
  end.
  simpl; intros H2.
  assert (H2' : drive s2 = drive (c_obj c)).
  { rewrite H2; break_if; auto. }
  clear H2.
  break_if; [exact H2'|].
  set (rate_test := if negb (c_m c =? 0) || negb (meth_ s2 =? 1) then _ else _).
  assert (Ht : drive (fst (fst rate_test)) = drive s2)
    by (subst rate_test; repeat break_if; reflexivity).
  destruct rate_test as [[s3 rate] accepted]; simpl in Ht.
  assert (H3 : drive s3 = drive (c_obj c)) by congruence.
  clear Ht H2'.
  destruct accepted.
  { cbn [corr_step_obj r_obj]; break_if; exact H3. }
  break_if.
  - break_if; cbn [corr_step_obj r_obj c_obj].
    + rewrite after_corfailure_drive; exact H3.
    + exact H3.
  - exact H3.
Qed.

Lemma correction_loop_drive fuel pnorm told rh ncf c r :
  correction_loop f fuel pnorm told rh ncf c = Some r ->
  drive (r_obj r) = drive (c_obj c).
Proof.
  revert c; induction fuel as [|fuel IH]; simpl; intros c H; [discriminate|].
  generalize (correction_body_drive pnorm told rh ncf c).
  destruct (correction_body f pnorm told rh ncf c) as [r'|r'|c'|c']; simpl; intros Hb.
  - congruence.
  - congruence.
  - rewrite (IH _ H); auto.
  - rewrite (IH _ H); auto.
Qed.

Lemma correction_drive fuel s y pnorm delp told ncf rh r :
  correction f fuel s y pnorm delp told ncf rh = Some r ->
  drive (r_obj r) = drive s.
Proof.
  unfold correction; intros H; apply correction_loop_drive in H; exact H.
Qed.

Lemma orderswitch_drive s rhup dsm pdh rh :
  drive (fst (fst (fst (fst (orderswitch pow s rhup dsm pdh rh))))) = drive s.
Proof.
  unfold orderswitch.
  break_if.
  all: repeat first [break_if | break_let
               | match goal with |- context [match ?x with Some _ => _ | None => _ end] =>
                   destruct x end];
    reflexivity.
Qed.

Lemma drive_set_cm1 v s : drive (set_cm1 v s) = drive s.
Proof. reflexivity. Qed.

Lemma drive_set_cm2 v s : drive (set_cm2 v s) = drive s.
Proof. reflexivity. Qed.

Lemma stoda_first_call_drive s : drive (stoda_first_call s) = drive s.
Proof.
  unfold stoda_first_call.
  rewrite resetcoeff_drive, drive_set_cm1, cfode_drive, drive_set_cm2, cfode_drive.
  reflexivity.
Qed.

Lemma stoda_new_h_drive s rh pdh : drive (fst (fst (stoda_new_h s rh pdh))) = drive s.
Proof.
  unfold stoda_new_h; break_if; [|reflexivity].
  rewrite scaleh_drive; reflexivity.
Qed.

Lemma stoda_new_parameters_drive s rh pdh :
  drive (fst (fst (stoda_new_parameters s rh pdh))) = drive s.
Proof.
  unfold stoda_new_parameters; rewrite stoda_new_h_drive.
  repeat break_if; rewrite ?resetcoeff_drive; try reflexivity.
  all: match goal with |- drive (set_iret ?a (set_ialth ?b ?x)) = _ =>
         change (drive x = drive s) end; rewrite cfode_drive; reflexivity.
Qed.

Lemma stoda_setup_drive s rh pdh : drive (fst (fst (stoda_setup s rh pdh))) = drive s.
Proof.
  unfold stoda_setup.
  assert (H1 : drive (if jstart s =? 0 then stoda_first_call s else s) = drive s)
    by (break_if; auto using stoda_first_call_drive).
  revert H1; generalize (if jstart s =? 0 then stoda_first_call s else s); intros s1 H1.
  assert (H2 : drive (fst (fst (if jstart s1 =? -1 then stoda_new_parameters s1 rh pdh
                                 else (s1, rh, pdh)))) = drive s)
    by (break_if; rewrite ?stoda_new_parameters_drive; auto).
  revert H2; generalize (if jstart s1 =? -1 then stoda_new_parameters s1 rh pdh
                         else (s1, rh, pdh)); intros [[s2 rh2] pdh2] H2; simpl in H2.
  break_if; rewrite ?stoda_new_h_drive; auto.
Qed.

Lemma rescale_drive s rh pdh : drive (fst (fst (rescale s rh pdh))) = drive s.
Proof. unfold rescale; apply scaleh_drive. Qed.

Lemma drive_miter s s' : drive s' = drive s -> miter s' = miter s.
Proof. unfold drive; congruence. Qed.

Lemma drive_kflag s s' : drive s' = drive s -> kflag s' = kflag s.
Proof. unfold drive; congruence. Qed.

Lemma static_maxcor s s' : static s' = static s -> maxcor s' = maxcor s.
Proof. unfold static; congruence. Qed.

Lemma static_mxncf s s' : static s' = static s -> mxncf s' = mxncf s.
Proof. unfold static; congruence. Qed.

(** ** The corrector loop *)

Lemma after_corfailure_exit s y told rh ncf m del delp :
  corr_exit ncf (after_corfailure s y told rh ncf m del delp).
Proof.
  unfold after_corfailure, corfailure, corr_exit; right.
  destruct ((abs (h_ _) <=? hmin _ * 1.00001)%float || (to_size_t (ncf + 1) =? mxncf _))
    eqn:E; cbn [r_ncf r_corflag r_obj]; split; auto.
  right; split; [reflexivity|].
  apply orb_false_iff in E; destruct E as [_ E]; apply Z.eqb_neq in E; exact E.
Qed.

Lemma correction_body_exit pnorm told rh ncf c :
  match correction_body f pnorm told rh ncf c with
  | Converged r | Failed r => corr_exit ncf r
  | _ => True
  end.
Proof.
  unfold correction_body.
  destruct (if (c_m c =? 0) && (ipup (c_obj c) >? 0) then _ else _) as [[s1 y1] singular].
  destruct singular; [apply after_corfailure_exit|].
  destruct (corrector_update _ _) as [[s2 y2] del].
  break_if; [left; split; reflexivity|].
  destruct (if negb (c_m c =? 0) || negb (meth_ s2 =? 1) then _ else _)
    as [[s3 rate] accepted].
  destruct accepted; [left; split; reflexivity|].
  break_if; [|exact I].
  break_if; [apply after_corfailure_exit|exact I].
Qed.

Lemma correction_body_progress pnorm told rh ncf c :
  1 <= maxcor (c_obj c) < 2 ^ 64 -> 0 <= miter (c_obj c) ->
  0 <= c_m c < maxcor (c_obj c) ->
  match correction_body f pnorm told rh ncf c with
  | Converged _ | Failed _ => True
  | Restart c' | Iterate c' =>
      corr_frame (c_obj c') = corr_frame (c_obj c) /\
      0 <= c_m c' < maxcor (c_obj c') /\ corr_budget c' < corr_budget c
  end.
Proof.
  intros Hmax Hmi Hm.
  pose proof (correction_body_spec f pnorm told rh ncf c) as Hb.
  destruct (correction_body f pnorm told rh ncf c) as [r|r|c'|c'];
    cbn [correction_body_post] in Hb; auto.
  - destruct Hb as (Hm' & Hip & Hfr & Hne & Hj & Hdue & _).
    split; [exact Hfr|].
    unfold corr_frame in Hfr; injection Hfr as Hfm Hfc.
    unfold corr_budget; rewrite Hm', Hip, Hfm, Hfc, Hdue.
    destruct (Z.eqb_spec (jcur (c_obj c)) 1) as [E1|E1]; [contradiction|].
    destruct (Z.eqb_spec (miter (c_obj c)) 0) as [E2|E2]; [contradiction|].
    destruct (Z.gtb_spec (miter (c_obj c)) 0) as [E3|E3]; [|lia].
    rewrite orb_true_r; cbn [orb andb Z.eqb]; lia.
  - destruct Hb as (Hm' & _ & Hfr & Hj & Hd).
    split; [exact Hfr|].
    unfold corr_frame in Hfr; injection Hfr as Hfm Hfc.
    assert (Hm1 : c_m c' = c_m c + 1).
    { rewrite Hm'; apply to_size_t_small; lia. }
    assert (Hlt : c_m c' <> maxcor (c_obj c)).
    { unfold diverged in Hd; apply orb_false_iff in Hd; destruct Hd as [Hd _].
      apply Z.eqb_neq in Hd; exact Hd. }
    split; [lia|].
    unfold corr_budget; rewrite Hfm, Hfc.
    destruct ((jcur (c_obj c) =? 1) || (miter (c_obj c) =? 0)
              || ((c_m c =? 0) && (ipup (c_obj c) >? 0))) eqn:E.
    + assert (Hs : (jcur (c_obj c') =? 1) || (miter (c_obj c) =? 0) = true).
      { apply orb_true_iff in E; destruct E as [E|E].
        - apply orb_true_iff in E; destruct E as [E|E].
          + apply Z.eqb_eq in E; rewrite (Hj (or_introl E)); reflexivity.
          + rewrite E; apply orb_true_r.
        - rewrite (Hj (or_intror E)); reflexivity. }
      rewrite Hs; cbn [orb]; lia.
    + destruct ((jcur (c_obj c') =? 1) || (miter (c_obj c) =? 0)
                || ((c_m c' =? 0) && (ipup (c_obj c') >? 0))); lia.
Qed.

Lemma correction_loop_terminates fuel pnorm told rh ncf c :
  1 <= maxcor (c_obj c) < 2 ^ 64 -> 0 <= miter (c_obj c) ->
  0 <= c_m c < maxcor (c_obj c) -> corr_budget c < Z.of_nat fuel ->
  exists r, correction_loop f fuel pnorm told rh ncf c = Some r /\ corr_exit ncf r.
Proof.
  revert c; induction fuel as [|fuel IH]; intros c Hmax Hmi Hm Hb.
  - exfalso; unfold corr_budget in Hb.
    destruct ((jcur (c_obj c) =? 1) || (miter (c_obj c) =? 0)
              || ((c_m c =? 0) && (ipup (c_obj c) >? 0))); simpl in Hb; lia.
  - simpl.
    pose proof (correction_body_progress pnorm told rh ncf c Hmax Hmi Hm) as Hp.
    pose proof (correction_body_exit pnorm told rh ncf c) as He.
    destruct (correction_body f pnorm told rh ncf c) as [r|r|c'|c'].
    + exists r; auto.
    + exists r; auto.
    + destruct Hp as (Hfr & Hm' & Hlt).
      unfold corr_frame in Hfr; injection Hfr as Hfm Hfc.
      apply IH; rewrite ?Hfm, ?Hfc; try assumption; try lia.
    + destruct Hp as (Hfr & Hm' & Hlt).
      unfold corr_frame in Hfr; injection Hfr as Hfm Hfc.
      apply IH; rewrite ?Hfm, ?Hfc; try assumption; try lia.
Qed.

Lemma correction_returns fuel s y pnorm delp told ncf rh :
  1 <= maxcor s < 2 ^ 64 -> 0 <= miter s -> 2 * maxcor s < Z.of_nat fuel ->
  exists r, correction f fuel s y pnorm delp told ncf rh = Some r /\ corr_exit ncf r.
Proof.
  intros Hmax Hmi Hf; unfold correction.
  apply correction_loop_terminates; unfold correction_entry; cbn [c_obj c_m];
    members; try lia.
  unfold corr_budget; cbn [c_obj c_m]; members.
  destruct ((jcur s =? 1) || (miter s =? 0) || _); lia.
Qed.

(** ** The loops of a step *)

Ltac drive_call :=
  let H := fresh "Hd" in
  let s' := fresh "s" in
  let a' := fresh "rh" in
  let b' := fresh "pdh" in
  let c' := fresh "rhup" in
  let d' := fresh "flag" in
  match goal with
  | |- context [rescale ?s ?rh ?pdh] =>
      pose proof (rescale_drive s rh pdh) as H;
      destruct (rescale s rh pdh) as [[s' a'] b']
  | |- context [orderswitch pow ?s ?a ?b ?c ?d] =>
      pose proof (orderswitch_drive s a b c d) as H;
      destruct (orderswitch pow s a b c d) as [[[[s' c'] b'] a'] d']
  end;
  cbn [fst] in H.

Lemma stoda_retry_again s y dsm pdh rh ncf delp :
  match stoda_retry pow f s y dsm pdh rh ncf delp with
  | StepOver _ _ => True
  | StepAgain v => drive (st_obj v) = drive s /\ st_ncf v = ncf /\ kflag s <> -10
  end.
Proof.
  unfold stoda_retry.
  break_if; [exact I|].
  destruct (kflag s >? -3) eqn:Ek.
  { apply Z.gtb_lt in Ek.
    drive_call.
    set (r1 := if (flag =? 1) || (flag =? 0) then _ else _).
    assert (H1 : drive (fst (fst r1)) = drive s).
    { subst r1. break_if. all: cbn [fst]. rewrite ?rescale_drive. all: congruence. }
    destruct r1 as [[s2 rh2] pdh2]; cbn [fst] in H1.
    set (r2 := if flag =? 2 then _ else _).
    assert (H2 : drive (fst (fst r2)) = drive s).
    { subst r2; break_if; cbn [fst]; [rewrite rescale_drive, resetcoeff_drive|]; congruence. }
    destruct r2 as [[s3 rh3] pdh3]; cbn [fst] in H2.
    cbn [st_obj st_ncf]; split; [exact H2|split; [reflexivity|lia]]. }
  destruct (kflag s =? -10) eqn:E10; [exact I|].
  apply Z.eqb_neq in E10.
  break_if; cbn [st_obj st_ncf]; (split; [|split; [reflexivity|exact E10]]).
  - reflexivity.
  - rewrite resetcoeff_drive; reflexivity.
Qed.

Lemma stoda_body_progress fuel told v :
  stoda_ready v -> 2 * maxcor (st_obj v) < Z.of_nat fuel ->
  exists r, stoda_body pow f fuel told v = Some r /\
    match r with
    | StepOver _ _ => True
    | StepAgain v' =>
        stoda_ready v' /\ maxcor (st_obj v') = maxcor (st_obj v) /\
        stoda_budget v' < stoda_budget v
    end.
Proof.
  intros (Hmax & Hmi & Hnmax & Hncf & Hk) Hfuel; unfold stoda_body.
  set (s0 := stoda_predict _).
  assert (H0 : drive s0 = drive (st_obj v) /\ static s0 = static (st_obj v))
    by (subst s0; unfold stoda_predict; repeat break_if; split; reflexivity).
  clearbody s0; destruct H0 as [Hd0 Hs0].
  assert (Hmax0 : 1 <= maxcor s0 < 2 ^ 64) by (rewrite (static_maxcor _ _ Hs0); exact Hmax).
  assert (Hmi0 : 0 <= miter s0) by (rewrite (drive_miter _ _ Hd0); exact Hmi).
  assert (Hf0 : 2 * maxcor s0 < Z.of_nat fuel) by (rewrite (static_maxcor _ _ Hs0); exact Hfuel).
  match goal with |- context [correction f fuel ?s ?y ?a ?b ?c ?d ?e] =>
    destruct (correction_returns fuel s y a b c d e Hmax0 Hmi0 Hf0) as (r0 & Er & Hex);
    pose proof (correction_static f fuel s y a b c d e r0 Er) as Hsc;
    pose proof (correction_drive fuel s y a b c d e r0 Er) as Hdc;
    rewrite Er
  end.
  clear Er Hmax0 Hmi0 Hf0.
  assert (Hs1 : static (r_obj r0) = static (st_obj v)) by congruence.
  assert (Hd1 : drive (r_obj r0) = drive (st_obj v)) by congruence.
  clear Hsc Hdc Hd0 Hs0.
  unfold corr_exit in Hex.
  revert Hs1 Hd1 Hex; generalize (r_obj r0); intros s1 Hs1 Hd1 Hex.
  pose proof (static_maxcor _ _ Hs1) as Em.
  pose proof (static_mxncf _ _ Hs1) as En.
  pose proof (drive_miter _ _ Hd1) as Ei.
  pose proof (drive_kflag _ _ Hd1) as Ek.
  destruct (r_corflag r0 =? 0) eqn:E0.
  { apply Z.eqb_eq in E0.
    assert (Hn : r_ncf r0 = st_ncf v) by (destruct Hex as [[_ H]|[_ [H|[H _]]]]; [exact H|lia|lia]).
    break_if.
    - destruct (stoda_accept _ _ _ _ _ _ _) as [s2 y2]; eexists; split; [reflexivity|exact I].
    - eexists; split; [reflexivity|].
      unfold stoda_reject.
      match goal with |- context [stoda_retry pow f ?s ?y ?a ?b ?c ?d ?e] =>
        pose proof (stoda_retry_again s y a b c d e) as Ha;
        pose proof (stoda_retry_static pow f s y a b c d e) as Hst;
        destruct (stoda_retry pow f s y a b c d e) as [s2 y2|v2]; [exact I|]
      end.
      destruct Ha as (Hd2 & Hn2 & Hk2).
      cbn [stoda_step_obj] in Hst.
      rewrite stoda_restore_static in Hst.
      pose proof (drive_miter _ _ Hd2) as Ei2.
      pose proof (drive_kflag _ _ Hd2) as Ek2.
      pose proof (static_maxcor _ _ Hst) as Em2.
      pose proof (static_mxncf _ _ Hst) as En2.
      cbn [stoda_restore miter kflag set_rmax set_yh_ set_tn_ set_kflag set_jcur
           maxcor mxncf] in Ei2, Ek2, Em2, En2, Hk2.
      rewrite Ek in Ek2, Hk2.
      assert (Ht : to_int (kflag (st_obj v) - 1) = kflag (st_obj v) - 1).
      { unfold to_int; rewrite Z.mod_small; lia. }
      rewrite Ht in Ek2, Hk2.
      unfold stoda_ready, stoda_budget.
      rewrite Ei2, Ek2, Em2, En2, Hn2, Hn, Ei, Em, En.
      repeat split; lia. }
  destruct (r_corflag r0 =? 1) eqn:E1.
  { apply Z.eqb_eq in E1.
    assert (Hn : r_ncf r0 = to_size_t (st_ncf v + 1) /\ r_ncf r0 <> mxncf s1)
      by (destruct Hex as [[H _]|[Hn [H|[_ H]]]]; [lia|lia|auto]).
    destruct Hn as [Hn Hne].
    rewrite to_size_t_small in Hn by lia.
    match goal with |- context [rescale ?s ?rh ?pdh] =>
      pose proof (rescale_drive s rh pdh) as Hd2;
      pose proof (rescale_static s rh pdh) as Hst;
      destruct (rescale s rh pdh) as [[s2 rh2] pdh2]
    end.
    cbn [fst] in Hd2, Hst.
    eexists; split; [reflexivity|].
    pose proof (drive_miter _ _ Hd2) as Ei2.
    pose proof (drive_kflag _ _ Hd2) as Ek2.
    pose proof (static_maxcor _ _ Hst) as Em2.
    pose proof (static_mxncf _ _ Hst) as En2.
    unfold stoda_ready, stoda_budget; cbn [st_obj st_ncf].
    rewrite Ei2, Ek2, Em2, En2, Ei, Ek, Em, En, Hn.
    repeat split; lia. }
  destruct (r_corflag r0 =? 2) eqn:E2.
  { eexists; split; [reflexivity|exact I]. }
  exfalso; apply Z.eqb_neq in E0, E1, E2.
  destruct Hex as [[H _]|[_ [H|[H _]]]]; contradiction.
Qed.

Lemma stoda_loop_terminates fuel passes told v :
  stoda_ready v -> 2 * maxcor (st_obj v) < Z.of_nat fuel ->
  stoda_budget v <= Z.of_nat passes ->
  exists s' y', stoda_loop pow f fuel passes told v = Done (s', y').
Proof.
  revert v; induction passes as [|passes IH]; intros v Hr Hf Hb.
  - exfalso; destruct Hr as (_ & _ & _ & Hn & Hk); unfold stoda_budget in Hb; simpl in Hb; lia.
  - simpl.
    destruct (stoda_body_progress fuel told v Hr Hf) as (r & Er & Hp); rewrite Er.
    destruct r as [s1 y1|v1]; [exists s1, y1; reflexivity|].
    destruct Hp as (Hr1 & Hm1 & Hb1).
    apply IH; [exact Hr1|rewrite Hm1; exact Hf|lia].
Qed.

Lemma stoda_returns fuel s neq y :
  1 <= maxcor s < 2 ^ 64 -> 0 <= miter s -> 1 <= mxncf s < 2 ^ 64 ->
  2 * maxcor s < Z.of_nat fuel -> mxncf s + 10 <= Z.of_nat fuel ->
  stoda pow f fuel s neq y = Stopped s \/
  exists s' y', stoda pow f fuel s neq y = Done (s', y').
Proof.
  intros Hmax Hmi Hn Hf1 Hf2; unfold stoda.
  break_if; [left; reflexivity|right].
  match goal with |- context [stoda_setup ?s ?a ?b] =>
    pose proof (stoda_setup_drive s a b) as Hd;
    pose proof (stoda_setup_static s a b) as Hs;
    destruct (stoda_setup s a b) as [[s1 rh1] pdh1]
  end.
  cbn [fst] in Hd, Hs.
  pose proof (drive_miter _ _ Hd) as Ei.
  pose proof (drive_kflag _ _ Hd) as Ek.
  pose proof (static_maxcor _ _ Hs) as Em.
  pose proof (static_mxncf _ _ Hs) as En.
  cbn [miter kflag maxcor mxncf set_jcur set_iersl set_ierpj set_kflag] in Ei, Ek, Em, En.
  apply stoda_loop_terminates; unfold stoda_ready, stoda_budget; cbn [st_obj st_ncf];
    rewrite ?Ei, ?Ek, ?Em, ?En; repeat split; lia.
Qed.

(** ** The iteration type across a step *)

Lemma methodswitch_miter s dsm pnorm pdh rh :
  miter (fst (fst (methodswitch pow s dsm pnorm pdh rh))) = miter s \/
  miter (fst (fst (methodswitch pow s dsm pnorm pdh rh))) = jtyp s \/
  miter (fst (fst (methodswitch pow s dsm pnorm pdh rh))) = 0.
Proof.
  unfold methodswitch.
  repeat first [break_if | break_let
               | match goal with |- context [match ?x with Some _ => _ | None => _ end] =>
                   destruct x end];
    cbn [fst miter set_l set_nq set_pdlast set_miter set_meth_ set_icount]; auto.
Qed.

Lemma stoda_accept_miter s y dsm pnorm pdh rh :
  miter (fst (stoda_accept pow s y dsm pnorm pdh rh)) = miter s \/
  miter (fst (stoda_accept pow s y dsm pnorm pdh rh)) = jtyp s \/
  miter (fst (stoda_accept pow s y dsm pnorm pdh rh)) = 0.
Proof.
  unfold stoda_accept.
  set (s0 := set_icount _ _).
  assert (H0 : miter s0 = miter s /\ jtyp s0 = jtyp s) by (split; reflexivity).
  clearbody s0; destruct H0 as [H0 H0'].
  assert (Hm : miter (fst (fst (if icount s0 <? 0 then methodswitch pow s0 dsm pnorm pdh rh
                                 else (s0, pdh, rh)))) = miter s0 \/
               miter (fst (fst (if icount s0 <? 0 then methodswitch pow s0 dsm pnorm pdh rh
                                 else (s0, pdh, rh)))) = jtyp s0 \/
               miter (fst (fst (if icount s0 <? 0 then methodswitch pow s0 dsm pnorm pdh rh
                                 else (s0, pdh, rh)))) = 0)
    by (break_if; [apply methodswitch_miter|left; reflexivity]).
  rewrite H0, H0' in Hm; clear H0 H0'.
  destruct (if icount s0 <? 0 then methodswitch pow s0 dsm pnorm pdh rh else (s0, pdh, rh))
    as [[s1 pdh1] rh1]; cbn [fst] in Hm.
  assert (E : forall x, miter x = miter s1 ->
            miter x = miter s \/ miter x = jtyp s \/ miter x = 0)
    by (intros x ->; exact Hm).
  apply E; clear E Hm.
  break_if.
  { drive_call; cbn [fst]; apply drive_miter; rewrite endstoda_drive.
    change (drive s2 = drive s1); exact Hd. }
  set (s2 := set_ialth _ s1).
  assert (H2 : drive s2 = drive s1) by reflexivity.
  clearbody s2.
  assert (Hn : forall s', drive s' = drive s1 ->
            miter (fst (if (ialth s' >? 1) || (l s' =? lmax s') then (endstoda s', y)
                         else (endstoda (set_yh_ (for_up 1 (n s')
                                 (fun i yh => mset yh (lmax s') i (acor s').[i]) (yh_ s')) s'), y)))
            = miter s1).
  { intros s' Hs'; apply drive_miter in Hs'; rewrite <- Hs'.
    break_if; cbn [fst]; reflexivity. }
  break_if; [|apply Hn; auto].
  set (up := if negb (l s2 =? lmax s2) then _ else _).
  assert (Hu : drive (fst up) = drive s1) by (subst up; break_if; auto).
  destruct up as [s3 rhup]; cbn [fst] in Hu.
  drive_call.
  assert (Hs0 : drive s4 = drive s1) by congruence.
  repeat break_if; try (apply Hn; congruence).
  - cbn [fst]; apply drive_miter; rewrite endstoda_drive; exact Hs0.
  - drive_call; cbn [fst]; apply drive_miter; rewrite endstoda_drive.
    change (drive s5 = drive s1); congruence.
  - drive_call; cbn [fst]; apply drive_miter; rewrite endstoda_drive.
    change (drive s5 = drive s1); rewrite Hd0, resetcoeff_drive; exact Hs0.
  - cbn [fst]; apply drive_miter; rewrite endstoda_drive; exact Hs0.
  - cbn [fst]; apply drive_miter; rewrite endstoda_drive; exact Hs0.
Qed.

Lemma stoda_retry_miter s y dsm pdh rh ncf delp :
  miter (stoda_step_obj (stoda_retry pow f s y dsm pdh rh ncf delp)) = miter s.
Proof.
  unfold stoda_retry.
  break_if; [reflexivity|].
  break_if.
  { drive_call.
    set (r1 := if (flag =? 1) || (flag =? 0) then _ else _).
    assert (H1 : drive (fst (fst r1)) = drive s).
    { subst r1. break_if. all: cbn [fst]. rewrite ?rescale_drive. all: congruence. }
    destruct r1 as [[s2 rh2] pdh2]; cbn [fst] in H1.
    set (r2 := if flag =? 2 then _ else _).
    assert (H2 : drive (fst (fst r2)) = drive s).
    { subst r2; break_if; cbn [fst]; [rewrite rescale_drive, resetcoeff_drive|]; congruence. }
    destruct r2 as [[s3 rh3] pdh3]; cbn [fst] in H2.
    cbn [stoda_step_obj st_obj]; apply drive_miter, H2. }
  break_if; [reflexivity|].
  break_if; cbn [stoda_step_obj st_obj]; [reflexivity|].
  apply drive_miter; rewrite resetcoeff_drive; reflexivity.
Qed.

Lemma stoda_body_miter fuel told v r :
  stoda_body pow f fuel told v = Some r ->
  miter (stoda_step_obj r) = miter (st_obj v) \/
  miter (stoda_step_obj r) = jtyp (st_obj v) \/
  miter (stoda_step_obj r) = 0.
Proof.
  unfold stoda_body.
  set (s0 := stoda_predict _).
  assert (H0 : drive s0 = drive (st_obj v) /\ static s0 = static (st_obj v))
    by (subst s0; unfold stoda_predict; repeat break_if; split; reflexivity).
  clearbody s0; destruct H0 as [Hd0 Hs0].
  match goal with |- context [correction f fuel ?s ?y ?a ?b ?c ?d ?e] =>
    pose proof (correction_static f fuel s y a b c d e) as Hsc;
    pose proof (correction_drive fuel s y a b c d e) as Hdc;
    destruct (correction f fuel s y a b c d e) as [r0|]; [|discriminate]
  end.
  specialize (Hsc r0 eq_refl); specialize (Hdc r0 eq_refl).
  assert (Hs1 : static (r_obj r0) = static (st_obj v)) by congruence.
  assert (Hd1 : drive (r_obj r0) = drive (st_obj v)) by congruence.
  clear Hsc Hdc Hd0 Hs0.
  revert Hs1 Hd1; generalize (r_obj r0); intros s1 Hs1 Hd1.
  assert (Ei : miter s1 = miter (st_obj v)) by (apply drive_miter, Hd1).
  assert (Ej : jtyp s1 = jtyp (st_obj v)) by (unfold static in Hs1; congruence).
  break_if.
  { break_if.
    - pose proof (stoda_accept_miter (set_jcur 0 s1) (r_y r0)) as Ha.
      match goal with |- context [stoda_accept pow ?s ?y ?a ?b ?c ?d] =>
        specialize (Ha a b c d); destruct (stoda_accept pow s y a b c d) as [s2 y2]
      end.
      cbn [fst miter jtyp set_jcur] in Ha.
      intros H; injection H as <-; cbn [stoda_step_obj].
      rewrite Ei, Ej in Ha; exact Ha.
    - intros H; injection H as <-; left.
      unfold stoda_reject; rewrite stoda_retry_miter; exact Ei. }
  break_if.
  { drive_call; intros H; injection H as <-; cbn [stoda_step_obj st_obj]; left.
    rewrite (drive_miter _ _ Hd); exact Ei. }
  break_if; intros H; injection H as <-; left; exact Ei.
Qed.

Lemma stoda_loop_miter fuel passes told v s' y' :
  stoda_loop pow f fuel passes told v = Done (s', y') ->
  miter s' = miter (st_obj v) \/ miter s' = jtyp (st_obj v) \/ miter s' = 0.
Proof.
  revert v; induction passes as [|passes IH]; simpl; intros v H; [discriminate|].
  pose proof (stoda_body_miter fuel told v) as Hb.
  pose proof (stoda_body_static pow f fuel told v) as Hs.
  destruct (stoda_body pow f fuel told v) as [[s1 y1|v1]|]; try discriminate.
  - injection H as <- <-; apply (Hb _ eq_refl).
  - specialize (Hb _ eq_refl); specialize (Hs _ eq_refl); cbn [stoda_step_obj] in Hb, Hs.
    assert (Ej : jtyp (st_obj v1) = jtyp (st_obj v)) by (unfold static in Hs; congruence).
    specialize (IH _ H); rewrite Ej in IH.
    destruct IH as [IH|IH]; [rewrite IH; exact Hb|auto].
Qed.

Lemma stoda_miter fuel s neq y s' y' :
  stoda pow f fuel s neq y = Done (s', y') ->
  miter s' = miter s \/ miter s' = jtyp s \/ miter s' = 0.
Proof.
  unfold stoda; break_if; [discriminate|].
  match goal with |- context [stoda_setup ?s ?a ?b] =>
    pose proof (stoda_setup_drive s a b) as Hd;
    pose proof (stoda_setup_static s a b) as Hs;
    destruct (stoda_setup s a b) as [[s1 rh1] pdh1]
  end.
  cbn [fst] in Hd, Hs; intros H; apply stoda_loop_miter in H; cbn [st_obj] in H.
  apply drive_miter in Hd; cbn [miter set_jcur set_iersl set_ierpj set_kflag] in Hd.
  assert (Ej : jtyp s1 = jtyp s) by (unfold static in Hs; cbn in Hs; congruence).
  rewrite Hd, Ej in H; exact H.
Qed.
End Termination.

(** X13: the loop of [correction] ends.  With [1 <= maxcor], [miter] not
    negative and more than [2 * maxcor] passes allowed, [correction]
    returns; then [*corflag] is 0 and [*ncf] is unchanged, or [*ncf]
    has been increased by one and [*corflag] is 2, or 1 with [*ncf]
    different from [mxncf]. *)
Theorem correction_terminates (f : double -> list double -> list double) (fuel : nat)
    (s : LSODA) (y : list double) (pnorm delp told : double) (ncf : Z) (rh : double) :
  1 <= maxcor s < 2 ^ 64 -> 0 <= miter s -> 2 * maxcor s < Z.of_nat fuel ->
  exists r,
    correction f fuel s y pnorm delp told ncf rh = Some r /\
    ((r_corflag r = 0 /\ r_ncf r = ncf) \/
     (r_ncf r = to_size_t (ncf + 1) /\
      (r_corflag r = 2 \/ (r_corflag r = 1 /\ r_ncf r <> mxncf (r_obj r))))).
Proof. intros Hmax Hmi Hf; exact (correction_returns f fuel s y pnorm delp told ncf rh Hmax Hmi Hf). Qed.

Lemma correction_terminates_witness :
  1 <= maxcor paced_object < 2 ^ 64 /\ 0 <= miter paced_object /\
  2 * maxcor paced_object < Z.of_nat 7 /\
  exists r,
    correction zero_rhs 7 paced_object [0; 0]%float 0 0 0 0 0 = Some r /\
    ((r_corflag r = 0 /\ r_ncf r = 0) \/
     (r_ncf r = to_size_t (0 + 1) /\
      (r_corflag r = 2 \/ (r_corflag r = 1 /\ r_ncf r <> mxncf (r_obj r))))).
Proof.
  assert (H1 : 1 <= maxcor paced_object < 2 ^ 64) by (change (1 <= 3 < 2 ^ 64); lia).
  assert (H2 : 0 <= miter paced_object) by (change (0 <= 0); lia).
  assert (H3 : 2 * maxcor paced_object < Z.of_nat 7) by reflexivity.
  split; [exact H1|split; [exact H2|split; [exact H3|]]].
  exact (correction_terminates zero_rhs 7 paced_object [0; 0]%float 0 0 0 0 0 H1 H2 H3).
Defined.

(** X14: the loops of [stoda] end.  With [1 <= maxcor], [1 <= mxncf] and
    [miter] not negative, a call of [stoda] allowed more than
    [2 * maxcor] passes through the loop of [correction] and
    [mxncf + 10] passes through its own is cut by [Rcpp::stop] at entry
    or returns: fewer than [mxncf] corrector failures and at most ten
    error test failures are retried. *)
Theorem stoda_terminates (pow : double -> double -> double)
    (f : double -> list double -> list double) (fuel : nat) (s : LSODA) (neq : Z)
    (y : list double) :
  1 <= maxcor s < 2 ^ 64 -> 0 <= miter s -> 1 <= mxncf s < 2 ^ 64 ->
  2 * maxcor s < Z.of_nat fuel -> mxncf s + 10 <= Z.of_nat fuel ->
  stoda pow f fuel s neq y = Stopped s \/
  exists s' y', stoda pow f fuel s neq y = Done (s', y').
Proof. intros H1 H2 H3 H4 H5; exact (stoda_returns pow f fuel s neq y H1 H2 H3 H4 H5). Qed.

Lemma stoda_terminates_witness :
  1 <= maxcor paced_object < 2 ^ 64 /\ 0 <= miter paced_object /\
  1 <= mxncf paced_object < 2 ^ 64 /\
  2 * maxcor paced_object < Z.of_nat 20 /\ mxncf paced_object + 10 <= Z.of_nat 20 /\
  (stoda unit_pow zero_rhs 20 paced_object 1 [0; 0]%float = Stopped paced_object \/
   exists s' y', stoda unit_pow zero_rhs 20 paced_object 1 [0; 0]%float = Done (s', y')).
Proof.
  assert (H1 : 1 <= maxcor paced_object < 2 ^ 64) by (change (1 <= 3 < 2 ^ 64); lia).
  assert (H2 : 0 <= miter paced_object) by (change (0 <= 0); lia).
  assert (H3 : 1 <= mxncf paced_object < 2 ^ 64) by (change (1 <= 10 < 2 ^ 64); lia).
  assert (H4 : 2 * maxcor paced_object < Z.of_nat 20) by reflexivity.
  assert (H5 : mxncf paced_object + 10 <= Z.of_nat 20) by (change (10 + 10 <= 20); lia).
  split; [exact H1|split; [exact H2|split; [exact H3|split; [exact H4|split; [exact H5|]]]]].
  exact (stoda_terminates unit_pow zero_rhs 20 paced_object 1 [0; 0]%float H1 H2 H3 H4 H5).
Defined.

(** ** The integration loop *)

Lemma ewset_eq s y : ewset s y = set_ewt (ewt (ewset s y)) s.
Proof.
  unfold ewset; destruct (itol_ s) as [|p|p]; try (destruct s; reflexivity).
  do 3 (try destruct p as [p|p|]; try (destruct s; reflexivity)); reflexivity.
Qed.

Lemma intdy_pace pow s t k dky : pace (fst (fst (intdy pow s t k dky))) = pace s.
Proof. unfold intdy; cbv zeta; repeat break_if; reflexivity. Qed.

Lemma bind_keeps {A B} Q F (P0 : A -> Prop) (P : B -> Prop) (x : flow A) (g : A -> flow B) :
  flow_keeps Q F P0 x -> (forall a, P0 a -> flow_keeps Q F P (g a)) ->
  flow_keeps Q F P (bind x g).
Proof. destruct x as [a|r]; simpl; auto. Qed.

Lemma flow_keeps_weaken {A} Q F (P P' : A -> Prop) (x : flow A) :
  (forall a, P a -> P' a) -> flow_keeps Q F P x -> flow_keeps Q F P' x.
Proof. destruct x as [a|r]; simpl; auto. Qed.

Section Loop.
Variable pow : double -> double -> double.
Variable Q : LSODA -> Prop.
Variable F : Prop.
Hypothesis Q_pace : forall s s', pace s' = pace s -> Q s -> Q s'.

Lemma illegal_input_keeps {A} (P : A -> Prop) m s y t istate :
  flow_keeps Q F P (illegal_input m s y t istate).
Proof. unfold illegal_input; destruct (terminate _ _); exact I. Qed.

Lemma error_return_keeps {A} (P : A -> Prop) m s y istate :
  Q s -> flow_keeps Q F P (error_return m s y istate).
Proof.
  intros H; unfold error_return, terminate2; cbv beta zeta iota.
  cbn [flow_keeps result_keeps]; apply (Q_pace s); [reflexivity|exact H].
Qed.

Lemma success_keeps {A} (P : A -> Prop) s y itask ihit tcrit :
  Q s -> flow_keeps Q F P (success s y itask ihit tcrit).
Proof.
  intros H; unfold success, successreturn; cbv beta zeta iota.
  cbn [flow_keeps result_keeps]; apply (Q_pace s); [reflexivity|exact H].
Qed.

Lemma interpolated_return_keeps {A} (P : A -> Prop) s y tout :
  Q s -> flow_keeps Q F P (@interpolated_return pow A s y tout).
Proof.
  intros H; unfold interpolated_return.
  pose proof (intdy_pace pow s tout 0 y) as Hp.
  destruct (intdy pow s tout 0 y) as [[s1 y1] fl]; cbn [fst] in Hp.
  cbn [flow_keeps result_keeps]; apply (Q_pace s); [exact Hp|exact H].
Qed.

Lemma checked_interpolation_keeps {A} (P : A -> Prop) s y t tout istate :
  Q s -> flow_keeps Q F P (@checked_interpolation pow A s y t tout istate).
Proof.
  intros H; unfold checked_interpolation.
  pose proof (intdy_pace pow s tout 0 y) as Hp.
  destruct (intdy pow s tout 0 y) as [[s1 y1] fl]; cbn [fst] in Hp.
  break_if; [apply illegal_input_keeps|].
  cbn [flow_keeps result_keeps]; apply (Q_pace s); [exact Hp|exact H].
Qed.

Lemma step_failure_keeps s y : Q s -> result_keeps Q F (step_failure s y).
Proof.
  intros H; unfold step_failure, terminate2; cbv beta zeta.
  destruct (for_up _ _ _ _) as [big imxer']; cbv beta iota.
  cbn [result_keeps]; apply (Q_pace s); [|exact H].
  repeat break_if; reflexivity.
Qed.
End Loop.

Lemma bind_assoc {A B C} (x : flow A) (g : A -> flow B) (h : B -> flow C) :
  bind (bind x g) h = bind x (fun a => bind (g a) h).
Proof. destruct x; reflexivity. Qed.

Lemma bind_Return {A B} (r : lsoda_result) (g : A -> flow B) :
  bind (Return r) g = Return r.
Proof. reflexivity. Qed.

Lemma allocate_pace s : pace (fst (allocate s)) = pace s.
Proof. reflexivity. Qed.

(** [member_facts body] records, for the object made by [body], the
    value of each member of [pace]: the value just assigned, or the value
    known for the object that [body] was made from. *)
Ltac member_fact p body :=
  try (lazymatch body with
       | ewset ?o ?y =>
           match goal with
           | H : p o = ?val |- _ =>
               assert (p body = val) by (rewrite (ewset_eq o y); exact H)
           end
       | _ =>
           let r := eval cbn [maxcor mxncf jtyp mxstep nslast miter nst kflag
                     set_ml set_mu set_imxer set_sqrteta set_el set_cm1 set_cm2
                     set_elco set_tesco set_illin set_init set_ierpj set_iersl set_jcur set_l
                     set_miter set_maxord set_maxcor set_msbp set_mxncf set_kflag set_jstart
                     set_iret set_ixpr set_jtyp set_mused set_mxordn set_mxords set_meth_ set_n
                     set_nq set_nst set_nfe set_nje set_nqu set_mxstep set_mxhnil set_nslast
                     set_nhnil set_ntrep set_nyh set_ccmax set_el0 set_h_ set_hmin set_hmxi
                     set_hu set_rc set_tn_ set_tsw set_pdnorm set_conit set_crate set_hold
                     set_rmax set_ialth set_ipup set_lmax set_nslp set_pdest set_pdlast
                     set_ratio set_icount set_irflag set_ewt set_savf set_acor set_yh_ set_wm_
                     set_ipvt set_itol_ set_rtol_ set_atol_ set_rcerr print] in (p body) in
           lazymatch r with
           | p ?o =>
               match goal with
               | H : p o = ?val |- _ => assert (p body = val) by exact H
               end
           | _ => assert (p body = r) by reflexivity
           end
       end).

Ltac member_facts body :=
  member_fact maxcor body; member_fact mxncf body; member_fact jtyp body;
  member_fact mxstep body; member_fact nslast body; member_fact miter body;
  member_fact nst body; member_fact kflag body.

(** Drops what is known of the objects that the rest of the block no
    longer mentions. *)
Ltac forget_old x :=
  repeat match goal with
  | H : _ ?o = _ |- _ =>
      is_var o;
      lazymatch type of o with LSODA => idtac end;
      tryif constr_eq o x then fail else idtac;
      lazymatch goal with |- context [o] => fail | _ => idtac end;
      clear H
  end.

(** Gives the object made by [v] a name, keeping only what was recorded
    of it. *)
Ltac name_object v :=
  repeat match goal with H : _ v = _ |- _ => revert H end;
  let x' := fresh "s" in
  generalize v; intros x'; intros; forget_old x'.

(** Rewrites a test on a member with the value known for it. *)
Ltac known_test E :=
  repeat match goal with
  | H : ?p ?o = _ |- _ =>
      lazymatch p with
      | maxcor => idtac | mxncf => idtac | jtyp => idtac | mxstep => idtac
      | nslast => idtac | miter => idtac | nst => idtac | kflag => idtac
      end;
      lazymatch type of E with context [p o] => rewrite H in E end
  end.

(** One step of the symbolic execution of a block; [rec body] records
    what is to be known of the object made by [body]. *)
Ltac track_with rec :=
  lazymatch goal with
  | |- flow_keeps ?Q ?F ?P (let '(a, b) := (if ?c then _ else _) in _) =>
      let E := fresh "E" in destruct c eqn:E; try discriminate E; try known_test E
  | |- flow_keeps ?Q ?F ?P (let '(a, b) := allocate ?o in _) =>
      let H := fresh "A" in
      let x' := fresh "s" in
      let n' := fresh "lenyh" in
      pose proof (allocate_pace o) as H;
      destruct (allocate o) as [x' n']; cbn [fst] in H; unfold pace in H;
      injection H; intros
  | |- flow_keeps ?Q ?F ?P (let '(a, b) := (?u, ?v) in _) => cbv beta iota
  | |- flow_keeps ?Q ?F ?P (let x := (if ?c then _ else _) in _) =>
      let E := fresh "E" in destruct c eqn:E; try discriminate E; try known_test E
  | |- flow_keeps ?Q ?F ?P (let x := (let y := (if ?c then _ else _) in _) in _) =>
      let E := fresh "E" in destruct c eqn:E; try discriminate E; try known_test E
  | |- flow_keeps ?Q ?F ?P (let x := (let y := ?v in @?b y) in @?c x) =>
      tryif is_var v then (change (flow_keeps Q F P (let x := b v in c x)); cbv beta)
      else (rec v; name_object v)
  | |- flow_keeps ?Q ?F ?P (let x := ?v in @?b x) =>
      tryif is_var v then (change (flow_keeps Q F P (b v)); cbv beta)
      else (rec v; name_object v)
  | |- flow_keeps ?Q ?F ?P (bind (let x := (if ?c then _ else _) in _) _) =>
      let E := fresh "E" in destruct c eqn:E; try discriminate E; try known_test E
  | |- flow_keeps ?Q ?F ?P (bind (let x := ?v in @?b x) ?g) =>
      tryif is_var v then (change (flow_keeps Q F P (bind (b v) g)); cbv beta)
      else (rec v; name_object v)
  | |- flow_keeps _ _ _ (bind (if ?c then _ else _) _) =>
      let E := fresh "E" in destruct c eqn:E; try discriminate E; try known_test E
  | |- flow_keeps _ _ _ (bind (bind _ _) _) => rewrite bind_assoc
  | |- flow_keeps _ _ _ (bind (Return _) _) => rewrite bind_Return
  | |- flow_keeps _ _ _ (bind (match check_tolerances ?a ?b ?c ?d with _ => _ end) _) =>
      destruct (check_tolerances a b c d)
  | |- flow_keeps _ _ _ (bind (illegal_input _ _ _ _ _) _) =>
      rewrite bind_illegal_input; apply illegal_input_keeps
  | |- flow_keeps _ _ _ (bind (error_return _ _ _ _) _) =>
      rewrite bind_error_return; apply error_return_keeps; [assumption|]
  | |- flow_keeps _ _ _ (bind (match invert_ewt ?a ?b with _ => _ end) _) =>
      destruct (invert_ewt a b) as [? [?|]]
  | |- flow_keeps _ _ _ (bind (match initial_step ?a ?b ?c ?d with _ => _ end) _) =>
      destruct (initial_step a b c d)
  | |- flow_keeps ?Q ?F ?P (bind (Go ?a) ?g) =>
      rewrite bind_Go;
      lazymatch type of a with
      | LSODA => tryif is_var a then cbv beta else (rec a; name_object a; cbv beta)
      | _ => cbv beta iota
      end
  | |- flow_keeps _ _ _ (match ?i with Z0 => _ | Zpos _ => _ | Zneg _ => _ end) =>
      destruct i
  | |- flow_keeps _ _ _ (match ?p with xI _ => _ | xO _ => _ | xH => _ end) =>
      destruct p
  | |- flow_keeps _ _ _ (illegal_input _ _ _ _ _) => apply illegal_input_keeps
  | |- flow_keeps _ _ _ (error_return _ _ _ _) => apply error_return_keeps; [assumption|]
  | |- flow_keeps _ _ _ (success _ _ _ _ _) => apply success_keeps; [assumption|]
  | |- flow_keeps _ _ _ (interpolated_return _ _ _ _) =>
      apply interpolated_return_keeps; [assumption|]
  | |- flow_keeps _ _ _ (checked_interpolation _ _ _ _ _ _) =>
      apply checked_interpolation_keeps; [assumption|]
  | |- flow_keeps _ _ _ (Return (Stopped _)) => exact I
  | |- flow_keeps _ _ _ (if ?c then _ else _) =>
      let E := fresh "E" in destruct c eqn:E; try discriminate E; try known_test E
  | |- flow_keeps _ _ _ (match invert_ewt ?a ?b with _ => _ end) =>
      destruct (invert_ewt a b) as [? [?|]]
  | |- flow_keeps _ _ _ (match initial_step ?a ?b ?c ?d with _ => _ end) =>
      destruct (initial_step a b c d)
  | |- flow_keeps ?Q ?F ?P (Go (if ?c then _ else _)) =>
      let E := fresh "E" in destruct c eqn:E; try discriminate E; try known_test E
  | |- flow_keeps ?Q ?F ?P (Go (?a, ?b)) =>
      lazymatch type of a with
      | LSODA => tryif is_var a then fail else (rec a; name_object a)
      end
  | |- flow_keeps ?Q ?F ?P (Go ?a) =>
      lazymatch type of a with
      | LSODA => tryif is_var a then fail else (rec a; name_object a)
      end
  end.

Ltac track_step := track_with member_facts.

Ltac same_pace :=
  cbn [flow_keeps fst snd]; unfold pace; first [congruence | split; [congruence|]].

(** Closes a goal [Q o] for an object [o] with the members of [pace] as
    in an object known to satisfy [Q]. *)
Ltac kept_object :=
  lazymatch goal with
  | |- ?q ?o =>
      is_var q;
      match goal with
      | Hp : forall s s', pace s' = pace s -> q s -> q s' |- _ =>
          eapply Hp; [|eassumption]; unfold pace;
          cbn [maxcor mxncf jtyp mxstep nslast miter nst kflag set_ewt]; congruence
      end
  end.

Ltac pace_known s :=
  let F1 := fresh "F" in pose proof (eq_refl : maxcor s = maxcor s) as F1;
  let F2 := fresh "F" in pose proof (eq_refl : mxncf s = mxncf s) as F2;
  let F3 := fresh "F" in pose proof (eq_refl : jtyp s = jtyp s) as F3;
  let F4 := fresh "F" in pose proof (eq_refl : mxstep s = mxstep s) as F4;
  let F5 := fresh "F" in pose proof (eq_refl : nslast s = nslast s) as F5;
  let F6 := fresh "F" in pose proof (eq_refl : miter s = miter s) as F6;
  let F7 := fresh "F" in pose proof (eq_refl : nst s = nst s) as F7;
  let F8 := fresh "F" in pose proof (eq_refl : kflag s = kflag s) as F8.

Section Loop2.
Variable pow : double -> double -> double.
Variable f : double -> list double -> list double.
Variable Q : LSODA -> Prop.
Variable F : Prop.
Hypothesis Q_pace : forall s s', pace s' = pace s -> Q s -> Q s'.

Lemma step_preamble_keeps s y t istate :
  Q s ->
  flow_keeps Q F
    (fun s1 => pace s1 = pace s /\
               (negb (istate =? 1) || negb (nst s =? 0) = true ->
                to_size_t (nst s - nslast s) < mxstep s))
    (step_preamble s y t istate).
Proof.
  intros HQ; pace_known s.
  cbv beta delta [step_preamble]; repeat track_step.
  all: try kept_object.
  all: same_pace.
  all: try (intros _; match goal with
            | H : (_ >=? _) = false |- _ =>
                rewrite Z.geb_leb in H; apply Z.leb_gt in H; exact H
            end).
  all: intros; congruence.
Qed.

Lemma block_f_keeps s y tout itask ihit tcrit :
  Q s ->
  flow_keeps Q F (fun a => pace (fst a) = pace s) (block_f pow s y tout itask ihit tcrit).
Proof.
  intros HQ; pace_known s.
  cbv beta delta [block_f]; repeat track_step.
  all: try kept_object.
  all: same_pace.
Qed.

(** ** Before the loop *)

Lemma block_a_keeps s y t itask istate :
  flow_keeps Q F (fun s' => s' = s /\ 1 <= istate <= 3) (block_a s y t itask istate).
Proof.
  cbv beta delta [block_a]; repeat track_step.
  cbn [flow_keeps]; split; [reflexivity|].
  match goal with
  | H : (istate <? 1) || (istate >? 3) = false |- _ =>
      apply orb_false_iff in H; destruct H as [H1 H2];
      apply Z.ltb_ge in H1; rewrite Z.gtb_ltb in H2; apply Z.ltb_ge in H2; lia
  end.
Qed.

Lemma block_b_keeps s neq y t tout istate iopt jt iworks rworks :
  istate = 1 \/ istate = 3 ->
  flow_keeps Q F
    (fun a =>
       jtyp (fst a) = to_size_t jt /\
       mxstep (fst a) = (if iopt =? 0 then 5000
                         else if to_size_t (vget 0 iworks 3) =? 0 then 5000
                              else to_size_t (vget 0 iworks 3)) /\
       maxcor (fst a) = maxcor s /\ mxncf (fst a) = mxncf s /\ miter (fst a) = miter s /\
       nst (fst a) = nst s)
    (block_b s neq y t tout istate iopt jt iworks rworks).
Proof.
  intros Hi.
  pose proof (eq_refl : maxcor s = maxcor s) as F1.
  pose proof (eq_refl : mxncf s = mxncf s) as F2.
  pose proof (eq_refl : miter s = miter s) as F6.
  pose proof (eq_refl : nst s = nst s) as F7.
  cbv beta delta [block_b];
    repeat track_with ltac:(fun b => member_fact jtyp b; member_fact mxstep b;
                              member_fact maxcor b; member_fact mxncf b;
                              member_fact miter b; member_fact nst b).
  all: cbn [flow_keeps fst snd].
  all: try (exfalso; destruct Hi as [-> | ->]; discriminate).
  all: try match goal with E : (to_size_t _ =? 0) = _ |- _ => rewrite E end.
  all: repeat (split; [congruence|]); congruence.
Qed.

Lemma block_c_keeps s y t tout itask istate rworks h0 lenyh :
  (forall s', nst s' = 0 -> nslast s' = 0 -> mxstep s' = mxstep s -> Q s') ->
  flow_keeps Q F
    (fun a =>
       maxcor (fst a) = 3 /\ mxncf (fst a) = 10 /\ miter (fst a) = 0 /\
       nst (fst a) = 0 /\ nslast (fst a) = 0 /\
       jtyp (fst a) = jtyp s /\ mxstep (fst a) = mxstep s)
    (block_c f s y t tout itask istate rworks h0 lenyh).
Proof.
  intros HQ.
  pose proof (eq_refl : jtyp s = jtyp s) as F3.
  pose proof (eq_refl : mxstep s = mxstep s) as F4.
  cbv beta delta [block_c]; repeat track_step.
  all: try (apply HQ; cbn [nst nslast mxstep set_ewt]; congruence).
  all: cbn [flow_keeps fst snd].
  all: repeat (split; [congruence|]); congruence.
Qed.

Lemma block_d_keeps s y t tout itask istate rworks :
  (forall s', nst s' = nst s -> nslast s' = nst s -> mxstep s' = mxstep s -> Q s') ->
  flow_keeps Q F
    (fun a =>
       maxcor (fst (fst a)) = maxcor s /\ mxncf (fst (fst a)) = mxncf s /\
       miter (fst (fst a)) = miter s /\ nst (fst (fst a)) = nst s /\
       nslast (fst (fst a)) = nst s /\
       jtyp (fst (fst a)) = jtyp s /\ mxstep (fst (fst a)) = mxstep s)
    (block_d pow s y t tout itask istate rworks).
Proof.
  intros HQ.
  pose proof (eq_refl : maxcor s = maxcor s) as F1.
  pose proof (eq_refl : mxncf s = mxncf s) as F2.
  pose proof (eq_refl : jtyp s = jtyp s) as F3.
  pose proof (eq_refl : mxstep s = mxstep s) as F4.
  pose proof (eq_refl : miter s = miter s) as F6.
  pose proof (eq_refl : nst s = nst s) as F7.
  cbv beta delta [block_d]; repeat track_step.
  all: try (apply HQ; cbn [nst nslast mxstep set_ewt]; congruence).
  all: cbn [flow_keeps fst snd].
  all: repeat (split; [congruence|]); congruence.
Qed.

Lemma prologue_initial_keeps s neq y t tout itask iopt jt iworks rworks :
  (forall s', nst s' = 0 -> nslast s' = 0 ->
              mxstep s' = (if iopt =? 0 then 5000
                           else if to_size_t (vget 0 iworks 3) =? 0 then 5000
                                else to_size_t (vget 0 iworks 3)) -> Q s') ->
  flow_keeps Q F
    (fun a =>
       maxcor (fst (fst a)) = 3 /\ mxncf (fst (fst a)) = 10 /\ miter (fst (fst a)) = 0 /\
       nst (fst (fst a)) = 0 /\ nslast (fst (fst a)) = 0 /\
       jtyp (fst (fst a)) = to_size_t jt /\
       mxstep (fst (fst a)) = (if iopt =? 0 then 5000
                               else if to_size_t (vget 0 iworks 3) =? 0 then 5000
                                    else to_size_t (vget 0 iworks 3)))
    (lsoda_prologue pow f s neq y t tout itask 1 iopt jt iworks rworks).
Proof.
  intros HQ; unfold lsoda_prologue.
  eapply bind_keeps; [apply block_a_keeps|]; intros s0 [-> _].
  eapply bind_keeps;
    [apply (block_b_keeps s neq y t tout 1 iopt jt iworks rworks); left; reflexivity|].
  intros [s1 h0] (B1 & B2 & _); cbn [fst] in B1, B2.
  change (1 =? 1) with true; change (1 =? 2) with false; change (1 =? 3) with false.
  cbn [orb]; cbv iota.
  pose proof (allocate_pace s1) as A; destruct (allocate s1) as [s2 lenyh].
  cbn [fst] in A; unfold pace in A; injection A as _ _ A3 A4 _ _ _ _.
  eapply (bind_keeps Q F (fun s' => s' = s2)).
  { destruct (check_tolerances _ _ _ _); [apply illegal_input_keeps|reflexivity]. }
  intros s3 ->.
  eapply bind_keeps;
    [apply block_c_keeps; intros s' N1 N2 N3; apply HQ; congruence|].
  intros [s4 tcrit] (C1 & C2 & C3 & C4 & C5 & C6 & C7); cbn [fst flow_keeps] in *.
  repeat (split; [congruence|]); congruence.
Qed.

Lemma prologue_continuation_keeps s neq y t tout itask iopt jt iworks rworks :
  (forall s', nst s' = nst s -> nslast s' = nst s -> mxstep s' = mxstep s -> Q s') ->
  flow_keeps Q F
    (fun a =>
       maxcor (fst (fst a)) = maxcor s /\ mxncf (fst (fst a)) = mxncf s /\
       miter (fst (fst a)) = miter s /\ nst (fst (fst a)) = nst s /\
       nslast (fst (fst a)) = nst s /\
       jtyp (fst (fst a)) = jtyp s /\ mxstep (fst (fst a)) = mxstep s)
    (lsoda_prologue pow f s neq y t tout itask 2 iopt jt iworks rworks).
Proof.
  intros HQ; unfold lsoda_prologue.
  eapply bind_keeps; [apply block_a_keeps|]; intros s0 [-> _].
  change (block_b s neq y t tout 2 iopt jt iworks rworks)
    with (@Go (LSODA * double) (s, 0%float)).
  rewrite bind_Go.
  change (2 =? 1) with false; change (2 =? 3) with false; change (2 =? 2) with true.
  cbn [orb bind]; cbv iota.
  apply block_d_keeps, HQ.
Qed.

Lemma prologue_restart_keeps s neq y t tout itask iopt jt iworks rworks :
  (forall s', nst s' = nst s -> nslast s' = nst s ->
              mxstep s' = (if iopt =? 0 then 5000
                           else if to_size_t (vget 0 iworks 3) =? 0 then 5000
                                else to_size_t (vget 0 iworks 3)) -> Q s') ->
  flow_keeps Q F
    (fun a =>
       maxcor (fst (fst a)) = maxcor s /\ mxncf (fst (fst a)) = mxncf s /\
       miter (fst (fst a)) = miter s /\ nst (fst (fst a)) = nst s /\
       nslast (fst (fst a)) = nst s /\
       jtyp (fst (fst a)) = to_size_t jt /\
       mxstep (fst (fst a)) = (if iopt =? 0 then 5000
                               else if to_size_t (vget 0 iworks 3) =? 0 then 5000
                                    else to_size_t (vget 0 iworks 3)))
    (lsoda_prologue pow f s neq y t tout itask 3 iopt jt iworks rworks).
Proof.
  intros HQ; unfold lsoda_prologue.
  eapply bind_keeps; [apply block_a_keeps|]; intros s0 [-> _].
  eapply bind_keeps;
    [apply (block_b_keeps s neq y t tout 3 iopt jt iworks rworks); right; reflexivity|].
  intros [s1 h0] (B1 & B2 & B3 & B4 & B5 & B6); cbn [fst] in B1, B2, B3, B4, B5, B6.
  change (3 =? 1) with false; change (3 =? 2) with false; change (3 =? 3) with true.
  cbn [orb]; cbv iota.
  eapply (bind_keeps Q F (fun s' => s' = s1)).
  { destruct (check_tolerances _ _ _ _); [apply illegal_input_keeps|reflexivity]. }
  intros s3 ->; cbv zeta; rewrite bind_Go; cbv beta iota.
  eapply flow_keeps_weaken;
    [|apply block_d_keeps; intros s' N1 N2 N3; apply HQ;
      cbn [nst mxstep set_jstart] in N1, N2, N3; congruence].
  intros [[s4 ihit] tcrit] (D1 & D2 & D3 & D4 & D5 & D6 & D7).
  cbn [fst maxcor mxncf miter nst jtyp mxstep set_jstart] in *.
  repeat (split; [congruence|]); congruence.
Qed.

Lemma prologue_illegal_keeps s neq y t tout itask istate iopt jt iworks rworks :
  istate < 1 \/ 3 < istate ->
  flow_keeps Q F (fun _ => False)
    (lsoda_prologue pow f s neq y t tout itask istate iopt jt iworks rworks).
Proof.
  intros Hi; unfold lsoda_prologue, block_a.
  replace ((istate <? 1) || (istate >? 3)) with true.
  - rewrite bind_illegal_input; apply illegal_input_keeps.
  - symmetry; apply orb_true_iff; rewrite Z.gtb_ltb, !Z.ltb_lt; exact Hi.
Qed.
End Loop2.

(** ** The passes of the loop *)

Lemma to_size_t_succ_minus a b :
  to_size_t (to_size_t (a + 1) - b) = to_size_t (to_size_t (a - b) + 1).
Proof.
  unfold to_size_t; rewrite Zminus_mod_idemp_l, Zplus_mod_idemp_l; f_equal; lia.
Qed.

Lemma to_size_t_le z : 0 <= z -> to_size_t z <= z.
Proof. intros H; unfold to_size_t; apply Z.mod_le; lia. Qed.

Lemma steps_left_after_step istate s s' :
  (istate = 1 -> nslast s = 0 /\ 0 <= nst s < 2 ^ 64) ->
  0 <= mxstep s < 2 ^ 64 ->
  (negb (istate =? 1) || negb (nst s =? 0) = true ->
   to_size_t (nst s - nslast s) < mxstep s) ->
  mxstep s' = mxstep s -> nslast s' = nslast s -> nst s' = to_size_t (nst s + 1) ->
  steps_left istate s' < steps_left istate s.
Proof.
  intros Hi Hmx Hc E1 E2 E3; unfold steps_left; rewrite E1, E2, E3.
  rewrite to_size_t_succ_minus.
  pose proof (to_size_t_range (nst s - nslast s)) as Hd.
  destruct (Z.eqb_spec istate 1) as [I1|I1]; cbn [negb orb andb] in *.
  - destruct (Hi I1) as [Hl Hn]; rewrite Hl in *; rewrite Z.sub_0_r in *.
    rewrite (to_size_t_small (nst s)) in * by lia.
    destruct (Z.eqb_spec (nst s) 0) as [N0|N0]; cbn [negb] in *.
    + rewrite N0; change (to_size_t (0 + 1)) with 1; cbn [Z.eqb]; lia.
    + specialize (Hc eq_refl).
      rewrite (to_size_t_small (nst s + 1)) by lia.
      destruct (Z.eqb_spec (nst s + 1) 0); lia.
  - specialize (Hc eq_refl).
    rewrite (to_size_t_small (to_size_t (nst s - nslast s) + 1)) by lia.
    lia.
Qed.

Lemma within_limit_pace base lim s s' :
  pace s' = pace s -> within_limit base lim s -> within_limit base lim s'.
Proof.
  unfold pace, within_limit; intros H; injection H as _ _ _ E4 E5 _ E7 _.
  rewrite E4, E5, E7; auto.
Qed.

Lemma within_limit_after_step istate base lim s s' :
  within_limit base lim s -> (istate = 1 -> base = 0 /\ 1 <= lim) ->
  (negb (istate =? 1) || negb (nst s =? 0) = true ->
   to_size_t (nst s - nslast s) < mxstep s) ->
  mxstep s' = mxstep s -> nslast s' = nslast s -> nst s' = to_size_t (nst s + 1) ->
  within_limit base lim s'.
Proof.
  intros (W1 & W2 & W3) Hi Hc E1 E2 E3; unfold within_limit.
  rewrite E1, E2, E3; split; [exact W1|split; [exact W2|]].
  rewrite to_size_t_succ_minus.
  pose proof (to_size_t_range (nst s - nslast s)) as Hd.
  destruct (negb (istate =? 1) || negb (nst s =? 0)) eqn:E.
  - specialize (Hc eq_refl).
    pose proof (to_size_t_le (to_size_t (nst s - nslast s) + 1)); lia.
  - apply orb_false_iff in E; destruct E as [E1' E2'].
    apply negb_false_iff in E1', E2'; apply Z.eqb_eq in E1', E2'.
    destruct (Hi E1') as [Hb Hl].
    rewrite E2', W1, Hb; change (to_size_t (to_size_t (0 - 0) + 1)) with 1; lia.
Qed.

Section Passes.
Variable pow : double -> double -> double.
Variable f : double -> list double -> list double.

Lemma lsoda_pass_progress fuel s neq y t tout itask istate ihit tcrit :
  loop_ready istate s -> 2 * maxcor s < Z.of_nat fuel -> mxncf s + 10 <= Z.of_nat fuel ->
  match lsoda_pass pow f fuel s neq y t tout itask istate ihit tcrit with
  | Return r => finished r
  | Go (s', _, _) =>
      loop_ready istate s' /\ maxcor s' = maxcor s /\ mxncf s' = mxncf s /\
      steps_left istate s' < steps_left istate s
  end.
Proof.
  intros (Hmax & Hn & Hj & Hmi & Hmx & Hi) Hf1 Hf2; unfold lsoda_pass.
  pose proof (step_preamble_keeps (fun _ => True) False (fun _ _ _ H => H) s y t istate I)
    as Hp.
  destruct (step_preamble s y t istate) as [s1|r]; cbn [bind flow_keeps] in *; [|exact Hp].
  destruct Hp as [Hp Hc]; unfold pace in Hp; injection Hp as P1 P2 P3 P4 P5 P6 P7 P8.
  destruct (stoda_returns pow f fuel s1 neq y) as [Es|(s2 & y2 & Es)];
    rewrite ?P1, ?P2, ?P6; try assumption.
  { rewrite Es; exact I. }
  rewrite Es.
  pose proof (stoda_static pow f fuel s1 neq y s2 y2 Es) as Hst.
  pose proof (stoda_post pow f fuel s1 neq y s2 y2 Es) as Hpo.
  pose proof (stoda_miter pow f fuel s1 neq y s2 y2 Es) as Hmt.
  cbn [pass_post] in Hpo; destruct Hpo as (_ & _ & Hpo).
  assert (S1 : maxcor s2 = maxcor s /\ mxncf s2 = mxncf s /\ jtyp s2 = jtyp s /\
               mxstep s2 = mxstep s /\ nslast s2 = nslast s)
    by (unfold static in Hst; repeat split; congruence).
  destruct S1 as (S1 & S2 & S3 & S4 & S5).
  assert (S6 : 0 <= miter s2) by (destruct Hmt as [-> | [-> | ->]]; lia).
  clear Hst Hmt Es.
  destruct Hpo as [[Hk Hnst]|[Hk Hnst]].
  - replace (kflag s2 =? 0) with true by (rewrite Hk; reflexivity).
    pose proof (block_f_keeps pow (fun _ => True) False (fun _ _ _ H => H)
                  s2 y2 tout itask ihit tcrit I) as Hb.
    destruct (block_f pow s2 y2 tout itask ihit tcrit) as [[s3 ihit3]|r];
      cbn [bind flow_keeps fst] in *; [|exact Hb].
    unfold pace in Hb; injection Hb as B1 B2 B3 B4 B5 B6 B7 B8.
    replace (kflag s3) with 0 by congruence.
    cbn [Z.eqb orb].
    split; [|split; [congruence|split; [congruence|]]].
    + unfold loop_ready; rewrite B1, B2, B3, B4, B5, B6, B7, S1, S2, S3, S4, S5.
      split; [lia|split; [lia|split; [lia|split; [lia|split; [lia|]]]]].
      intros I1; destruct (Hi I1) as [Hl _].
      split; [exact Hl|rewrite Hnst; apply to_size_t_range].
    + apply steps_left_after_step; try assumption; try congruence.
  - replace (kflag s2 =? 0) with false by (destruct Hk as [-> | ->]; reflexivity).
    cbn [bind].
    replace ((kflag s2 =? -1) || (kflag s2 =? -2)) with true
      by (destruct Hk as [-> | ->]; reflexivity).
    apply step_failure_keeps; [intros ? ? _ H; exact H|exact I].
Qed.

Lemma lsoda_loop_terminates fuel passes s neq y t tout itask istate ihit tcrit :
  loop_ready istate s -> 2 * maxcor s < Z.of_nat fuel -> mxncf s + 10 <= Z.of_nat fuel ->
  steps_left istate s <= Z.of_nat passes ->
  finished (lsoda_loop pow f fuel passes s neq y t tout itask istate ihit tcrit).
Proof.
  revert s y ihit; induction passes as [|passes IH]; intros s y ihit Hr Hf1 Hf2 Hb.
  - exfalso; unfold steps_left in Hb.
    destruct ((istate =? 1) && (nst s =? 0)); simpl in Hb; lia.
  - simpl.
    pose proof (lsoda_pass_progress fuel s neq y t tout itask istate ihit tcrit Hr Hf1 Hf2)
      as Hp.
    destruct (lsoda_pass pow f fuel s neq y t tout itask istate ihit tcrit)
      as [[[s1 y1] ihit1]|r]; [|exact Hp].
    destruct Hp as (Hr1 & E1 & E2 & Hlt).
    apply IH; [exact Hr1|rewrite E1; exact Hf1|rewrite E2; exact Hf2|lia].
Qed.

Lemma lsoda_initial_call_ends fuel s neq y t tout itask iopt jt iworks rworks :
  20 <= Z.of_nat fuel ->
  (if iopt =? 0 then 5000
   else if to_size_t (vget 0 iworks 3) =? 0 then 5000
        else to_size_t (vget 0 iworks 3)) + 2 <= Z.of_nat fuel ->
  finished (lsoda pow f fuel s neq y t tout itask 1 iopt jt iworks rworks).
Proof.
  intros Hf Hm; unfold lsoda.
  destruct (negb (fgt tout t)); [exact I|].
  pose proof (prologue_initial_keeps pow f (fun _ => True) False (fun _ _ _ H => H)
                s neq y t tout itask iopt jt iworks rworks (fun _ _ _ _ => I)) as Hp.
  destruct (lsoda_prologue pow f s neq y t tout itask 1 iopt jt iworks rworks)
    as [[[s1 ihit] tcrit]|r]; cbn [flow_keeps fst] in Hp; [|exact Hp].
  destruct Hp as (P1 & P2 & P3 & P4 & P5 & P6 & P7).
  assert (Hmx : 0 <= mxstep s1 < 2 ^ 64).
  { rewrite P7; destruct (iopt =? 0); [lia|].
    destruct (to_size_t (vget 0 iworks 3) =? 0); [lia|apply to_size_t_range]. }
  apply lsoda_loop_terminates.
  - unfold loop_ready; rewrite P1, P2, P3, P4, P5, P6.
    pose proof (to_size_t_range jt); lia.
  - rewrite P1; lia.
  - rewrite P2; lia.
  - unfold steps_left; rewrite P4, P5; change (to_size_t (0 - 0)) with 0.
    rewrite <- P7 in Hm; change ((1 =? 1) && (0 =? 0)) with true; cbv iota; lia.
Qed.

Lemma lsoda_continuation_ends fuel s neq y t tout itask iopt jt iworks rworks :
  1 <= maxcor s < 2 ^ 64 -> 1 <= mxncf s < 2 ^ 64 -> 0 <= jtyp s -> 0 <= miter s ->
  0 <= mxstep s < 2 ^ 64 ->
  2 * maxcor s < Z.of_nat fuel -> mxncf s + 10 <= Z.of_nat fuel ->
  mxstep s + 1 <= Z.of_nat fuel ->
  finished (lsoda pow f fuel s neq y t tout itask 2 iopt jt iworks rworks).
Proof.
  intros H1 H2 H3 H4 H5 Hf1 Hf2 Hf3; unfold lsoda.
  destruct (negb (fgt tout t)); [exact I|].
  pose proof (prologue_continuation_keeps pow f (fun _ => True) False (fun _ _ _ H => H)
                s neq y t tout itask iopt jt iworks rworks (fun _ _ _ _ => I)) as Hp.
  destruct (lsoda_prologue pow f s neq y t tout itask 2 iopt jt iworks rworks)
    as [[[s1 ihit] tcrit]|r]; cbn [flow_keeps fst] in Hp; [|exact Hp].
  destruct Hp as (P1 & P2 & P3 & P4 & P5 & P6 & P7).
  apply lsoda_loop_terminates.
  - unfold loop_ready; rewrite P1, P2, P3, P6, P7.
    repeat (split; [lia|]); intros; discriminate.
  - rewrite P1; exact Hf1.
  - rewrite P2; exact Hf2.
  - unfold steps_left; rewrite P4, P5, P7, Z.sub_diag.
    change (to_size_t 0) with 0; change (2 =? 1) with false; cbn [andb]; lia.
Qed.

(** *** The limit on the steps of a call *)

Lemma lsoda_pass_limit fuel s neq y t tout itask istate ihit tcrit base lim :
  within_limit base lim s -> (istate = 1 -> base = 0 /\ 1 <= lim) ->
  flow_keeps (within_limit base lim) True
    (fun a => within_limit base lim (fst (fst a)))
    (lsoda_pass pow f fuel s neq y t tout itask istate ihit tcrit).
Proof.
  intros HQ Hi; unfold lsoda_pass.
  eapply bind_keeps;
    [apply (step_preamble_keeps (within_limit base lim) True (within_limit_pace base lim)
              s y t istate HQ)|].
  intros s1 [Hp Hc]; unfold pace in Hp; injection Hp as P1 P2 P3 P4 P5 P6 P7 P8.
  destruct (stoda pow f fuel s1 neq y) as [[s2 y2]|s2|] eqn:Es; [|exact I|exact I].
  pose proof (stoda_static pow f fuel s1 neq y s2 y2 Es) as Hst.
  pose proof (stoda_post pow f fuel s1 neq y s2 y2 Es) as Hpo.
  cbn [pass_post] in Hpo; destruct Hpo as (_ & _ & Hpo).
  assert (S1 : mxstep s2 = mxstep s /\ nslast s2 = nslast s)
    by (unfold static in Hst; split; congruence).
  destruct S1 as (S4 & S5); clear Hst Es.
  destruct Hpo as [[Hk Hnst]|[Hk Hnst]].
  - replace (kflag s2 =? 0) with true by (rewrite Hk; reflexivity).
    assert (HQ2 : within_limit base lim s2).
    { apply (within_limit_after_step istate base lim s); try assumption; congruence. }
    eapply bind_keeps;
      [apply (block_f_keeps pow (within_limit base lim) True (within_limit_pace base lim)
                s2 y2 tout itask ihit tcrit HQ2)|].
    intros [s3 ihit3] Hb; cbn [fst] in Hb.
    pose proof Hb as Hb'; unfold pace in Hb'; injection Hb' as _ _ _ _ _ _ _ B8.
    replace (kflag s3) with 0 by congruence.
    cbn [Z.eqb orb flow_keeps fst].
    exact (within_limit_pace base lim s2 s3 Hb HQ2).
  - replace (kflag s2 =? 0) with false by (destruct Hk as [-> | ->]; reflexivity).
    rewrite bind_Go; cbv beta iota.
    replace ((kflag s2 =? -1) || (kflag s2 =? -2)) with true
      by (destruct Hk as [-> | ->]; reflexivity).
    apply step_failure_keeps; [apply within_limit_pace|].
    destruct HQ as (W1 & W2 & W3); unfold within_limit.
    rewrite S4, S5, Hnst, P7; auto.
Qed.

Lemma lsoda_loop_limit fuel passes s neq y t tout itask istate ihit tcrit base lim :
  within_limit base lim s -> (istate = 1 -> base = 0 /\ 1 <= lim) ->
  result_keeps (within_limit base lim) True
    (lsoda_loop pow f fuel passes s neq y t tout itask istate ihit tcrit).
Proof.
  revert s y ihit; induction passes as [|passes IH]; intros s y ihit HQ Hi; [exact I|].
  simpl.
  pose proof (lsoda_pass_limit fuel s neq y t tout itask istate ihit tcrit base lim HQ Hi)
    as Hp.
  destruct (lsoda_pass pow f fuel s neq y t tout itask istate ihit tcrit)
    as [[[s1 y1] ihit1]|r]; [|exact Hp].
  apply IH; [exact Hp|exact Hi].
Qed.

Lemma lsoda_limit fuel s neq y t tout itask istate iopt jt iworks rworks :
  (istate = 2 -> 0 <= mxstep s) ->
  result_keeps
    (within_limit (if istate =? 1 then 0 else nst s)
       (if istate =? 2 then mxstep s
        else if iopt =? 0 then 5000
             else if to_size_t (vget 0 iworks 3) =? 0 then 5000
                  else to_size_t (vget 0 iworks 3)))
    True
    (lsoda pow f fuel s neq y t tout itask istate iopt jt iworks rworks).
Proof.
  intros H2; unfold lsoda.
  destruct (negb (fgt tout t)); [exact I|].
  assert (HM : 1 <= (if iopt =? 0 then 5000
                     else if to_size_t (vget 0 iworks 3) =? 0 then 5000
                          else to_size_t (vget 0 iworks 3))).
  { destruct (iopt =? 0); [lia|].
    pose proof (to_size_t_range (vget 0 iworks 3)).
    destruct (Z.eqb_spec (to_size_t (vget 0 iworks 3)) 0); lia. }
  set (M := if iopt =? 0 then 5000
            else if to_size_t (vget 0 iworks 3) =? 0 then 5000
                 else to_size_t (vget 0 iworks 3)) in *.
  destruct (Z.eq_dec istate 1) as [->|N1];
    [|destruct (Z.eq_dec istate 2) as [->|N2];
      [|destruct (Z.eq_dec istate 3) as [->|N3]]].
  - change (1 =? 1) with true; change (1 =? 2) with false; cbv iota.
    assert (HQ : forall s', nst s' = 0 -> nslast s' = 0 -> mxstep s' = M ->
                            within_limit 0 M s').
    { intros s' E1 E2 E3; unfold within_limit; rewrite E1, E2, E3.
      change (to_size_t (0 - 0)) with 0; lia. }
    pose proof (prologue_initial_keeps pow f (within_limit 0 M) True
                  (within_limit_pace 0 M) s neq y t tout itask iopt jt iworks rworks HQ)
      as Hp.
    destruct (lsoda_prologue pow f s neq y t tout itask 1 iopt jt iworks rworks)
      as [[[s1 ihit] tcrit]|r]; cbn [flow_keeps fst] in Hp; [|exact Hp].
    destruct Hp as (P1 & P2 & P3 & P4 & P5 & P6 & P7).
    apply lsoda_loop_limit; [apply HQ; assumption|intros _; split; [reflexivity|exact HM]].
  - change (2 =? 1) with false; change (2 =? 2) with true; cbv iota.
    assert (HQ : forall s', nst s' = nst s -> nslast s' = nst s -> mxstep s' = mxstep s ->
                            within_limit (nst s) (mxstep s) s').
    { intros s' E1 E2 E3; unfold within_limit; rewrite E1, E2, E3, Z.sub_diag.
      change (to_size_t 0) with 0; specialize (H2 eq_refl); lia. }
    pose proof (prologue_continuation_keeps pow f (within_limit (nst s) (mxstep s)) True
                  (within_limit_pace (nst s) (mxstep s))
                  s neq y t tout itask iopt jt iworks rworks HQ) as Hp.
    destruct (lsoda_prologue pow f s neq y t tout itask 2 iopt jt iworks rworks)
      as [[[s1 ihit] tcrit]|r]; cbn [flow_keeps fst] in Hp; [|exact Hp].
    destruct Hp as (P1 & P2 & P3 & P4 & P5 & P6 & P7).
    apply lsoda_loop_limit; [apply HQ; assumption|intros; discriminate].
  - change (3 =? 1) with false; change (3 =? 2) with false; cbv iota.
    assert (HQ : forall s', nst s' = nst s -> nslast s' = nst s -> mxstep s' = M ->
                            within_limit (nst s) M s').
    { intros s' E1 E2 E3; unfold within_limit; rewrite E1, E2, E3, Z.sub_diag.
      change (to_size_t 0) with 0; lia. }
    pose proof (prologue_restart_keeps pow f (within_limit (nst s) M) True
                  (within_limit_pace (nst s) M)
                  s neq y t tout itask iopt jt iworks rworks HQ) as Hp.
    destruct (lsoda_prologue pow f s neq y t tout itask 3 iopt jt iworks rworks)
      as [[[s1 ihit] tcrit]|r]; cbn [flow_keeps fst] in Hp; [|exact Hp].
    destruct Hp as (P1 & P2 & P3 & P4 & P5 & P6 & P7).
    apply lsoda_loop_limit; [apply HQ; assumption|intros; discriminate].
  - match goal with |- result_keeps ?Q0 _ _ =>
      pose proof (prologue_illegal_keeps pow f Q0 True
                    s neq y t tout itask istate iopt jt iworks rworks ltac:(lia)) as Hp
    end.
    destruct (lsoda_prologue pow f s neq y t tout itask istate iopt jt iworks rworks)
      as [[[s1 ihit] tcrit]|r]; cbn [flow_keeps] in Hp; [destruct Hp|exact Hp].
Qed.
End Passes.

(** X15: an initial call of [lsoda] ends.  With [*istate = 1], block b
    sets the step limit [mxstep] to 5000 ([iopt = 0], or [iworks[3]]
    zero) or to [iworks[3]], and block c sets [maxcor = 3] and
    [mxncf = 10]; the call then returns, or is cut by [Rcpp::stop],
    when [mxstep + 2] passes through the integration loop and 20
    through each loop of [stoda] are allowed. *)
Theorem lsoda_initial_call_returns (pow : double -> double -> double)
    (f : double -> list double -> list double) (fuel : nat) (s : LSODA) (neq : Z)
    (y : list double) (t tout : double) (itask iopt jt : Z) (iworks : list Z)
    (rworks : list double) :
  20 <= Z.of_nat fuel ->
  (if iopt =? 0 then 5000
   else if to_size_t (vget 0 iworks 3) =? 0 then 5000
        else to_size_t (vget 0 iworks 3)) + 2 <= Z.of_nat fuel ->
  (exists r, lsoda pow f fuel s neq y t tout itask 1 iopt jt iworks rworks = Done r) \/
  (exists s', lsoda pow f fuel s neq y t tout itask 1 iopt jt iworks rworks = Stopped s').
Proof.
  intros Hf Hm.
  pose proof (lsoda_initial_call_ends pow f fuel s neq y t tout itask iopt jt iworks rworks
                Hf Hm) as H.
  destruct (lsoda pow f fuel s neq y t tout itask 1 iopt jt iworks rworks) as [r|s'|].
  - left; exists r; reflexivity.
  - right; exists s'; reflexivity.
  - destruct H.
Qed.

Lemma lsoda_initial_call_returns_witness :
  20 <= Z.of_nat 30 /\
  (if 1 =? 0 then 5000
   else if to_size_t (vget 0 [0; 0; 0; 7; 0; 0; 0] 3) =? 0 then 5000
        else to_size_t (vget 0 [0; 0; 0; 7; 0; 0; 0] 3)) + 2 <= Z.of_nat 30 /\
  ((exists r, lsoda unit_pow zero_rhs 30 toleranced_object 1 [0; 0]%float 0 1 1 1 1 2
                [0; 0; 0; 7; 0; 0; 0] (repeat 0%float 4) = Done r) \/
   (exists s', lsoda unit_pow zero_rhs 30 toleranced_object 1 [0; 0]%float 0 1 1 1 1 2
                 [0; 0; 0; 7; 0; 0; 0] (repeat 0%float 4) = Stopped s')).
Proof.
  assert (H1 : 20 <= Z.of_nat 30) by (change (20 <= 30); lia).
  assert (H2 : (if 1 =? 0 then 5000
                else if to_size_t (vget 0 [0; 0; 0; 7; 0; 0; 0] 3) =? 0 then 5000
                     else to_size_t (vget 0 [0; 0; 0; 7; 0; 0; 0] 3)) + 2 <= Z.of_nat 30)
    by (change (7 + 2 <= 30); lia).
  split; [exact H1|split; [exact H2|]].
  exact (lsoda_initial_call_returns unit_pow zero_rhs 30 toleranced_object 1 [0; 0]%float
           0 1 1 1 2 [0; 0; 0; 7; 0; 0; 0] (repeat 0%float 4) H1 H2).
Defined.

(** X16: an initial call of [lsoda_function] ends.  [lsoda_function]
    calls [lsoda] with [iopt = 0], so with the step limit 5000: called
    with [*istate = 1] it returns, or is cut by [Rcpp::stop], when 5002
    passes through the integration loop are allowed, whatever the
    object, the system and the tolerances. *)
Theorem lsoda_function_initial_call_returns (pow : double -> double -> double)
    (f : double -> list double -> list double) (fuel : nat) (s : LSODA) (neq : Z)
    (y : list double) (t tout rtol atol : double) :
  5002 <= Z.of_nat fuel ->
  (exists r, lsoda_function pow f fuel s neq y t tout 1 rtol atol = Done r) \/
  (exists s', lsoda_function pow f fuel s neq y t tout 1 rtol atol = Stopped s').
Proof.
  intros Hf; unfold lsoda_function.
  match goal with |- context [lsoda pow f fuel ?s' neq ?y' t tout 1 1 0 2 ?iw ?rw] =>
    pose proof (lsoda_initial_call_ends pow f fuel s' neq y' t tout 1 0 2 iw rw) as H
  end.
  change (0 =? 0) with true in H; cbv iota in H.
  specialize (H ltac:(lia) ltac:(lia)).
  cbv zeta.
  destruct (lsoda pow f fuel _ neq _ t tout 1 1 0 2 _ _) as [[[[[site s1] y1] t1] i1]|s'|].
  - left; eexists; reflexivity.
  - right; eexists; reflexivity.
  - destruct H.
Qed.

Lemma lsoda_function_initial_call_returns_witness :
  5002 <= Z.of_nat (Z.to_nat 5002) /\
  ((exists r, lsoda_function unit_pow zero_rhs (Z.to_nat 5002) LSODA_new 1 [0]%float
                0 1 1 0 1 = Done r) \/
   (exists s', lsoda_function unit_pow zero_rhs (Z.to_nat 5002) LSODA_new 1 [0]%float
                 0 1 1 0 1 = Stopped s')).
Proof.
  assert (H1 : 5002 <= Z.of_nat (Z.to_nat 5002)) by lia.
  split; [exact H1|].
  exact (lsoda_function_initial_call_returns unit_pow zero_rhs (Z.to_nat 5002) LSODA_new 1
           [0]%float 0 1 0 1 H1).
Defined.

(** X17: a continuation call of [lsoda] ends.  With [*istate = 2] the
    object is used as the call before left it; if its [maxcor] and
    [mxncf] are at least 1 and its [jtyp], [miter] and [mxstep] are not
    negative, the call returns, or is cut by [Rcpp::stop], when
    [mxstep + 1] passes through the integration loop are allowed
    (and [2 * maxcor + 1] and [mxncf + 10] through the loops of a
    step): block d restarts
    the count of steps at [nslast = nst], and a pass that finds
    [nst - nslast >= mxstep] returns with [*istate = -1]. *)
Theorem lsoda_continuation_call_returns (pow : double -> double -> double)
    (f : double -> list double -> list double) (fuel : nat) (s : LSODA) (neq : Z)
    (y : list double) (t tout : double) (itask iopt jt : Z) (iworks : list Z)
    (rworks : list double) :
  1 <= maxcor s < 2 ^ 64 -> 1 <= mxncf s < 2 ^ 64 -> 0 <= jtyp s -> 0 <= miter s ->
  0 <= mxstep s < 2 ^ 64 ->
  2 * maxcor s < Z.of_nat fuel -> mxncf s + 10 <= Z.of_nat fuel ->
  mxstep s + 1 <= Z.of_nat fuel ->
  (exists r, lsoda pow f fuel s neq y t tout itask 2 iopt jt iworks rworks = Done r) \/
  (exists s', lsoda pow f fuel s neq y t tout itask 2 iopt jt iworks rworks = Stopped s').
Proof.
  intros H1 H2 H3 H4 H5 Hf1 Hf2 Hf3.
  pose proof (lsoda_continuation_ends pow f fuel s neq y t tout itask iopt jt iworks rworks
                H1 H2 H3 H4 H5 Hf1 Hf2 Hf3) as H.
  destruct (lsoda pow f fuel s neq y t tout itask 2 iopt jt iworks rworks) as [r|s'|].
  - left; exists r; reflexivity.
  - right; exists s'; reflexivity.
  - destruct H.
Qed.

Lemma lsoda_continuation_call_returns_witness :
  1 <= maxcor after_first_call < 2 ^ 64 /\ 1 <= mxncf after_first_call < 2 ^ 64 /\
  0 <= jtyp after_first_call /\ 0 <= miter after_first_call /\
  0 <= mxstep after_first_call < 2 ^ 64 /\
  2 * maxcor after_first_call < Z.of_nat 60 /\
  mxncf after_first_call + 10 <= Z.of_nat 60 /\
  mxstep after_first_call + 1 <= Z.of_nat 60 /\
  init after_first_call = 1 /\
  ((exists r, lsoda unit_pow zero_rhs 60 after_first_call 1 [0; 0]%float 1 2 1 2 0 2
                (repeat 0 7) (repeat 0%float 4) = Done r) \/
   (exists s', lsoda unit_pow zero_rhs 60 after_first_call 1 [0; 0]%float 1 2 1 2 0 2
                 (repeat 0 7) (repeat 0%float 4) = Stopped s')) /\
  exists s',
    lsoda unit_pow zero_rhs 60 after_first_call 1 [0; 0]%float 1 2 1 2 0 2
      (repeat 0 7) (repeat 0%float 4)
    = Done (via_intdy, s', [0; 0]%float, 2%float, 2) /\
    nst s' = 13 /\ nslast s' = 12.
Proof.
  assert (E1 : maxcor after_first_call = 3) by (vm_compute; reflexivity).
  assert (E2 : mxncf after_first_call = 10) by (vm_compute; reflexivity).
  assert (E3 : jtyp after_first_call = 2) by (vm_compute; reflexivity).
  assert (E4 : miter after_first_call = 0) by (vm_compute; reflexivity).
  assert (E5 : mxstep after_first_call = 50) by (vm_compute; reflexivity).
  assert (H1 : 1 <= maxcor after_first_call < 2 ^ 64) by (rewrite E1; lia).
  assert (H2 : 1 <= mxncf after_first_call < 2 ^ 64) by (rewrite E2; lia).
  assert (H3 : 0 <= jtyp after_first_call) by (rewrite E3; lia).
  assert (H4 : 0 <= miter after_first_call) by (rewrite E4; lia).
  assert (H5 : 0 <= mxstep after_first_call < 2 ^ 64) by (rewrite E5; lia).
  assert (H6 : 2 * maxcor after_first_call < Z.of_nat 60) by (rewrite E1; lia).
  assert (H7 : mxncf after_first_call + 10 <= Z.of_nat 60) by (rewrite E2; lia).
  assert (H8 : mxstep after_first_call + 1 <= Z.of_nat 60) by (rewrite E5; lia).
  split; [exact H1|split; [exact H2|split; [exact H3|split; [exact H4|split; [exact H5|
    split; [exact H6|split; [exact H7|split; [exact H8|]]]]]]]].
  split; [vm_compute; reflexivity|].
  split.
  - exact (lsoda_continuation_call_returns unit_pow zero_rhs 60 after_first_call 1
             [0; 0]%float 1 2 1 0 2 (repeat 0 7) (repeat 0%float 4)
             H1 H2 H3 H4 H5 H6 H7 H8).
  - eexists; split; [vm_compute; reflexivity|].
    split; vm_compute; reflexivity.
Defined.

(** X18: a call of [lsoda] takes no more steps than [mxstep] allows.
    When [lsoda] returns through [terminate2], [successreturn] or the
    interpolation, the steps taken since the call began, [nst - nslast]
    as a [size_t], are at most [mxstep]; [nslast] is 0 after an initial
    call and the value of [nst] at entry otherwise, and [mxstep] is the
    one of the object on a continuation call ([*istate = 2]) and the
    one block b sets otherwise: 5000, or [iworks[3]] when [iopt] and
    [iworks[3]] are not zero. *)
Theorem lsoda_step_limit (pow : double -> double -> double)
    (f : double -> list double -> list double) (fuel : nat) (s : LSODA) (neq : Z)
    (y : list double) (t tout : double) (itask istate iopt jt : Z) (iworks : list Z)
    (rworks : list double) (site : return_site) (s' : LSODA) (y' : list double)
    (t' : double) (istate' : Z) :
  (istate = 2 -> 0 <= mxstep s) ->
  lsoda pow f fuel s neq y t tout itask istate iopt jt iworks rworks
  = Done (site, s', y', t', istate') ->
  (forall m, site <> via_terminate m) ->
  nslast s' = (if istate =? 1 then 0 else nst s) /\
  mxstep s' = (if istate =? 2 then mxstep s
               else if iopt =? 0 then 5000
                    else if to_size_t (vget 0 iworks 3) =? 0 then 5000
                         else to_size_t (vget 0 iworks 3)) /\
  to_size_t (nst s' - nslast s') <= mxstep s'.
Proof.
  intros H2 E Hs.
  pose proof (lsoda_limit pow f fuel s neq y t tout itask istate iopt jt iworks rworks H2)
    as H.
  rewrite E in H.
  destruct site as [m|m| |]; cbn [result_keeps] in H;
    [exfalso; apply (Hs m); reflexivity|exact H|exact H|exact H].
Qed.

Lemma lsoda_step_limit_witness :
  exists s' y',
    lsoda unit_pow zero_rhs 100 toleranced_object 1 [0; 0]%float 0 1 1 1 0 2
      (repeat 0 7) (repeat 0%float 4)
    = Done (via_intdy, s', y', 1%float, 2) /\
    (1 = 2 -> 0 <= mxstep toleranced_object) /\
    (forall m, via_intdy <> via_terminate m) /\
    nslast s' = 0 /\ mxstep s' = 5000 /\ to_size_t (nst s' - nslast s') <= mxstep s'.
Proof.
  assert (H1 : 1 = 2 -> 0 <= mxstep toleranced_object) by (intros E; discriminate E).
  assert (H3 : forall m, via_intdy <> via_terminate m) by (intros m E; discriminate E).
  do 2 eexists.
  refine ((fun H =>
             conj H (conj H1 (conj H3
               (lsoda_step_limit unit_pow zero_rhs 100 toleranced_object 1 [0; 0]%float
                  0 1 1 1 0 2 (repeat 0 7) (repeat 0%float 4) _ _ _ _ _ H1 H H3)))) _).
  vm_compute; reflexivity.
Defined.

(** * The factorization *)

Lemma for_up_counted {T : Type} (P : Z -> T -> Prop) (a b : Z) (body : Z -> T -> T) (s : T) :
  a <= b + 1 -> P (a - 1) s ->
  (forall i s, a <= i <= b -> P (i - 1) s -> P i (body i s)) ->
  P b (for_up a b body s).
Proof.
  intros Hab H0 Hstep.
  replace b with (a - 1 + Z.of_nat (Z.to_nat (b - a + 1))) at 1 2 by lia.
  assert (Hk : Z.of_nat (Z.to_nat (b - a + 1)) <= b - a + 1) by lia.
  revert Hk; generalize (Z.to_nat (b - a + 1)) as k.
  induction k as [|k IH]; intros Hk.
  - change (Z.of_nat 0) with 0; rewrite Z.add_0_r, for_up_nil by lia; exact H0.
  - rewrite for_up_snoc by lia.
    apply Hstep; [lia|].
    replace (a - 1 + Z.of_nat (S k) - 1) with (a - 1 + Z.of_nat k) by lia.
    apply IH; lia.
Qed.

Lemma idamax1_range dx n offset : 1 <= n -> 1 <= idamax1 dx n offset <= n.
Proof.
  intros Hn; unfold idamax1.
  pose proof (idamax1_loop (fun i => size_t_of_double (abs dx.[i + offset])) n
                (fun i => size_t_of_double_nonneg _) Hn) as H.
  cbv beta in H.
  change (fun i '(vmax, idmax) =>
            let v := size_t_of_double (abs dx.[i + offset]) in
            if v >? vmax then (v, i) else (vmax, idmax))
    with (fun i '(vmax, idmax) =>
            if size_t_of_double (abs dx.[i + offset]) >? vmax
            then (size_t_of_double (abs dx.[i + offset]), i) else (vmax, idmax)).
  destruct (for_up 1 n _ _) as [vmax idmax]; cbn [snd]; tauto.
Qed.

Lemma vget_nil (j : Z) : (@nil double).[j] = 0%float.
Proof. unfold vget; destruct (Z.to_nat j); reflexivity. Qed.

Lemma mget_nonzero_in_range (a : list (list double)) (k j : Z) :
  (a.[k, j] =? 0)%float = false ->
  k < Z.of_nat (length a) /\ j < Z.of_nat (length (vget [] a k)).
Proof.
  unfold mget; intros H; split.
  - destruct (Z.lt_ge_cases k (Z.of_nat (length a))) as [Hk|Hk]; [exact Hk|].
    rewrite (vget_beyond [] a k), vget_nil in H by lia; discriminate H.
  - destruct (Z.lt_ge_cases j (Z.of_nat (length (vget [] a k)))) as [Hj|Hj]; [exact Hj|].
    rewrite (vget_beyond 0%float) in H by lia; discriminate H.
Qed.

Lemma length_mset {A} (a : list (list A)) (k i : Z) (x : A) :
  length (mset a k i x) = length a.
Proof. unfold mset; apply length_vset. Qed.

Lemma row_mset_other {A} (a : list (list A)) (k i r : Z) (x : A) :
  0 <= r -> k <> r -> vget [] (mset a k i x) r = vget [] a r.
Proof. intros Hr Hk; unfold mset; apply vget_vset_ne; assumption. Qed.

Lemma row_mset_same {A} (a : list (list A)) (k i : Z) (x : A) :
  0 <= k < Z.of_nat (length a) -> vget [] (mset a k i x) k = vset (vget [] a k) i x.
Proof. intros Hk; unfold mset; apply vget_vset_eq; assumption. Qed.

Lemma dscal1_keeps (da : double) (dx : list double) (n offset i : Z) :
  0 <= i <= offset -> (dscal1 da dx n offset).[i] = dx.[i].
Proof.
  intros Hi; unfold dscal1, vget.
  destruct (Nat.lt_ge_cases (Z.to_nat i) (length dx)) as [Hl|Hl].
  - rewrite app_nth1 by (rewrite length_firstn; lia).
    rewrite nth_firstn.
    destruct (Nat.ltb_spec (Z.to_nat i) (Z.to_nat (1 + offset))); [reflexivity|lia].
  - rewrite firstn_all2, skipn_all2 by lia; cbn [map]; rewrite app_nil_r; reflexivity.
Qed.

Lemma rows_kept (k n : Z) (body : Z -> list (list double) -> list (list double))
    (a : list (list double)) (r : Z) :
  (forall i a0 q, k + 1 <= i <= n -> 0 <= q <= k ->
                  vget [] (body i a0) q = vget [] a0 q) ->
  0 <= r <= k -> vget [] (for_up (k + 1) n body a) r = vget [] a r.
Proof.
  intros Hb Hr.
  apply (for_up_inv (fun a' => vget [] a' r = vget [] a r)); [reflexivity|].
  intros i a0 Hi H0; rewrite Hb by assumption; exact H0.
Qed.

Lemma swap_pivot (a : list (list double)) (k j : Z) :
  0 <= k < Z.of_nat (length a) -> k <= j < Z.of_nat (length (vget [] a k)) ->
  let a' := if negb (j =? k) then mset (mset a k j a.[k, k]) k k a.[k, j] else a in
  length a' = length a /\
  (forall q, 0 <= q -> q <> k -> vget [] a' q = vget [] a q) /\
  a'.[k, k] = a.[k, j].
Proof.
  intros Hk Hj; cbv zeta.
  destruct (Z.eqb_spec j k) as [->|Hne]; cbn [negb].
  - repeat split; reflexivity.
  - split; [rewrite !length_mset; reflexivity|split].
    + intros q Hq Hqk; rewrite !row_mset_other by (auto; lia); reflexivity.
    + unfold mget at 1.
      rewrite row_mset_same by (rewrite length_mset; lia).
      apply vget_vset_eq.
      rewrite row_mset_same, length_vset by lia; lia.
Qed.

Lemma dgefa_step (n : Z) (ipvt : list Z) (k : Z) (a1 : list (list double))
    (ip1 : list Z) (info1 : Z) (j : Z) (a3 : list (list double)) :
  1 <= n < 2 ^ 31 -> n < Z.of_nat (length ipvt) -> 1 <= k <= n -> k <= j <= n ->
  dgefa_inv n ipvt (k - 1) (a1, ip1, info1) ->
  ((a1.[k, j] =? 0)%float = false ->
   (forall q, 0 <= q < k -> vget [] a3 q = vget [] a1 q) /\ a3.[k, k] = a1.[k, j]) ->
  dgefa_inv n ipvt k
    (if (a1.[k, j] =? 0)%float then (a1, vset ip1 k (to_int j), k)
     else (a3, vset ip1 k (to_int j), info1)).
Proof.
  intros Hn Hl Hk Hj (I1 & I2 & I3 & I4) Hnz.
  assert (Ei : to_int j = j) by (apply to_int_small; lia).
  assert (Hp : vget 0 (vset ip1 k (to_int j)) k = j)
    by (rewrite Ei; apply vget_vset_eq; lia).
  assert (Hq : forall q, 0 <= q -> q <> k -> vget 0 (vset ip1 k (to_int j)) q = vget 0 ip1 q)
    by (intros; apply vget_vset_ne; lia).
  assert (I2' : forall q, 1 <= q <= k -> q <= vget 0 (vset ip1 k (to_int j)) q <= n).
  { intros q Hq'; destruct (Z.eq_dec q k) as [->|Hne]; [rewrite Hp; lia|].
    rewrite Hq by lia; apply I2; lia. }
  destruct (a1.[k, j] =? 0)%float eqn:Ez; unfold dgefa_inv.
  - split; [rewrite length_vset; exact I1|split; [exact I2'|split; [intros; lia|]]].
    intros _; split; [lia|rewrite Hp; exact Ez].
  - destruct (Hnz eq_refl) as [Hrows Hdiag].
    split; [rewrite length_vset; exact I1|split; [exact I2'|split]].
    + intros H0 q Hq'; destruct (Z.eq_dec q k) as [->|Hne].
      * rewrite Hdiag; exact Ez.
      * unfold mget; rewrite Hrows by lia; apply (I3 H0); lia.
    + intros H0; destruct (I4 H0) as [Hi Hz]; split; [lia|].
      rewrite Hq by lia; unfold mget; rewrite Hrows by lia; exact Hz.
Qed.

Lemma dgefa_state (a : list (list double)) (n : Z) (ipvt : list Z) :
  1 <= n < 2 ^ 31 -> n < Z.of_nat (length ipvt) ->
  dgefa_inv n ipvt n (dgefa a n ipvt).
Proof.
  intros Hn Hl; unfold dgefa.
  match goal with |- context [for_up 1 ?m ?b ?i] =>
    pose proof (for_up_counted (dgefa_inv n ipvt) 1 m b i) as H
  end.
  rewrite (to_size_t_small (n - 1)) in * by lia.
  lapply H; [clear H; intros H|lia].
  lapply H; [clear H; intros H|].
  2:{ unfold dgefa_inv; repeat split; intros; try lia. }
  lapply H; [clear H; intros H|clear H].
  - destruct (for_up 1 (n - 1) _ _) as [[a1 ip1] info1].
    pose proof (dgefa_step n ipvt n a1 ip1 info1 n a1 Hn Hl ltac:(lia) ltac:(lia) H
                  (fun _ => conj (fun _ _ => eq_refl) eq_refl)) as Hs.
    destruct (a1.[n, n] =? 0)%float; exact Hs.
  - intros k [[a1 ip1] info1] Hk Hinv.
    cbv beta iota zeta.
    assert (Hj : k <= to_size_t (idamax1 (vget [] a1 k) (to_size_t (n - k + 1)) (k - 1)
                                  + k - 1) <= n).
    { rewrite (to_size_t_small (n - k + 1)) by lia.
      pose proof (idamax1_range (vget [] a1 k) (n - k + 1) (k - 1)) as Hr.
      rewrite to_size_t_small; lia. }
    set (j := to_size_t (idamax1 (vget [] a1 k) (to_size_t (n - k + 1)) (k - 1) + k - 1))
      in *.
    apply (dgefa_step n ipvt k a1 ip1 info1 j); try assumption; try lia.
    intros Ez.
    destruct (mget_nonzero_in_range a1 k j Ez) as [Hka Hjr].
    destruct (swap_pivot a1 k j ltac:(lia) ltac:(lia)) as (S1 & S2 & S3).
    cbv zeta in S1, S2, S3.
    set (a1' := if negb (j =? k) then mset (mset a1 k j a1.[k, k]) k k a1.[k, j] else a1)
      in *.
    split.
    + intros q Hq; rewrite rows_kept.
      * rewrite vget_vset_ne by lia; apply S2; lia.
      * intros i a0 r Hi Hr; cbv beta.
        rewrite vget_vset_ne by lia.
        destruct (negb (j =? k)); [|reflexivity].
        rewrite !row_mset_other by lia; reflexivity.
      * lia.
    + unfold mget at 1; rewrite rows_kept.
      * rewrite vget_vset_eq by lia.
        rewrite dscal1_keeps by lia; exact S3.
      * intros i a0 r Hi Hr; cbv beta.
        rewrite vget_vset_ne by lia.
        destruct (negb (j =? k)); [|reflexivity].
        rewrite !row_mset_other by lia; reflexivity.
      * lia.
Qed.

(** X19: the pivot indices of [dgefa] are in range.  For [1 <= n] in the
    range of [int] and [ipvt] with more than [n] elements, [dgefa]
    leaves [ipvt] with the same number of elements and with
    [k <= ipvt[k] <= n] for every column [1 <= k <= n]: the rows that
    [dgesl] exchanges exist. *)
Theorem dgefa_pivots_in_range (a : list (list double)) (n : Z) (ipvt : list Z) :
  1 <= n < 2 ^ 31 -> n < Z.of_nat (length ipvt) ->
  let '(_, ipvt', _) := dgefa a n ipvt in
  length ipvt' = length ipvt /\
  forall k, 1 <= k <= n -> k <= vget 0 ipvt' k <= n.
Proof.
  intros Hn Hl.
  pose proof (dgefa_state a n ipvt Hn Hl) as H.
  destruct (dgefa a n ipvt) as [[a' ipvt'] info].
  destruct H as (H1 & H2 & _); split; [exact H1|exact H2].
Qed.

Lemma dgefa_pivots_in_range_witness :
  1 <= 2 < 2 ^ 31 /\ 2 < Z.of_nat (length [0; 0; 0]) /\
  let '(_, ipvt', _) := dgefa sample_matrix 2 [0; 0; 0] in
  length ipvt' = length [0; 0; 0] /\
  forall k, 1 <= k <= 2 -> k <= vget 0 ipvt' k <= 2.
Proof.
  assert (H1 : 1 <= 2 < 2 ^ 31) by lia.
  assert (H2 : 2 < Z.of_nat (length [0; 0; 0])) by (change (2 < 3); lia).
  split; [exact H1|split; [exact H2|]].
  exact (dgefa_pivots_in_range sample_matrix 2 [0; 0; 0] H1 H2).
Defined.

(** X20: what [*info] of [dgefa] says.  For [1 <= n] in the range of
    [int] and [ipvt] with more than [n] elements, [*info] is between 0
    and [n].  When it is 0, no diagonal entry [a[k][k]] of the factored
    matrix, [1 <= k <= n], compares equal to zero, so [dgesl] divides by
    none that does.  When it is not 0, it is a column whose pivot is
    zero: [a[info][ipvt[info]] == 0.]. *)
Theorem dgefa_info (a : list (list double)) (n : Z) (ipvt : list Z) :
  1 <= n < 2 ^ 31 -> n < Z.of_nat (length ipvt) ->
  let '(a', ipvt', info) := dgefa a n ipvt in
  0 <= info <= n /\
  (info = 0 -> forall k, 1 <= k <= n -> (a'.[k, k] =? 0)%float = false) /\
  (info <> 0 -> (a'.[info, vget 0%Z ipvt' info] =? 0)%float = true).
Proof.
  intros Hn Hl.
  pose proof (dgefa_state a n ipvt Hn Hl) as H.
  destruct (dgefa a n ipvt) as [[a' ipvt'] info].
  destruct H as (_ & _ & H3 & H4).
  split; [|split; [exact H3|intros H0; apply (H4 H0)]].
  destruct (Z.eq_dec info 0) as [->|H0]; [lia|].
  destruct (H4 H0) as [Hi _]; lia.
Qed.

Lemma dgefa_info_witness :
  1 <= 2 < 2 ^ 31 /\ 2 < Z.of_nat (length [0; 0; 0]) /\
  let '(a', ipvt', info) := dgefa sample_matrix 2 [0; 0; 0] in
  0 <= info <= 2 /\
  (info = 0 -> forall k, 1 <= k <= 2 -> (a'.[k, k] =? 0)%float = false) /\
  (info <> 0 -> (a'.[info, vget 0%Z ipvt' info] =? 0)%float = true).
Proof.
  assert (H1 : 1 <= 2 < 2 ^ 31) by lia.
  assert (H2 : 2 < Z.of_nat (length [0; 0; 0])) by (change (2 < 3); lia).
  split; [exact H1|split; [exact H2|]].
  exact (dgefa_info sample_matrix 2 [0; 0; 0] H1 H2).
Defined.

(** * The wrapper [ode] *)

Lemma lsoda_function_illegal_istate pow f fuel s neq y t tout istate rtol atol :
  istate < 1 \/ 3 < istate -> fgt tout t = true ->
  exists s' istate',
    lsoda_function pow f fuel s neq y t tout istate rtol atol
    = Done (via_terminate illegal_istate, s', y, t, istate') /\
    (istate' < 1 \/ 3 < istate').
Proof.
  intros Hi Hgt; unfold lsoda_function, lsoda; cbv zeta.
  rewrite Hgt; cbn [negb].
  unfold lsoda_prologue, block_a.
  replace ((istate <? 1) || (istate >? 3)) with true
    by (symmetry; apply orb_true_iff; rewrite Z.gtb_ltb, !Z.ltb_lt; exact Hi).
  rewrite bind_illegal_input; unfold illegal_input, terminate.
  destruct (illin _ =? 5); cbv beta iota; cbn [skipn].
  - eexists; exists istate; split; [reflexivity|exact Hi].
  - eexists; exists (-3); split; [reflexivity|left; lia].
Qed.

Lemma ode_loop_after_failure pow func fuel neq nout rtol atol touts :
  nout <= neq ->
  forall s yin ydot t istate rows,
  istate < 1 \/ 3 < istate ->
  (forall tout, In tout touts -> fgt tout t = true) ->
  ode_loop pow func fuel neq nout rtol atol touts (s, yin, ydot, t, istate) rows
  = Done (rows ++ repeat (ode_row neq nout t yin ydot) (length touts)).
Proof.
  intros Hn; induction touts as [|tout touts IH]; intros s yin ydot t istate rows Hi Ht.
  - cbn [ode_loop length repeat]; rewrite app_nil_r; reflexivity.
  - cbn [ode_loop].
    destruct (lsoda_function_illegal_istate pow
                (if nout >? neq then func_trunc func neq nout else func)
                fuel s neq yin t tout istate rtol atol Hi (Ht tout (or_introl eq_refl)))
      as (s' & istate' & E & Hi').
    rewrite E; cbv zeta.
    assert (Ex : ode_outputs func neq nout t yin ydot = ydot).
    { unfold ode_outputs; destruct (Z.gtb_spec nout neq); [lia|reflexivity]. }
    rewrite Ex, IH by (auto; intros; apply Ht; right; assumption).
    rewrite <- app_assoc; reflexivity.
Qed.

(** X21: [ode] does not look at [istate].  Once a call of
    [lsoda_function] has left [*istate] outside 1..3, as the error
    returns with [*istate] from -1 to -6 do, every later call in the
    loop of [ode] is rejected as illegal input and changes neither [t]
    nor [yin]: with [nout] not above [neq] and the remaining output
    times after [t], the loop ends normally and each remaining row of
    [res] repeats the time and the solution of the failed call. *)
Theorem ode_repeats_after_failure (pow : double -> double -> double)
    (func : double -> list double -> list double) (fuel : nat) (neq nout : Z)
    (rtol atol : double) (touts : list double) (s : LSODA) (yin ydot : list double)
    (t : double) (istate : Z) (rows : list (list double)) :
  istate < 1 \/ 3 < istate -> nout <= neq ->
  (forall tout, In tout touts -> fgt tout t = true) ->
  ode_loop pow func fuel neq nout rtol atol touts (s, yin, ydot, t, istate) rows
  = Done (rows ++ repeat (t :: map (fun j => yin.[j]) (upto 0 (neq - 1))) (length touts)).
Proof.
  intros Hi Hn Ht.
  rewrite (ode_loop_after_failure pow func fuel neq nout rtol atol touts Hn
             s yin ydot t istate rows Hi Ht).
  unfold ode_row; destruct (Z.gtb_spec nout neq); [lia|].
  rewrite app_nil_r; reflexivity.
Qed.

Lemma ode_repeats_after_failure_witness :
  (-1 < 1 \/ 3 < -1) /\ 1 <= 1 /\
  (forall tout, In tout [2; 3]%float -> fgt tout 1 = true) /\
  ode_loop unit_pow zero_rhs 100 1 1 0 1 [2; 3]%float
    (sample_object, [7]%float, [0]%float, 1%float, -1) [[0; 5]%float]
  = Done ([[0; 5]%float]
          ++ repeat (1%float :: map (fun j => [7]%float.[j]) (upto 0 (1 - 1)))
               (length [2; 3]%float)).
Proof.
  assert (H1 : -1 < 1 \/ 3 < -1) by (left; lia).
  assert (H2 : 1 <= 1) by lia.
  assert (H3 : forall tout, In tout [2; 3]%float -> fgt tout 1 = true).
  { intros tout [<-|[<-|[]]]; reflexivity. }
  split; [exact H1|split; [exact H2|split; [exact H3|]]].
  exact (ode_repeats_after_failure unit_pow zero_rhs 100 1 1 0 1 [2; 3]%float
           sample_object [7]%float [0]%float 1%float (-1) [[0; 5]%float] H1 H2 H3).
Defined.
